(** * Thinking Machines: the artificial-life simulation engine

    A shallow embedding of [config.py], [agent.py], [environment.py] and
    the logic update of the frame loop of [main.py].

    Number model.  Python floats (and the float32 cells of the NumPy
    arrays) are embedded as exact rationals [Q]; rounding error is not
    modelled.  Python integers are [Z].

    Object model.  Agents are mutable Python objects that are shared by the
    population list, the spatial hash [occupied] and the list of corpses.
    They live in a heap ([list Agent.t]); a reference is an index into it.
    The dictionary [occupied] is a [gmap] from cells to references.

    Randomness.  The generators of [random] and [numpy.random] are embedded
    as arbitrary streams of integers; every primitive consumes one word. *)

From Stdlib Require Import ZArith QArith Qround Lia Lqa List Bool.
From stdpp Require Import base option list gmap.

Open Scope Z_scope.
Open Scope Q_scope.

(* ===================================================================== *)
(** ** config.py *)
(* ===================================================================== *)

Definition GRID_WIDTH : Z := 100.
Definition GRID_HEIGHT : Z := 100.

Definition MAX_NUTRIENT : Q := 10.0.
Definition NUTRIENT_SPAWN_RATE : Q := 0.05.
Definition NUTRIENT_DECAY : Q := 0.995.
Definition DIFFUSION_FACTOR : Q := 0.1.
Definition DEAD_BODY_NUTRIENT : Q := 5.0.

Definition SUN_MAX_INTENSITY : Q := 10.0.
Definition SUN_PENETRATION_DEPTH : Q := 0.7.
Definition PHOTOSYNTHESIS_RATE : Q := 0.5.

Definition COLONY_SHARING_RATE : Q := 0.5.

Definition INITIAL_POPULATION : Z := 100.

Definition MUTATION_RATE : Q := 0.05.
Definition MUTATION_STRENGTH : Q := 0.1.

Definition PREDATOR_THRESHOLD_ENERGY : Q := 40.0.
Definition PREDATOR_THRESHOLD_SIZE : Q := 2.5.
Definition PREDATOR_THRESHOLD_OFFSPRING : Z := 3.
Definition PREDATOR_METABOLISM_PENALTY : Q := 1.5.

Definition CYCLE_LENGTH : Z := 600.
Definition DAY_RATIO : Q := 0.5.
Definition NIGHT_METABOLISM_FACTOR : Q := 1.5.
Definition NIGHT_MOVE_CHANCE : Q := 0.3.

Definition PREDATOR_DAY_ACTIVITY : bool := false.
Definition PREDATOR_EAT_EFFICIENCY : Q := 0.8.

(* ===================================================================== *)
(** ** Python built-ins on numbers *)
(* ===================================================================== *)

(** [x < y] on floats, as a boolean. *)
Definition Qltb (x y : Q) : bool := negb (Qle_bool y x).

(** [max(a, b)] returns [a] unless [b > a]; [min(a, b)] returns [a] unless
    [b < a]. *)
Definition py_max (a b : Q) : Q := if Qltb a b then b else a.
Definition py_min (a b : Q) : Q := if Qltb b a then b else a.

(** [abs(x)]. *)
Definition py_abs (x : Q) : Q := if Qltb x 0 then - x else x.

(** [round(x)] with one argument rounds half to even and returns an [int]. *)
Definition py_round (x : Q) : Z :=
  let f := Qfloor x in
  let r := x - inject_Z f in
  if Qltb r 0.5 then f
  else if Qltb 0.5 r then (f + 1)%Z
  else if Z.even f then f else (f + 1)%Z.

(** [int(x)] on a float truncates towards zero. *)
Definition py_int (x : Q) : Z := Z.quot (Qnum x) (Z.pos (Qden x)).

(* ===================================================================== *)
(** ** The random number generators *)
(* ===================================================================== *)

(** A generator is a stream of integer words and a cursor.  [random()]
    turns the low 53 bits of the next word into a float of [0, 1), as
    CPython does; [_randbelow(n)] reduces the next word modulo [n]. *)
Record RNG : Type := mkRNG { tape : nat -> Z; cursor : nat }.

Definition next_word (g : RNG) : Z * RNG :=
  (tape g (cursor g), mkRNG (tape g) (S (cursor g))).

Definition unit_float (w : Z) : Q := Qmake (w mod 2 ^ 53) (2 ^ 53).

Definition random (g : RNG) : Q * RNG :=
  let (w, g') := next_word g in (unit_float w, g').

(** [random.uniform(a, b)] is [a + (b - a) * random()]. *)
Definition uniform (a b : Q) (g : RNG) : Q * RNG :=
  let (u, g') := random g in (a + (b - a) * u, g').

Definition randbelow (n : Z) (g : RNG) : Z * RNG :=
  let (w, g') := next_word g in ((w mod n)%Z, g').

(** [random.randint(a, b)], both ends included. *)
Definition randint (a b : Z) (g : RNG) : Z * RNG :=
  let (k, g') := randbelow (b - a + 1) g in ((a + k)%Z, g').

(** [random.choice(seq)]. *)
Definition choice {A : Type} (d : A) (seq : list A) (g : RNG) : A * RNG :=
  let (k, g') := randbelow (Z.of_nat (length seq)) g in
  (nth (Z.to_nat k) seq d, g').

(** [x[i], x[j] = x[j], x[i]]. *)
Definition swap {A : Type} (i j : nat) (l : list A) : list A :=
  match l !! i, l !! j with
  | Some a, Some b => <[j := a]> (<[i := b]> l)
  | _, _ => l
  end.

(** [random.shuffle(x)]:
    [for i in reversed(range(1, len(x))): j = randbelow(i + 1); swap]. *)
Fixpoint shuffle_from {A : Type} (i : nat) (l : list A) (g : RNG)
  : list A * RNG :=
  match i with
  | O => (l, g)
  | S i' =>
      let (j, g') := randbelow (Z.of_nat (S i)) g in
      shuffle_from i' (swap i (Z.to_nat j) l) g'
  end.

Definition shuffle {A : Type} (l : list A) (g : RNG) : list A * RNG :=
  shuffle_from (length l - 1) l g.

(* ===================================================================== *)
(** ** NumPy arrays of shape (GRID_WIDTH, GRID_HEIGHT) *)
(* ===================================================================== *)

(** The contents of an array, as a function of the two (non-negative)
    indices; only the values on [0, GRID_WIDTH) x [0, GRID_HEIGHT) are
    ever read. *)
Definition Field : Type := Z -> Z -> Q.

(** An integer index on an axis of length [n]: a negative index counts from
    the end, anything outside [-n, n) raises [IndexError] ([None]). *)
Definition norm_index (n i : Z) : option Z :=
  if (0 <=? i)%Z && (i <? n)%Z then Some i
  else if (- n <=? i)%Z && (i <? 0)%Z then Some (i + n)%Z
  else None.

(** [a[i, j]]. *)
Definition field_get (a : Field) (i j : Z) : option Q :=
  i' ← norm_index GRID_WIDTH i;
  j' ← norm_index GRID_HEIGHT j;
  Some (a i' j').

Definition field_write (a : Field) (i j : Z) (v : Q) : Field :=
  fun i0 j0 => if (i0 =? i)%Z && (j0 =? j)%Z then v else a i0 j0.

(** [a[i, j] = v]. *)
Definition field_set (a : Field) (i j : Z) (v : Q) : option Field :=
  i' ← norm_index GRID_WIDTH i;
  j' ← norm_index GRID_HEIGHT j;
  Some (field_write a i' j' v).

(** A bound of a slice [start:stop] on an axis of length [n]: negative
    bounds count from the end, and the result is clipped to [0, n]. *)
Definition slice_bound (n i : Z) : Z :=
  if (i <? 0)%Z then Z.max 0 (i + n) else Z.min i n.

(** The indices selected by [start:stop] on an axis of length [n]. *)
Definition slice (n start stop : Z) : list Z :=
  let a := slice_bound n start in
  let b := slice_bound n stop in
  map (fun k => (a + Z.of_nat k)%Z) (seq 0 (Z.to_nat (b - a))).

(** [a[x0:x1, y0:y1]], as the list of its rows. *)
Definition sub_array (a : Field) (x0 x1 y0 y1 : Z) : list (list Q) :=
  map (fun i => map (fun j => a i j) (slice GRID_HEIGHT y0 y1))
      (slice GRID_WIDTH x0 x1).

(** [np.argmax] on the flattened array: the index of the first maximum. *)
Fixpoint argmax_from (best_i : nat) (best_v : Q) (i : nat) (l : list Q)
  : nat :=
  match l with
  | [] => best_i
  | v :: rest =>
      if Qltb best_v v then argmax_from i v (S i) rest
      else argmax_from best_i best_v (S i) rest
  end.

Definition argmax (l : list Q) : nat :=
  match l with
  | [] => O
  | v :: rest => argmax_from O v 1 rest
  end.

(** [np.sign] on integers. *)
Definition sign (z : Z) : Z := Z.sgn z.

(* ===================================================================== *)
(** ** agent.py *)
(* ===================================================================== *)

(** A dictionary with the six gene keys; [R] is the type stored under the
    real-valued keys and [I] the type stored under ['sense_range']. *)
Record GeneMap (R I : Type) : Type := mkGenes {
  metabolism : R;
  repro_threshold : R;
  sense_range : I;
  size : R;
  photosynthesis_efficiency : R;
  adhesion : R
}.
Arguments mkGenes {R I}.
Arguments metabolism {R I}.
Arguments repro_threshold {R I}.
Arguments sense_range {R I}.
Arguments size {R I}.
Arguments photosynthesis_efficiency {R I}.
Arguments adhesion {R I}.

Definition Genes : Type := GeneMap Q Z.

(** [GENE_BOUNDS] of config.py. *)
Definition GENE_BOUNDS : GeneMap (Q * Q) (Z * Z) :=
  {| metabolism := (0.1, 2.0);
     repro_threshold := (10.0, 60.0);
     sense_range := (1%Z, 5%Z);
     size := (1.0, 3.0);
     photosynthesis_efficiency := (0.0, 1.0);
     adhesion := (0.0, 1.0) |}.

Module Agent.

(** The attributes of an [Agent] object.  The display colour is derived
    from the genes and the predator flag and is not modelled. *)
Record t : Type := mk {
  id : Z;
  x : Z;
  y : Z;
  energy : Q;
  age : Z;
  generation : Z;
  is_alive : bool;
  is_predator : bool;
  offspring_count : Z;
  genes : Genes
}.

Definition set_energy (e : Q) (a : t) : t :=
  mk (id a) (x a) (y a) e (age a) (generation a) (is_alive a)
     (is_predator a) (offspring_count a) (genes a).
Definition set_pos (nx ny : Z) (a : t) : t :=
  mk (id a) nx ny (energy a) (age a) (generation a) (is_alive a)
     (is_predator a) (offspring_count a) (genes a).
Definition set_age (n : Z) (a : t) : t :=
  mk (id a) (x a) (y a) (energy a) n (generation a) (is_alive a)
     (is_predator a) (offspring_count a) (genes a).
Definition set_is_alive (b : bool) (a : t) : t :=
  mk (id a) (x a) (y a) (energy a) (age a) (generation a) b
     (is_predator a) (offspring_count a) (genes a).
Definition set_is_predator (b : bool) (a : t) : t :=
  mk (id a) (x a) (y a) (energy a) (age a) (generation a) (is_alive a)
     b (offspring_count a) (genes a).
Definition set_offspring_count (n : Z) (a : t) : t :=
  mk (id a) (x a) (y a) (energy a) (age a) (generation a) (is_alive a)
     (is_predator a) n (genes a).

(** [self.energy += d] and [self.energy -= d]. *)
Definition add_energy (d : Q) (a : t) : t := set_energy (energy a + d) a.
Definition sub_energy (d : Q) (a : t) : t := set_energy (energy a - d) a.

(** [Agent(x, y, genes=genes, energy=energy, generation=generation)];
    the constructor draws the identifier. *)
Definition init (x y : Z) (genes : Genes) (energy : Q) (generation : Z)
    (g : RNG) : t * RNG :=
  let (i, g') := randint 0 1000000 g in
  (mk i x y energy 0 generation true false 0 genes, g').

(** The dictionary of random genes that [__init__] builds when it is called
    without genes; the values are drawn in the order of the keys. *)
Definition random_genes (g : RNG) : Genes * RNG :=
  let (v0, g) := uniform (fst (metabolism GENE_BOUNDS))
                         (snd (metabolism GENE_BOUNDS)) g in
  let (v1, g) := uniform (fst (repro_threshold GENE_BOUNDS))
                         (snd (repro_threshold GENE_BOUNDS)) g in
  let (v2, g) := randint (fst (sense_range GENE_BOUNDS))
                         (snd (sense_range GENE_BOUNDS)) g in
  let (v3, g) := uniform (fst (size GENE_BOUNDS)) (snd (size GENE_BOUNDS)) g in
  let (v4, g) := uniform (fst (photosynthesis_efficiency GENE_BOUNDS))
                         (snd (photosynthesis_efficiency GENE_BOUNDS)) g in
  let (v5, g) := uniform (fst (adhesion GENE_BOUNDS))
                         (snd (adhesion GENE_BOUNDS)) g in
  (mkGenes v0 v1 v2 v3 v4 v5, g).

(** [Agent(x, y)]: the constructor with its defaults [genes=None],
    [energy=20.0] and [generation=1]. *)
Definition init_random (x y : Z) (g : RNG) : t * RNG :=
  let (i, g1) := randint 0 1000000 g in
  let (genes, g2) := random_genes g1 in
  (mk i x y 20.0 0 1 true false 0 genes, g2).

(** [traits.sort(key=lambda x: x[0], reverse=True)]: a stable sort by
    decreasing key, so that traits with equal keys keep their order. *)
Fixpoint insert_desc (t : Q * (Z * Z * Z)) (l : list (Q * (Z * Z * Z)))
  : list (Q * (Z * Z * Z)) :=
  match l with
  | [] => [t]
  | h :: rest =>
      if Qltb (fst h) (fst t) then t :: h :: rest
      else h :: insert_desc t rest
  end.

Definition sort_desc (l : list (Q * (Z * Z * Z))) : list (Q * (Z * Z * Z)) :=
  fold_left (fun acc t => insert_desc t acc) l [].

(** [update_color]: the value assigned to [self.color]. *)
Definition update_color (self : t) : Z * Z * Z :=
  if is_predator self then (128, 0, 128)%Z
  else
    let norm_repro := repro_threshold (genes self)
                      / snd (repro_threshold GENE_BOUNDS) in
    let norm_sense := inject_Z (sense_range (genes self))
                      / inject_Z (snd (sense_range GENE_BOUNDS)) in
    let norm_metab := 1.0 - metabolism (genes self)
                            / snd (metabolism GENE_BOUNDS) in
    let traits :=
      [(norm_repro, (255, 50, 50)%Z);
       (norm_sense, (50, 255, 50)%Z);
       (norm_metab, (50, 50, 255)%Z);
       (photosynthesis_efficiency (genes self), (255, 255, 0)%Z)] in
    let traits := sort_desc traits in
    let base_color := snd (nth 0 traits (0, (0, 0, 0)%Z)) in
    let size_factor :=
      1.0 - ((size (genes self) - fst (size GENE_BOUNDS))
             / (snd (size GENE_BOUNDS) - fst (size GENE_BOUNDS))) * 0.4 in
    (py_int (inject_Z (fst (fst base_color)) * size_factor),
     py_int (inject_Z (snd (fst base_color)) * size_factor),
     py_int (inject_Z (snd base_color) * size_factor)).

(** [check_evolution]. *)
Definition check_evolution (self : t) : t :=
  if negb (is_predator self) then
    if Qltb PREDATOR_THRESHOLD_ENERGY (energy self)
       && Qltb PREDATOR_THRESHOLD_SIZE (size (genes self))
       && (PREDATOR_THRESHOLD_OFFSPRING <=? offspring_count self)%Z
    then set_is_predator true self
    else self
  else self.

(** One iteration of the loop of [mutate_genes] for a real-valued gene
    with bounds [(mn, mx)]. *)
Definition mutate_real (bounds : Q * Q) (val : Q) (g : RNG) : Q * RNG :=
  let (u, g1) := random g in
  if Qltb u MUTATION_RATE then
    let (s, g2) := uniform (- MUTATION_STRENGTH) MUTATION_STRENGTH g1 in
    let change := val * s in
    let new_val := val + change in
    let (mn, mx) := bounds in
    (py_max mn (py_min mx new_val), g2)
  else (val, g1).

(** The same iteration for ['sense_range']: the new value is rounded to
    an [int] before it is clamped. *)
Definition mutate_int (bounds : Z * Z) (val : Z) (g : RNG) : Z * RNG :=
  let (u, g1) := random g in
  if Qltb u MUTATION_RATE then
    let (s, g2) := uniform (- MUTATION_STRENGTH) MUTATION_STRENGTH g1 in
    let change := inject_Z val * s in
    let new_val := inject_Z val + change in
    let new_val := py_round new_val in
    let (mn, mx) := bounds in
    (Z.max mn (Z.min mx new_val), g2)
  else (val, g1).

(** [mutate_genes]: the loop over [new_genes.items()], unrolled in the
    insertion order of the keys. *)
Definition mutate_genes (self : t) (g : RNG) : Genes * RNG :=
  let new_genes := genes self in
  let (v0, g) := mutate_real (metabolism GENE_BOUNDS) (metabolism new_genes) g in
  let (v1, g) := mutate_real (repro_threshold GENE_BOUNDS) (repro_threshold new_genes) g in
  let (v2, g) := mutate_int (sense_range GENE_BOUNDS) (sense_range new_genes) g in
  let (v3, g) := mutate_real (size GENE_BOUNDS) (size new_genes) g in
  let (v4, g) := mutate_real (photosynthesis_efficiency GENE_BOUNDS)
                             (photosynthesis_efficiency new_genes) g in
  let (v5, g) := mutate_real (adhesion GENE_BOUNDS) (adhesion new_genes) g in
  (mkGenes v0 v1 v2 v3 v4 v5, g).

(** [photosynthesize]. *)
Definition photosynthesize (self : t) (sunlight_intensity : Q) : t :=
  let gain := sunlight_intensity * photosynthesis_efficiency (genes self)
              * PHOTOSYNTHESIS_RATE in
  add_energy gain self.

(** The loop of [handle_colony] over [neighbors]; [self] and the
    neighbours are references into the heap [h], so that the transfers
    are seen by every holder of the objects. *)
Fixpoint colony_loop (self : nat) (neighbors : list nat) (attached : bool)
    (h : list t) : option (bool * list t) :=
  match neighbors with
  | [] => Some (attached, h)
  | other :: rest =>
      s ← h !! self;
      o ← h !! other;
      if Qle_bool 0.5 (adhesion (genes o)) then
        let diff := energy s - energy o in
        let h' :=
          if Qltb 1.0 (py_abs diff) then
            let transfer := diff * COLONY_SHARING_RATE * 0.5 in
            alter (add_energy transfer) other
                  (alter (sub_energy transfer) self h)
          else h in
        colony_loop self rest true h'
      else colony_loop self rest attached h
  end.

(** [handle_colony]. *)
Definition handle_colony (self : nat) (neighbors : list nat) (h : list t)
  : option (bool * list t) :=
  s ← h !! self;
  if Qltb (adhesion (genes s)) 0.5 then Some (false, h)
  else colony_loop self neighbors false h.

(** Lines 177-211 of [sense_and_move]: the scan of the patch around
    [self], which yields [best_x], [best_y] and [found_better]. *)
Definition scan (self : t) (nutrient_grid : Field) (grid_w grid_h : Z)
  : Z * Z * bool :=
  let r := sense_range (genes self) in
  let x_min := Z.max 0 (x self - r) in
  let x_max := Z.min grid_w (x self + r + 1) in
  let y_min := Z.max 0 (y self - r) in
  let y_max := Z.min grid_h (y self + r + 1) in
  let patch := sub_array nutrient_grid x_min x_max y_min y_max in
  let flat := concat patch in
  if (0 <? Z.of_nat (length flat))%Z then
    let max_idx := argmax flat in
    let ncols := length (slice GRID_HEIGHT y_min y_max) in
    let local_x := Z.of_nat (max_idx / ncols) in
    let local_y := Z.of_nat (max_idx mod ncols) in
    let best_val := nth max_idx flat 0 in
    ((x_min + local_x)%Z, (y_min + local_y)%Z, Qltb (-1.0) best_val)
  else (x self, y self, false).

(** Lines 171-235 of [sense_and_move]: the part after the day/night
    logic, entered with the metabolic cost of this tick. *)
Definition forage (self : t) (metab_cost : Q) (nutrient_grid : Field)
    (grid_w grid_h : Z) (is_attached : bool) (g : RNG)
  : t * (Z * Z) * RNG :=
  let self := sub_energy metab_cost self in
  if is_attached then (self, (x self, y self), g)
  else
    let '(best_x, best_y, found_better) :=
      scan self nutrient_grid grid_w grid_h in
    if found_better
       && (negb (best_x =? x self)%Z || negb (best_y =? y self)%Z) then
      let dir_x := sign (best_x - x self) in
      let dir_y := sign (best_y - y self) in
      let move_cost := metabolism (genes self) * 0.5 in
      (sub_energy move_cost self, ((x self + dir_x)%Z, (y self + dir_y)%Z), g)
    else
      let (u, g1) := random g in
      if Qltb u 0.2 then
        let (dx, g2) := choice 0%Z [(-1)%Z; 0%Z; 1%Z] g1 in
        let (dy, g3) := choice 0%Z [(-1)%Z; 0%Z; 1%Z] g2 in
        let nx := (x self + dx)%Z in
        let ny := (y self + dy)%Z in
        if (0 <=? nx)%Z && (nx <? grid_w)%Z
           && (0 <=? ny)%Z && (ny <? grid_h)%Z then
          (sub_energy (metabolism (genes self) * 0.2) self, (nx, ny), g3)
        else (self, (x self, y self), g3)
      else (self, (x self, y self), g1).

(** [sense_and_move]: the new state of [self], the cell it wants to go
    to, and the generator. *)
Definition sense_and_move (self : t) (nutrient_grid : Field)
    (grid_w grid_h : Z) (is_night is_attached : bool) (g : RNG)
  : t * (Z * Z) * RNG :=
  let metab_cost := metabolism (genes self) in
  if is_predator self then
    let metab_cost := metab_cost * PREDATOR_METABOLISM_PENALTY in
    if negb is_night && negb PREDATOR_DAY_ACTIVITY then
      (sub_energy (metab_cost * 0.1) self, (x self, y self), g)
    else forage self metab_cost nutrient_grid grid_w grid_h is_attached g
  else if is_night then
    let metab_cost := metab_cost * NIGHT_METABOLISM_FACTOR in
    let (u, g1) := random g in
    if Qltb NIGHT_MOVE_CHANCE u then
      (sub_energy metab_cost self, (x self, y self), g1)
    else forage self metab_cost nutrient_grid grid_w grid_h is_attached g1
  else forage self metab_cost nutrient_grid grid_w grid_h is_attached g.

End Agent.

(* ===================================================================== *)
(** ** environment.py *)
(* ===================================================================== *)

Module Environment.

(** The attributes of an [Environment] object.  [agents] holds distinct
    objects: the list is only ever built from fresh [Agent(...)] calls. *)
Record t : Type := mk {
  nutrients : Field;
  sunlight_gradient : Field;
  agents : list Agent.t;
  global_time : Z;
  is_night : bool
}.

(** [self.sunlight_gradient] as [__init__] fills it: the intensity depends
    on the row [y] only. *)
Definition init_sunlight : Field :=
  fun _ y =>
    SUN_MAX_INTENSITY
    * (1.0 - (inject_Z y / inject_Z GRID_HEIGHT)
             * (1.0 - SUN_PENETRATION_DEPTH)).

(** The entries of the list [events]. *)
Inductive event : Type :=
| Eat (x y : Z)
| Spawn (x y nx ny : Z).

(** *** update_nutrients *)

(** [np.pad(a, 1, mode='wrap')], of shape (GRID_WIDTH + 2, GRID_HEIGHT + 2). *)
Definition pad_wrap (a : Field) : Field :=
  fun i j => a ((i - 1) mod GRID_WIDTH)%Z ((j - 1) mod GRID_HEIGHT)%Z.

(** [np.clip(v, lo, hi)] on one cell. *)
Definition clip (v lo hi : Q) : Q := py_min (py_max v lo) hi.

(** The body of [update_nutrients] on the array, for given values of
    [NUTRIENT_SPAWN_RATE], [DIFFUSION_FACTOR] and [NUTRIENT_DECAY];
    [words x y] is the word the NumPy generator draws for cell (x, y). *)
Definition update_field (spawn_rate k decay : Q) (words : Z -> Z -> Z)
    (a : Field) : Field :=
  (* 1. regeneration *)
  let spawn_mask := fun x y => Qltb (unit_float (words x y)) spawn_rate in
  let a1 : Field := fun x y => if spawn_mask x y then a x y + 2.0 else a x y in
  (* 2. diffusion *)
  let padded := pad_wrap a1 in
  let left : Field := fun x y => padded x (y + 1)%Z in
  let right : Field := fun x y => padded (x + 2)%Z (y + 1)%Z in
  let up : Field := fun x y => padded (x + 1)%Z y in
  let down : Field := fun x y => padded (x + 1)%Z (y + 2)%Z in
  let neighbor_sum : Field := fun x y => left x y + right x y + up x y + down x y in
  let a2 : Field := fun x y => a1 x y * (1 - 4 * k) in
  let a3 : Field := fun x y => a2 x y + neighbor_sum x y * k in
  (* 3. decay *)
  let a4 : Field := fun x y => a3 x y * decay in
  (* 4. clamping *)
  fun x y => clip (a4 x y) 0 MAX_NUTRIENT.

Definition update_nutrients (words : Z -> Z -> Z) (self : t) : t :=
  mk (update_field NUTRIENT_SPAWN_RATE DIFFUSION_FACTOR NUTRIENT_DECAY
                   words (nutrients self))
     (sunlight_gradient self) (agents self) (global_time self)
     (is_night self).

(** *** update_agents *)

(** The mutable state of one call: the heap of agent objects (the first
    [length (agents self)] are the agents of [self.agents] in order, the
    rest are [new_borns] in order of birth), [self.nutrients], the
    dictionary [occupied], the lists [dead_agents] and [events], and the
    generator of [random]. *)
Record loop : Type := mkLoop {
  heap : list Agent.t;
  grid : Field;
  occupied : gmap (Z * Z) nat;
  dead_agents : list nat;
  events : list event;
  rng : RNG
}.

Definition set_heap (h : list Agent.t) (s : loop) : loop :=
  mkLoop h (grid s) (occupied s) (dead_agents s) (events s) (rng s).

(** [{(a.x, a.y): a for a in self.agents}]: later agents win a cell. *)
Fixpoint build_occupied (i : nat) (l : list Agent.t)
    (m : gmap (Z * Z) nat) : gmap (Z * Z) nat :=
  match l with
  | [] => m
  | a :: rest =>
      build_occupied (S i) rest (<[(Agent.x a, Agent.y a) := i]> m)
  end.

(** Section 0, photosynthesis. *)
Definition photosynthesis_phase (night : bool) (sun : Field) (r : nat)
    (s : loop) : option loop :=
  agent ← heap s !! r;
  sun_intensity ←
    (if negb night then field_get sun (Agent.x agent) (Agent.y agent)
     else Some 0.0);
  Some (set_heap (<[r := Agent.photosynthesize agent sun_intensity]> (heap s)) s).

(** The order of the two nested loops over [dx] and [dy]. *)
Definition neighbor_offsets : list (Z * Z) :=
  [(-1, -1); (-1, 0); (-1, 1); (0, -1); (0, 1); (1, -1); (1, 0); (1, 1)]%Z.

Definition gather_neighbors (occ : gmap (Z * Z) nat) (x y : Z) : list nat :=
  omap (fun d : Z * Z => occ !! ((x + fst d)%Z, (y + snd d)%Z))
       neighbor_offsets.

(** Section 0, colony logic: the flag [is_attached]. *)
Definition colony_phase (r : nat) (s : loop) : option (bool * loop) :=
  agent ← heap s !! r;
  if Qle_bool 0.5 (adhesion (Agent.genes agent)) then
    let neighbors :=
      gather_neighbors (occupied s) (Agent.x agent) (Agent.y agent) in
    res ← Agent.handle_colony r neighbors (heap s);
    Some (fst res, set_heap (snd res) s)
  else Some (false, s).

(** Section 1, the call of [sense_and_move]: the target cell. *)
Definition movement_phase (night : bool) (r : nat) (is_attached : bool)
    (s : loop) : option (Z * Z * loop) :=
  agent ← heap s !! r;
  let '(agent', target, g') :=
    Agent.sense_and_move agent (grid s) GRID_WIDTH GRID_HEIGHT night
                         is_attached (rng s) in
  Some (target,
        mkLoop (<[r := agent']> (heap s)) (grid s) (occupied s)
               (dead_agents s) (events s) g').

(** The agent [r] leaves its cell for [target]:
    [if occupied.get((agent.x, agent.y)) == agent: del ...], then the
    assignment of the position and of [occupied[(agent.x, agent.y)]]. *)
Definition move_into (r : nat) (target : Z * Z) (s : loop) : option loop :=
  agent ← heap s !! r;
  let here := (Agent.x agent, Agent.y agent) in
  let occ := if bool_decide (occupied s !! here = Some r)
             then delete here (occupied s) else occupied s in
  Some (mkLoop (<[r := Agent.set_pos (fst target) (snd target) agent]> (heap s))
               (grid s) (<[target := r]> occ) (dead_agents s) (events s)
               (rng s)).

(** The condition under which the mover eats the occupant. *)
Definition predation_fires (agent other : Agent.t) : bool :=
  Agent.is_predator agent && negb (Agent.is_predator other)
  && Agent.is_alive other
  && Qltb (size (Agent.genes other)) (size (Agent.genes agent)).

(** Section 1, collision check. *)
Definition collision_phase (r : nat) (target : Z * Z) (s : loop)
  : option loop :=
  match occupied s !! target with
  | None => move_into r target s
  | Some o =>
      agent ← heap s !! r;
      other ← heap s !! o;
      if predation_fires agent other then
        let eat_gain := Agent.energy other * PREDATOR_EAT_EFFICIENCY
                        + DEAD_BODY_NUTRIENT in
        let h1 := <[r := Agent.add_energy eat_gain agent]> (heap s) in
        let h2 := alter (Agent.set_is_alive false) o h1 in
        move_into r target
          (mkLoop h2 (grid s) (occupied s) (dead_agents s)
                  (events s ++ [Eat (Agent.x agent) (Agent.y agent)])
                  (rng s))
      else Some s
  end.

(** Section 2, eating. *)
Definition eating_phase (r : nat) (s : loop) : option loop :=
  agent ← heap s !! r;
  if negb (Agent.is_predator agent) then
    available_food ← field_get (grid s) (Agent.x agent) (Agent.y agent);
    let eat_amount := py_min available_food 2.0 in
    grid' ← field_set (grid s) (Agent.x agent) (Agent.y agent)
                      (available_food - eat_amount);
    Some (mkLoop (<[r := Agent.add_energy eat_amount agent]> (heap s))
                 grid' (occupied s) (dead_agents s) (events s) (rng s))
  else Some s.

(** The test of the scan over the shuffled neighbours. *)
Definition vacant (occ : gmap (Z * Z) nat) (c : Z * Z) : bool :=
  ((0 <=? fst c)%Z && (fst c <? GRID_WIDTH)%Z
   && (0 <=? snd c)%Z && (snd c <? GRID_HEIGHT)%Z)
  && bool_decide (occ !! c = None).

(** "Create offspring" at the cell [c]. *)
Definition spawn (r : nat) (c : Z * Z) (s : loop) : option loop :=
  agent ← heap s !! r;
  let split_energy := Agent.energy agent / 2 in
  let agent := Agent.set_energy split_energy agent in
  let (child_genes, g1) := Agent.mutate_genes agent (rng s) in
  let (child, g2) :=
    Agent.init (fst c) (snd c) child_genes split_energy
               (Agent.generation agent + 1) g1 in
  let child_ref := length (heap s) in
  let agent := Agent.set_offspring_count (Agent.offspring_count agent + 1)
                                         agent in
  Some (mkLoop (<[r := agent]> (heap s) ++ [child])
               (grid s) (<[c := child_ref]> (occupied s)) (dead_agents s)
               (events s ++ [Spawn (Agent.x agent) (Agent.y agent)
                                   (fst c) (snd c)])
               g2).

(** Section 3, reproduction: the first vacant cell of the shuffled list
    receives the child, and the scan stops there. *)
Definition reproduction_phase (r : nat) (s : loop) : option loop :=
  agent ← heap s !! r;
  if Qltb (repro_threshold (Agent.genes agent)) (Agent.energy agent) then
    let ax := Agent.x agent in
    let ay := Agent.y agent in
    let neighbors :=
      [((ax + 1)%Z, ay); ((ax - 1)%Z, ay); (ax, (ay + 1)%Z); (ax, (ay - 1)%Z)] in
    let (neighbors, g) := shuffle neighbors (rng s) in
    let s := mkLoop (heap s) (grid s) (occupied s) (dead_agents s)
                    (events s) g in
    match find (vacant (occupied s)) neighbors with
    | Some c => spawn r c s
    | None => Some s
    end
  else Some s.

(** Section 4, evolution and death. *)
Definition death_phase (r : nat) (s : loop) : option loop :=
  agent ← heap s !! r;
  let agent := Agent.check_evolution agent in
  let agent := Agent.set_age (Agent.age agent + 1) agent in
  if Qle_bool (Agent.energy agent) 0 then
    Some (mkLoop (<[r := Agent.set_is_alive false agent]> (heap s))
                 (grid s) (occupied s) (dead_agents s ++ [r]) (events s)
                 (rng s))
  else Some (set_heap (<[r := agent]> (heap s)) s).

(** The body of [for agent in self.agents], for the agent [r]. *)
Definition agent_turn (night : bool) (sun : Field) (r : nat) (s : loop)
  : option loop :=
  s ← photosynthesis_phase night sun r s;
  c ← colony_phase r s;
  m ← movement_phase night r (fst c) (snd c);
  s ← collision_phase r (fst m) (snd m);
  s ← eating_phase r s;
  s ← reproduction_phase r s;
  death_phase r s.

(** The loop over the references [rs]. *)
Fixpoint agent_loop (night : bool) (sun : Field) (rs : list nat)
    (s : loop) : option loop :=
  match rs with
  | [] => Some s
  | r :: rest =>
      s' ← agent_turn night sun r s;
      agent_loop night sun rest s'
  end.

(** [for corpse in dead_agents: self.nutrients[corpse.x, corpse.y] += ...]. *)
Fixpoint recycle (h : list Agent.t) (dead : list nat) (a : Field)
  : option Field :=
  match dead with
  | [] => Some a
  | r :: rest =>
      corpse ← h !! r;
      v ← field_get a (Agent.x corpse) (Agent.y corpse);
      a' ← field_set a (Agent.x corpse) (Agent.y corpse)
                     (v + DEAD_BODY_NUTRIENT);
      recycle h rest a'
  end.

(** The state in which the loop over the agents starts. *)
Definition loop_start (self : t) (g : RNG) : loop :=
  mkLoop (agents self) (nutrients self)
         (build_occupied 0 (agents self) ∅) [] [] g.

(** The value of [self.is_night] computed from the new [global_time]. *)
Definition night_at (time : Z) : bool :=
  let cycle_pos := (time mod CYCLE_LENGTH)%Z in
  Qltb (inject_Z CYCLE_LENGTH * DAY_RATIO) (inject_Z cycle_pos).

(** The loop of [update_agents], from its start to the state in which the
    last agent has had its turn. *)
Definition run_loop (self : t) (g : RNG) : option loop :=
  let time := (global_time self + 1)%Z in
  agent_loop (night_at time) (sunlight_gradient self)
             (seq 0 (length (agents self))) (loop_start self g).

(** [self.agents = [a for a in self.agents if a.is_alive] + new_borns]. *)
Definition next_population (n : nat) (h : list Agent.t) : list Agent.t :=
  filter (fun a => Agent.is_alive a = true) (take n h) ++ drop n h.

(** [update_agents]: the environment after the call, the returned
    events and the generator; [None] when an exception is raised. *)
Definition update_agents (self : t) (g : RNG)
  : option (t * list event * RNG) :=
  let time := (global_time self + 1)%Z in
  s ← run_loop self g;
  grid' ← recycle (heap s) (dead_agents s) (grid s);
  Some (mk grid' (sunlight_gradient self)
           (next_population (length (agents self)) (heap s))
           time (night_at time),
        events s, rng s).

(** *** __init__ and randomize_nutrients *)

(** The loop of [randomize_nutrients], for [n] iterations. *)
Fixpoint seed_loop (n : nat) (a : Field) (g : RNG) : option (Field * RNG) :=
  match n with
  | O => Some (a, g)
  | S k =>
      let (x, g1) := randint 0 (GRID_WIDTH - 1) g in
      let (y, g2) := randint 0 (GRID_HEIGHT - 1) g1 in
      let (v, g3) := uniform 0 MAX_NUTRIENT g2 in
      a' ← field_set a x y v;
      seed_loop k a' g3
  end.

(** [randomize_nutrients]. *)
Definition randomize_nutrients (self : t) (g : RNG) : option (t * RNG) :=
  let n := py_int (inject_Z (GRID_WIDTH * GRID_HEIGHT) * 0.1) in
  res ← seed_loop (Z.to_nat n) (nutrients self) g;
  Some (mk (fst res) (sunlight_gradient self) (agents self)
           (global_time self) (is_night self), snd res).

(** The loop of [__init__] that appends [n] agents at random cells. *)
Fixpoint populate (n : nat) (l : list Agent.t) (g : RNG)
  : list Agent.t * RNG :=
  match n with
  | O => (l, g)
  | S k =>
      let (x, g1) := randint 0 (GRID_WIDTH - 1) g in
      let (y, g2) := randint 0 (GRID_HEIGHT - 1) g1 in
      let (a, g3) := Agent.init_random x y g2 in
      populate k (l ++ [a]) g3
  end.

(** [Environment()]. *)
Definition init (g : RNG) : option (t * RNG) :=
  let self := mk (fun _ _ => 0) init_sunlight [] 0 false in
  seeded ← randomize_nutrients self g;
  let (population, g') :=
    populate (Z.to_nat INITIAL_POPULATION) (agents (fst seeded))
             (snd seeded) in
  Some (mk (nutrients (fst seeded)) (sunlight_gradient (fst seeded))
           population 0 false, g').

End Environment.

(* ===================================================================== *)
(** ** main.py: the logic update of a frame *)
(* ===================================================================== *)

(** [env.update_nutrients(); events = env.update_agents()]. *)
Definition logic_update (words : Z -> Z -> Z) (env : Environment.t)
    (g : RNG) : option (Environment.t * list Environment.event * RNG) :=
  Environment.update_agents (Environment.update_nutrients words env) g.

(** [n] frames in a row; [words k] is the array that the NumPy generator
    draws in frame [k]. *)
Fixpoint run_ticks (n : nat) (words : nat -> Z -> Z -> Z)
    (env : Environment.t) (g : RNG) : option (Environment.t * RNG) :=
  match n with
  | O => Some (env, g)
  | S k =>
      before ← run_ticks k words env g;
      after ← logic_update (words k) (fst before) (snd before);
      Some (fst (fst after), snd after)
  end.

(** [map_value_to_color]: the tint darkened in proportion to [value];
    the division raises [ZeroDivisionError] ([None]) when [max_val] is
    zero. *)
Definition map_value_to_color (value max_val : Q) (color_tint : Z * Z * Z)
  : option (Z * Z * Z) :=
  if Qeq_bool max_val 0 then None
  else
    let intensity := py_min 1.0 (value / max_val) in
    Some (py_int (inject_Z (fst (fst color_tint)) * intensity),
          py_int (inject_Z (snd (fst color_tint)) * intensity),
          py_int (inject_Z (snd color_tint) * intensity)).

(* ===================================================================== *)
(** ** Vocabulary of the properties *)
(* ===================================================================== *)

(** A value lies within a pair of bounds of [GENE_BOUNDS]. *)
Definition within (bounds : Q * Q) (v : Q) : Prop :=
  fst bounds <= v /\ v <= snd bounds.

Definition within_int (bounds : Z * Z) (v : Z) : Prop :=
  (fst bounds <= v)%Z /\ (v <= snd bounds)%Z.

Definition genes_within_bounds (g : Genes) : Prop :=
  within (metabolism GENE_BOUNDS) (metabolism g)
  /\ within (repro_threshold GENE_BOUNDS) (repro_threshold g)
  /\ within_int (sense_range GENE_BOUNDS) (sense_range g)
  /\ within (size GENE_BOUNDS) (size g)
  /\ within (photosynthesis_efficiency GENE_BOUNDS) (photosynthesis_efficiency g)
  /\ within (adhesion GENE_BOUNDS) (adhesion g).

(** The test [random.random() < MUTATION_RATE] of one iteration of the loop
    of [mutate_genes], entered with the generator [g]. *)
Definition selected (g : RNG) : bool := Qltb (fst (random g)) MUTATION_RATE.

(** The factor [random.uniform(-MUTATION_STRENGTH, MUTATION_STRENGTH)] that
    a selected iteration draws. *)
Definition strength_draw (g : RNG) : Q :=
  fst (uniform (- MUTATION_STRENGTH) MUTATION_STRENGTH (snd (random g))).

(** The generator after one iteration. *)
Definition after_gene (g : RNG) : RNG :=
  if selected g
  then snd (uniform (- MUTATION_STRENGTH) MUTATION_STRENGTH (snd (random g)))
  else snd (random g).

(** The generator with which the iteration for the [k]-th key starts. *)
Definition gene_rng (k : nat) (g : RNG) : RNG := Nat.iter k after_gene g.

(** A cell of the grid, and an agent standing on one. *)
Definition in_grid (x y : Z) : Prop :=
  (0 <= x < GRID_WIDTH)%Z /\ (0 <= y < GRID_HEIGHT)%Z.

Definition agent_in_grid (a : Agent.t) : Prop :=
  in_grid (Agent.x a) (Agent.y a).

(** Every cell of the grid holds a value of [lo, hi]. *)
Definition field_within (lo hi : Q) (a : Field) : Prop :=
  forall x y, in_grid x y -> lo <= a x y /\ a x y <= hi.

(** The number of references of [dead] whose agent stands on (x, y). *)
Definition stands_on (h : list Agent.t) (x y : Z) (r : nat) : bool :=
  match h !! r with
  | Some a => (Agent.x a =? x)%Z && (Agent.y a =? y)%Z
  | None => false
  end.

Definition corpses_at (h : list Agent.t) (dead : list nat) (x y : Z) : nat :=
  length (List.filter (stands_on h x y) dead).

(** *** Scenarios *)

(** A nutrient field with a single seeded value. *)
Definition single_peak (px py : Z) (v : Q) : Field :=
  fun i j => if (i =? px)%Z && (j =? py)%Z then v else 0.

(** A generator whose every word yields [random() = 0.5]. *)
Definition steady_rng : RNG := mkRNG (fun _ => (2 ^ 52)%Z) 0.

(** Two sticky agents on adjacent cells, with energies 30.0 and 10.0. *)
Definition sticky_rich : Agent.t :=
  Agent.mk 1 5 5 30.0 0 1 true false 0 (mkGenes 1.0 60.0 1%Z 1.0 0.0 0.6).
Definition sticky_poor : Agent.t :=
  Agent.mk 2 6 5 10.0 0 1 true false 0 (mkGenes 1.0 60.0 1%Z 1.0 0.0 0.9).

Definition colony_start (l : list Agent.t) : Environment.loop :=
  Environment.loop_start
    (Environment.mk (fun _ _ => 0) Environment.init_sunlight l 0 false)
    steady_rng.

(** A generator whose every word is zero: every [random()] is 0.0. *)
Definition eager_rng : RNG := mkRNG (fun _ => 0%Z) 0.

(** The single-peak scenario: the field after one update with zero spawn
    rate, diffusion constant 0.1 and decay 0.995. *)
Definition peak_before : Field := single_peak 5 5 10.0.

Definition peak_after (words : Z -> Z -> Z) : Field :=
  Environment.update_field 0 0.1 0.995 words peak_before.

(** What a cell gained in the update. *)
Definition peak_gain (words : Z -> Z -> Z) (x y : Z) : Q :=
  peak_after words x y - peak_before x y.

(** The scenario as the specification words it: each neighbour gains
    10.0 * 0.1 and the centre holds 10.0 * (1 - 0.4) * 0.995. *)
Definition single_peak_as_specified (words : Z -> Z -> Z) : Prop :=
  peak_gain words 4 5 == 10.0 * 0.1
  /\ peak_gain words 6 5 == 10.0 * 0.1
  /\ peak_gain words 5 4 == 10.0 * 0.1
  /\ peak_gain words 5 6 == 10.0 * 0.1
  /\ peak_after words 5%Z 5%Z == 10.0 * (1 - 0.4) * 0.995.

(** A predator and a grazer; it is night at tick 301. *)
Definition hunter (x y : Z) : Agent.t :=
  Agent.mk 1 x y 10.0 0 1 true true 3 (mkGenes 1.0 60.0 1%Z 3.0 0.0 0.0).
Definition grazer (x y : Z) : Agent.t :=
  Agent.mk 2 x y 50.0 0 1 true false 0 (mkGenes 0.1 10.0 1%Z 1.0 0.0 0.0).

(** The hunter stands next to the grazer, whose cell holds the only
    nutrients; the hunter has its turn first. *)
Definition ambush : Environment.t :=
  Environment.mk (single_peak 6 5 10.0) Environment.init_sunlight
                 [hunter 5 5; grazer 6 5] 300 false.

(** The grazer has its turn first and is about to split; the hunter stands
    next to the cell (7,6), which holds the only nutrients. *)
Definition nursery : Environment.t :=
  Environment.mk (single_peak 7 6 10.0) Environment.init_sunlight
                 [grazer 7 5; hunter 6 6] 300 false.

(** A starving agent on a cell that is full of nutrients. *)
Definition starving : Agent.t :=
  Agent.mk 3 5 5 0.5 0 1 true false 0 (mkGenes 2.0 60.0 1%Z 1.0 0.0 0.0).
Definition famine : Environment.t :=
  Environment.mk (fun _ _ => 10.0) Environment.init_sunlight [starving] 300
                 false.

(** A grazer that is not about to split, with its turn before the hunter
    that stands next to it; the grazer's cell holds the only nutrients. *)
Definition browser (x y : Z) : Agent.t :=
  Agent.mk 4 x y 50.0 0 1 true false 0 (mkGenes 0.1 60.0 1%Z 1.0 0.0 0.0).
Definition stalked : Environment.t :=
  Environment.mk (single_peak 6 5 10.0) Environment.init_sunlight
                 [browser 6 5; hunter 5 5] 300 false.

(** An agent too weak to survive the night, and the hunter that has its
    turn before it. *)
Definition weakling (x y : Z) : Agent.t :=
  Agent.mk 5 x y 0.5 0 1 true false 0 (mkGenes 2.0 60.0 1%Z 1.0 0.0 0.0).
Definition doomed : Environment.t :=
  Environment.mk (single_peak 6 5 10.0) Environment.init_sunlight
                 [hunter 5 5; weakling 6 5] 300 false.

(** *** Properties that the code does not have, as the specification words them *)

(** The nutrient bounds after both updates. *)
Definition nutrient_bounds_as_specified (self : Environment.t) (g : RNG)
    (words : Z -> Z -> Z) : Prop :=
  field_within 0 MAX_NUTRIENT (Environment.nutrients self) ->
  field_within 0 MAX_NUTRIENT
    (Environment.nutrients (Environment.update_nutrients words self))
  /\ (forall self' ev g',
        Environment.update_agents self g = Some (self', ev, g') ->
        field_within 0 MAX_NUTRIENT (Environment.nutrients self')).


(** What the recycling step added to the cell (x, y). *)
Definition deposit (self' : Environment.t) (s : Environment.loop)
    (x y : Z) : Q :=
  Environment.nutrients self' x y - Environment.grid s x y.


(** *** The invariant of the loop of [update_agents] *)

(** Every object of the heap stands on a cell of the grid, and every
    reference held by [occupied] or [dead_agents] points into the heap. *)
Record loop_ok (s : Environment.loop) : Prop := mk_loop_ok {
  heap_in_grid : Forall agent_in_grid (Environment.heap s);
  occupied_valid :
    forall c r, Environment.occupied s !! c = Some r ->
                (r < length (Environment.heap s))%nat;
  dead_valid :
    Forall (fun r => (r < length (Environment.heap s))%nat)
           (Environment.dead_agents s)
}.

(** The agent [r] fails the death check that closes its turn, which ended
    in the state [s']. *)
Definition starved (s' : Environment.loop) (r : nat) : list nat :=
  match Environment.heap s' !! r with
  | Some a => if Qle_bool (Agent.energy a) 0 then [r] else []
  | None => []
  end.

(** The agents of [rs] that starve in their turn, when the loop runs over
    [rs] from the state [s]. *)
Fixpoint starved_in (night : bool) (sun : Field) (rs : list nat)
    (s : Environment.loop) : list nat :=
  match rs with
  | [] => []
  | r :: rest =>
      match Environment.agent_turn night sun r s with
      | Some s' => starved s' r ++ starved_in night sun rest s'
      | None => []
      end
  end.

(** The four axis-aligned neighbours of an agent, in the order of the
    list that [update_agents] shuffles. *)
Definition axis_neighbors (a : Agent.t) : list (Z * Z) :=
  [((Agent.x a + 1)%Z, Agent.y a); ((Agent.x a - 1)%Z, Agent.y a);
   (Agent.x a, (Agent.y a + 1)%Z); (Agent.x a, (Agent.y a - 1)%Z)].

(* ===================================================================== *)
(** ** Vocabulary of the further properties *)
(* ===================================================================== *)

(** The state in which [Agent(x, y)] leaves the attributes that it does not
    draw. *)
Definition fresh_agent (a : Agent.t) : Prop :=
  Agent.energy a = 20.0 /\ Agent.age a = 0%Z /\ Agent.generation a = 1%Z
  /\ Agent.is_alive a = true /\ Agent.is_predator a = false
  /\ Agent.offspring_count a = 0%Z.

(** An agent whose genes lie within [GENE_BOUNDS]. *)
Definition sound_genes (a : Agent.t) : Prop :=
  genes_within_bounds (Agent.genes a).

(** Only the energy and the liveness of the object may differ, and a dead
    object stays dead. *)
Definition quiet (a a' : Agent.t) : Prop :=
  a' = Agent.set_is_alive (Agent.is_alive a')
         (Agent.set_energy (Agent.energy a') a)
  /\ (Agent.is_alive a = false -> Agent.is_alive a' = false).

(** Every object of [h] is still in [h'], where it differs at most by its
    energy and its liveness. *)
Definition heap_quiet (h h' : list Agent.t) : Prop :=
  length h' = length h
  /\ forall k a, h !! k = Some a -> exists a', h' !! k = Some a' /\ quiet a a'.

(** The same for every object but [r]; [h'] may hold further objects. *)
Definition heap_frame (r : nat) (h h' : list Agent.t) : Prop :=
  (length h <= length h')%nat
  /\ forall k a, k <> r -> h !! k = Some a ->
                 exists a', h' !! k = Some a' /\ quiet a a'.

(** What an object keeps for ever: its identity, its genes and its
    generation; a predator stays a predator and a dead object stays dead;
    age and offspring count never decrease. *)
Definition persists (a a' : Agent.t) : Prop :=
  Agent.id a' = Agent.id a
  /\ Agent.genes a' = Agent.genes a
  /\ Agent.generation a' = Agent.generation a
  /\ (Agent.is_predator a = true -> Agent.is_predator a' = true)
  /\ (Agent.is_alive a = false -> Agent.is_alive a' = false)
  /\ (Agent.age a <= Agent.age a')%Z
  /\ (Agent.offspring_count a <= Agent.offspring_count a')%Z.

(** What the turn of an agent does to the agent itself. *)
Definition acted (a a' : Agent.t) : Prop :=
  persists a a'
  /\ Agent.age a' = (Agent.age a + 1)%Z
  /\ (Z.abs (Agent.x a' - Agent.x a) <= 1)%Z
  /\ (Z.abs (Agent.y a' - Agent.y a) <= 1)%Z
  /\ (Agent.offspring_count a' <= Agent.offspring_count a + 1)%Z.

(** The state of a child at its birth from [parent]. *)
Definition born_of (parent child : Agent.t) : Prop :=
  (exists g, Agent.genes child = fst (Agent.mutate_genes parent g))
  /\ Agent.generation child = (Agent.generation parent + 1)%Z
  /\ In (Agent.x child, Agent.y child) (axis_neighbors parent)
  /\ in_grid (Agent.x child) (Agent.y child)
  /\ Agent.age child = 0%Z
  /\ Agent.is_predator child = false
  /\ Agent.offspring_count child = 0%Z.

(** The cell (i, j) lies in the sensing window of the agent. *)
Definition in_window (self : Agent.t) (i j : Z) : Prop :=
  (Z.abs (i - Agent.x self) <= sense_range (Agent.genes self))%Z
  /\ (Z.abs (j - Agent.y self) <= sense_range (Agent.genes self))%Z.

(** The cell (i, j) comes before (i', j') in the order of the scan. *)
Definition scanned_before (i j i' j' : Z) : Prop :=
  (i < i')%Z \/ (i = i' /\ (j < j')%Z).

(** The energy held by all the agents of a heap. *)
Definition total_energy (h : list Agent.t) : Q :=
  fold_right (fun a acc => Agent.energy a + acc) 0 h.

(** The reference [k] denotes an agent whose adhesion reaches the
    threshold of [handle_colony]. *)
Definition sticky (h : list Agent.t) (k : nat) : Prop :=
  exists a, h !! k = Some a /\ 0.5 <= adhesion (Agent.genes a).

Definition stickyb (h : list Agent.t) (k : nat) : bool :=
  match h !! k with
  | Some a => Qle_bool 0.5 (adhesion (Agent.genes a))
  | None => false
  end.

(** The sum of [f 0], ..., [f (n - 1)]. *)
Fixpoint sum_upto (n : nat) (f : Z -> Q) : Q :=
  match n with
  | O => 0
  | S k => sum_upto k f + f (Z.of_nat k)
  end.

(** The nutrients of the whole grid. *)
Definition field_total (a : Field) : Q :=
  sum_upto (Z.to_nat GRID_WIDTH)
           (fun x => sum_upto (Z.to_nat GRID_HEIGHT) (fun y => a x y)).

(** The cells that the regeneration step of [update_nutrients] selects,
    and their number. *)
Definition spawns (words : Z -> Z -> Z) (x y : Z) : bool :=
  Qltb (unit_float (words x y)) NUTRIENT_SPAWN_RATE.

Definition spawn_count (words : Z -> Z -> Z) : Q :=
  field_total (fun x y => if spawns words x y then 1 else 0).

(** The array after the regeneration step. *)
Definition regenerated (words : Z -> Z -> Z) (a : Field) : Field :=
  fun x y => if spawns words x y then a x y + 2.0 else a x y.

(** The array after the diffusion step, on the torus. *)
Definition diffused (a : Field) : Field :=
  fun x y =>
    a x y * (1 - 4 * DIFFUSION_FACTOR)
    + (a ((x - 1) mod GRID_WIDTH)%Z y + a ((x + 1) mod GRID_WIDTH)%Z y
       + a x ((y - 1) mod GRID_HEIGHT)%Z + a x ((y + 1) mod GRID_HEIGHT)%Z)
      * DIFFUSION_FACTOR.

(** The cell on which an agent stands. *)
Definition position (a : Agent.t) : Z * Z := (Agent.x a, Agent.y a).

(** The target cells of the spawn events of a list of events, in order. *)
Definition spawn_targets (ev : list Environment.event) : list (Z * Z) :=
  omap (fun e => match e with
                 | Environment.Spawn _ _ nx ny => Some (nx, ny)
                 | Environment.Eat _ _ => None
                 end) ev.

(** Every live object is the one that [occupied] holds for its cell. *)
Definition registered (s : Environment.loop) : Prop :=
  forall r a, Environment.heap s !! r = Some a ->
              Agent.is_alive a = true ->
              Environment.occupied s !! position a = Some r.

(** No two live agents of the list stand on the same cell. *)
Definition apart (h : list Agent.t) : Prop :=
  NoDup (position <$> filter (fun a => Agent.is_alive a = true) h).

(** A predator has had the offspring and has the size that
    [check_evolution] asks for. *)
Definition proven_breeder (a : Agent.t) : Prop :=
  Agent.is_predator a = true ->
  (PREDATOR_THRESHOLD_OFFSPRING <= Agent.offspring_count a)%Z
  /\ PREDATOR_THRESHOLD_SIZE < size (Agent.genes a).

(** The four traits that [update_color] compares, each with its colour. *)
Definition color_traits (self : Agent.t) : list (Q * (Z * Z * Z)) :=
  [(repro_threshold (Agent.genes self) / 60.0, (255, 50, 50)%Z);
   (inject_Z (sense_range (Agent.genes self)) / 5, (50, 255, 50)%Z);
   (1.0 - metabolism (Agent.genes self) / 2.0, (50, 50, 255)%Z);
   (photosynthesis_efficiency (Agent.genes self), (255, 255, 0)%Z)].

(** The channel [c'] is the channel [c] darkened by at most 40 percent
    and truncated to an integer. *)
Definition darkened (c c' : Z) : Prop :=
  (0 <= c' <= c)%Z /\ inject_Z c * 0.6 - 1 < inject_Z c'.

Definition shade_of (base color : Z * Z * Z) : Prop :=
  darkened (fst (fst base)) (fst (fst color))
  /\ darkened (snd (fst base)) (snd (fst color))
  /\ darkened (snd base) (snd color).

(** The first entry of the list is one of largest key. *)
Definition head_max (l : list (Q * (Z * Z * Z))) : Prop :=
  match l with
  | [] => True
  | h :: _ => forall x, In x l -> fst x <= fst h
  end.

(* ===================================================================== *)
(** ** Comparisons and clamping *)
(* ===================================================================== *)

Lemma Qltb_lt (x y : Q) : Qltb x y = true <-> x < y.
Proof.
  unfold Qltb. rewrite negb_true_iff, <- not_true_iff_false, Qle_bool_iff.
  split; intros H; [apply Qnot_le_lt | apply Qlt_not_le]; exact H.
Qed.

Lemma Qltb_ge (x y : Q) : Qltb x y = false <-> y <= x.
Proof.
  unfold Qltb. rewrite negb_false_iff, Qle_bool_iff. reflexivity.
Qed.

Ltac case_Qltb x y :=
  let H := fresh "Hcmp" in
  destruct (Qltb x y) eqn:H;
  [apply Qltb_lt in H | apply Qltb_ge in H].

Lemma py_max_lower (a b : Q) : a <= py_max a b.
Proof. unfold py_max. case_Qltb a b; lra. Qed.

Lemma py_max_upper (a b c : Q) : a <= c -> b <= c -> py_max a b <= c.
Proof. unfold py_max. case_Qltb a b; lra. Qed.

Lemma py_min_upper (a b : Q) : py_min a b <= a.
Proof. unfold py_min. case_Qltb b a; lra. Qed.

Lemma py_min_upper_r (a b : Q) : py_min a b <= b.
Proof. unfold py_min. case_Qltb b a; lra. Qed.

Lemma py_min_lower (a b c : Q) : c <= a -> c <= b -> c <= py_min a b.
Proof. unfold py_min. case_Qltb b a; lra. Qed.

Lemma clamp_within (bounds : Q * Q) (v : Q) :
  fst bounds <= snd bounds ->
  within bounds (py_max (fst bounds) (py_min (snd bounds) v)).
Proof.
  intros Hb. split.
  - apply py_max_lower.
  - apply py_max_upper; [exact Hb | apply py_min_upper].
Qed.

Lemma clip_within (v lo hi : Q) :
  lo <= hi -> lo <= Environment.clip v lo hi /\ Environment.clip v lo hi <= hi.
Proof.
  intros Hb. unfold Environment.clip. split.
  - apply py_min_lower; [unfold py_max; case_Qltb v lo; lra | exact Hb].
  - apply py_min_upper_r.
Qed.

Lemma unit_float_range (w : Z) : 0 <= unit_float w /\ unit_float w < 1.
Proof.
  unfold unit_float, Qle, Qlt. simpl.
  pose proof (Z.mod_pos_bound w (2 ^ 53) eq_refl) as Hb.
  split; lia.
Qed.

(* ===================================================================== *)
(** ** Mutation *)
(* ===================================================================== *)

Lemma mutate_real_rng bounds val g :
  snd (Agent.mutate_real bounds val g) = after_gene g.
Proof.
  unfold Agent.mutate_real, after_gene, selected.
  destruct (random g) as [u g1]. simpl.
  destruct (Qltb u MUTATION_RATE); [| reflexivity].
  destruct (uniform (- MUTATION_STRENGTH) MUTATION_STRENGTH g1) as [s g2].
  destruct bounds. reflexivity.
Qed.

Lemma mutate_int_rng bounds val g :
  snd (Agent.mutate_int bounds val g) = after_gene g.
Proof.
  unfold Agent.mutate_int, after_gene, selected.
  destruct (random g) as [u g1]. simpl.
  destruct (Qltb u MUTATION_RATE); [| reflexivity].
  destruct (uniform (- MUTATION_STRENGTH) MUTATION_STRENGTH g1) as [s g2].
  destruct bounds. reflexivity.
Qed.

Lemma mutate_real_value bounds val g :
  fst (Agent.mutate_real bounds val g) =
  if selected g
  then py_max (fst bounds) (py_min (snd bounds) (val + val * strength_draw g))
  else val.
Proof.
  unfold Agent.mutate_real, selected, strength_draw.
  destruct (random g) as [u g1]. simpl.
  destruct (Qltb u MUTATION_RATE); [| reflexivity].
  destruct (uniform (- MUTATION_STRENGTH) MUTATION_STRENGTH g1) as [s g2].
  destruct bounds. reflexivity.
Qed.

Lemma mutate_int_value bounds val g :
  fst (Agent.mutate_int bounds val g) =
  if selected g
  then Z.max (fst bounds)
         (Z.min (snd bounds)
            (py_round (inject_Z val + inject_Z val * strength_draw g)))
  else val.
Proof.
  unfold Agent.mutate_int, selected, strength_draw.
  destruct (random g) as [u g1]. simpl.
  destruct (Qltb u MUTATION_RATE); [| reflexivity].
  destruct (uniform (- MUTATION_STRENGTH) MUTATION_STRENGTH g1) as [s g2].
  destruct bounds. reflexivity.
Qed.

Lemma mutate_real_within bounds val g :
  fst bounds <= snd bounds -> within bounds val ->
  within bounds (fst (Agent.mutate_real bounds val g)).
Proof.
  intros Hb Hv. rewrite mutate_real_value.
  destruct (selected g); [apply clamp_within; exact Hb | exact Hv].
Qed.

Lemma mutate_int_within bounds val g :
  (fst bounds <= snd bounds)%Z -> within_int bounds val ->
  within_int bounds (fst (Agent.mutate_int bounds val g)).
Proof.
  intros Hb Hv. rewrite mutate_int_value.
  destruct (selected g); [| exact Hv].
  unfold within_int. lia.
Qed.

(** [round] returns a nearest integer. *)
Lemma py_round_nearest (x : Q) :
  - (1 # 2) <= inject_Z (py_round x) - x /\ inject_Z (py_round x) - x <= 1 # 2.
Proof.
  pose proof (Qfloor_le x) as Hlo. pose proof (Qlt_floor x) as Hhi.
  unfold py_round.
  assert (Hinj : inject_Z (Qfloor x + 1) == inject_Z (Qfloor x) + 1).
  { rewrite inject_Z_plus. reflexivity. }
  rewrite Hinj in Hhi.
  case_Qltb (x - inject_Z (Qfloor x)) 0.5.
  - split; lra.
  - case_Qltb 0.5 (x - inject_Z (Qfloor x)).
    + rewrite Hinj. split; lra.
    + destruct (Z.even (Qfloor x)); [| rewrite Hinj]; split; lra.
Qed.

(** The six components of [mutate_genes] and the generators of its
    iterations. *)
Lemma mutate_genes_unfold self g :
  fst (Agent.mutate_genes self g) =
  let old := Agent.genes self in
  mkGenes
    (fst (Agent.mutate_real (metabolism GENE_BOUNDS) (metabolism old) (gene_rng 0 g)))
    (fst (Agent.mutate_real (repro_threshold GENE_BOUNDS) (repro_threshold old) (gene_rng 1 g)))
    (fst (Agent.mutate_int (sense_range GENE_BOUNDS) (sense_range old) (gene_rng 2 g)))
    (fst (Agent.mutate_real (size GENE_BOUNDS) (size old) (gene_rng 3 g)))
    (fst (Agent.mutate_real (photosynthesis_efficiency GENE_BOUNDS)
            (photosynthesis_efficiency old) (gene_rng 4 g)))
    (fst (Agent.mutate_real (adhesion GENE_BOUNDS) (adhesion old) (gene_rng 5 g))).
Proof.
  unfold Agent.mutate_genes, gene_rng. simpl Nat.iter.
  repeat match goal with
  | |- context [let (_, _) := Agent.mutate_real ?b ?v ?r in _] =>
      let E := fresh "E" in
      pose proof (mutate_real_rng b v r) as E;
      destruct (Agent.mutate_real b v r); simpl in E; subst
  | |- context [let (_, _) := Agent.mutate_int ?b ?v ?r in _] =>
      let E := fresh "E" in
      pose proof (mutate_int_rng b v r) as E;
      destruct (Agent.mutate_int b v r); simpl in E; subst
  end.
  reflexivity.
Qed.

(** C4.  For every genome within [GENE_BOUNDS], the genome returned by
    [mutate_genes] is within the same bounds; ['sense_range'] stays an
    integer, obtained when it mutates by rounding to a nearest integer and
    then clamping; and a gene whose iteration draws
    [random() >= MUTATION_RATE] is copied unchanged. *)
Theorem mutate_genes_respects_bounds (self : Agent.t) (g : RNG) :
  genes_within_bounds (Agent.genes self) ->
  let old := Agent.genes self in
  let new := fst (Agent.mutate_genes self g) in
  genes_within_bounds new
  /\ (selected (gene_rng 2 g) = true ->
      sense_range new =
      Z.max 1 (Z.min 5 (py_round (inject_Z (sense_range old)
                                  + inject_Z (sense_range old)
                                    * strength_draw (gene_rng 2 g)))))
  /\ (selected (gene_rng 0 g) = false -> metabolism new = metabolism old)
  /\ (selected (gene_rng 1 g) = false -> repro_threshold new = repro_threshold old)
  /\ (selected (gene_rng 2 g) = false -> sense_range new = sense_range old)
  /\ (selected (gene_rng 3 g) = false -> size new = size old)
  /\ (selected (gene_rng 4 g) = false ->
      photosynthesis_efficiency new = photosynthesis_efficiency old)
  /\ (selected (gene_rng 5 g) = false -> adhesion new = adhesion old).
Proof.
  intros (H0 & H1 & H2 & H3 & H4 & H5) old new.
  subst new. rewrite mutate_genes_unfold. fold old. cbv zeta.
  split.
  - unfold genes_within_bounds. cbn [metabolism repro_threshold sense_range size
      photosynthesis_efficiency adhesion].
    repeat split;
      first [ apply mutate_real_within; [simpl; lra | assumption]
            | apply mutate_int_within; [simpl; lia | assumption] ].
  - cbn [metabolism repro_threshold sense_range size
         photosynthesis_efficiency adhesion].
    rewrite mutate_int_value, !mutate_real_value.
    repeat split; intros ->; reflexivity.
Qed.

Lemma mutate_genes_respects_bounds_witness :
  genes_within_bounds (fst (Agent.mutate_genes sticky_rich eager_rng)).
Proof.
  refine (proj1 (mutate_genes_respects_bounds sticky_rich eager_rng _)).
  unfold genes_within_bounds, within, within_int, Qle. simpl.
  repeat split; lia.
Defined.

(* ===================================================================== *)
(** ** Colony interaction *)
(* ===================================================================== *)

(** C9.  Two agents on adjacent cells with adhesion 0.6 and 0.9 and
    energies 30.0 and 10.0: one colony interaction, started by either of
    them, moves exactly [COLONY_SHARING_RATE * 0.5 * |30.0 - 10.0|] from
    the richer to the poorer one, and keeps their total. *)
Theorem colony_sharing_scenario :
  let transfer := COLONY_SHARING_RATE * 0.5 * py_abs (30.0 - 10.0) in
  (exists s a b,
      Environment.colony_phase 0
        (colony_start [sticky_rich; sticky_poor]) = Some (true, s)
      /\ Environment.heap s = [a; b]
      /\ Agent.energy a == 30.0 - transfer
      /\ Agent.energy b == 10.0 + transfer
      /\ Agent.energy a + Agent.energy b == 30.0 + 10.0)
  /\ (exists s a b,
      Environment.colony_phase 1
        (colony_start [sticky_rich; sticky_poor]) = Some (true, s)
      /\ Environment.heap s = [a; b]
      /\ Agent.energy a == 30.0 - transfer
      /\ Agent.energy b == 10.0 + transfer
      /\ Agent.energy a + Agent.energy b == 30.0 + 10.0).
Proof.
  split.
  - eexists _, _, _. split; [vm_compute; reflexivity |].
    split; [reflexivity |]. vm_compute. repeat split; reflexivity.
  - eexists _, _, _. split; [vm_compute; reflexivity |].
    split; [reflexivity |]. vm_compute. repeat split; reflexivity.
Qed.

Lemma sense_and_move_attached (self : Agent.t) (grid : Field) (w h : Z)
    (night : bool) (g : RNG) :
  snd (fst (Agent.sense_and_move self grid w h night true g))
  = (Agent.x self, Agent.y self).
Proof.
  unfold Agent.sense_and_move, Agent.forage.
  destruct (random g) as [u g1].
  destruct (Agent.is_predator self), night; cbn [negb andb];
    try destruct (Qltb NIGHT_MOVE_CHANCE u); reflexivity.
Qed.

(** C10.  Two sticky agents whose energies differ by at most 1.0: the
    colony interaction leaves the heap, hence both energies, exactly as it
    was, and still reports the caller as attached, in which case
    [sense_and_move] returns the caller's own cell. *)
Theorem colony_dead_band (h : list Agent.t) (self other : nat)
    (s o : Agent.t) :
  h !! self = Some s -> h !! other = Some o ->
  0.5 <= adhesion (Agent.genes s) -> 0.5 <= adhesion (Agent.genes o) ->
  py_abs (Agent.energy s - Agent.energy o) <= 1.0 ->
  Agent.handle_colony self [other] h = Some (true, h)
  /\ (forall grid night g,
        snd (fst (Agent.sense_and_move s grid GRID_WIDTH GRID_HEIGHT night
                                       true g))
        = (Agent.x s, Agent.y s)).
Proof.
  intros Hs Ho Has Hao Hdiff. split.
  - unfold Agent.handle_colony. rewrite Hs. simpl.
    apply Qltb_ge in Has. rewrite Has.
    rewrite Hs, Ho. simpl.
    apply Qle_bool_iff in Hao. rewrite Hao.
    apply Qltb_ge in Hdiff. rewrite Hdiff. reflexivity.
  - intros. apply sense_and_move_attached.
Qed.

Lemma colony_dead_band_witness :
  Agent.handle_colony 0 [1%nat]
    [sticky_rich; Agent.set_energy 29.5 sticky_poor]
  = Some (true, [sticky_rich; Agent.set_energy 29.5 sticky_poor]).
Proof.
  refine (proj1 (colony_dead_band
                   [sticky_rich; Agent.set_energy 29.5 sticky_poor] 0 1
                   sticky_rich (Agent.set_energy 29.5 sticky_poor)
                   eq_refl eq_refl _ _ _));
    vm_compute; discriminate.
Defined.

(* ===================================================================== *)
(** ** The nutrient field *)
(* ===================================================================== *)

Lemma no_spawn_at_zero_rate (w : Z) : Qltb (unit_float w) 0 = false.
Proof. apply Qltb_ge. apply unit_float_range. Qed.

(** C8, as amended.  In the single-peak scenario the decay applies to every
    cell: each of the four wrapped neighbours of (5,5) gains
    10.0 * 0.1 * 0.995, and the centre holds 10.0 * (1 - 0.4) * 0.995. *)
Theorem single_peak_diffusion (words : Z -> Z -> Z) :
  peak_gain words 4 5 == 10.0 * 0.1 * 0.995
  /\ peak_gain words 6 5 == 10.0 * 0.1 * 0.995
  /\ peak_gain words 5 4 == 10.0 * 0.1 * 0.995
  /\ peak_gain words 5 6 == 10.0 * 0.1 * 0.995
  /\ peak_after words 5%Z 5%Z == 10.0 * (1 - 0.4) * 0.995.
Proof.
  unfold peak_gain, peak_after, Environment.update_field,
    Environment.pad_wrap.
  cbv beta zeta. rewrite !no_spawn_at_zero_rate.
  vm_compute. repeat split; reflexivity.
Qed.

(** C8 as the specification words it fails: a neighbour gains 0.995, not
    10.0 * 0.1. *)
Lemma single_peak_as_specified_fails :
  ~ single_peak_as_specified (fun _ _ => 0%Z).
Proof.
  unfold single_peak_as_specified. intros (H & _).
  vm_compute in H. discriminate H.
Qed.

Lemma update_nutrients_within (words : Z -> Z -> Z) (self : Environment.t) :
  field_within 0 MAX_NUTRIENT
    (Environment.nutrients (Environment.update_nutrients words self)).
Proof.
  intros x y _. unfold Environment.update_nutrients, Environment.update_field.
  cbn [Environment.nutrients].
  apply clip_within. unfold MAX_NUTRIENT. lra.
Qed.

(* ===================================================================== *)
(** ** The tick on concrete populations *)
(* ===================================================================== *)

(** [observe f E H]: from [E : t = u], the equation [H : v = f u], where
    [v] is the value of [f t]. *)
Ltac observe f E H :=
  pose proof (f_equal f E) as H; cbv beta in H;
  match type of H with
  | ?l = _ =>
      let v := eval vm_compute in l in
      let Hl := fresh in
      assert (Hl : l = v) by (vm_compute; reflexivity);
      rewrite Hl in H; clear Hl
  end.

Lemma nursery_in_grid : Forall agent_in_grid (Environment.agents nursery).
Proof.
  repeat constructor; unfold GRID_WIDTH, GRID_HEIGHT; simpl; lia.
Defined.

(** C1.  The newborn of the grazer is eaten by the hunter in the tick of
    its birth, and is nevertheless a member, marked dead, of the population
    that the tick produces: only the agents of the old population are
    filtered by [is_alive]. *)
Theorem eaten_newborn_stays_in_population :
  exists self' g' parent predator child,
    Environment.update_agents nursery steady_rng
    = Some (self', [Environment.Spawn 7 5 7 6; Environment.Eat 6 6], g')
    /\ Environment.agents self' = [parent; predator; child]
    /\ Agent.generation child = 2%Z
    /\ (Agent.x child, Agent.y child) = (7, 6)%Z
    /\ (Agent.x predator, Agent.y predator) = (7, 6)%Z
    /\ Agent.is_predator predator = true
    /\ Agent.is_alive child = false.
Proof.
  destruct (Environment.update_agents nursery steady_rng)
    as [[[self' ev] g'] |] eqn:E; [| vm_compute in E; discriminate E].
  observe (fun r : option (Environment.t * list Environment.event * RNG) =>
             match r with
             | Some (e, ev, _) => Some (Environment.agents e, ev)
             | None => None
             end) E Hobs.
  injection Hobs as Hpop Hev. subst ev.
  eexists self', g', _, _, _. split; [reflexivity |].
  split; [symmetry; exact Hpop |].
  repeat split; reflexivity.
Qed.

(** C6.  The grazer is marked dead in the turn of the hunter, and then has
    its own turn in the same tick: its metabolism is deducted, it eats 2.0
    from the cell, it ages, and it splits off a live child. *)
Theorem eaten_grazer_still_acts :
  exists s1 s2 killer victim1 victim2 child,
    Environment.agent_turn true Environment.init_sunlight 0
      (Environment.loop_start ambush steady_rng) = Some s1
    /\ Environment.heap s1 !! 1%nat = Some victim1
    /\ Agent.is_alive victim1 = false
    /\ Environment.events s1 = [Environment.Eat 5 5]
    /\ Environment.agent_turn true Environment.init_sunlight 1 s1 = Some s2
    /\ Environment.run_loop ambush steady_rng = Some s2
    /\ Environment.heap s2 = [killer; victim2; child]
    /\ Environment.grid s1 6%Z 5%Z == 10.0
    /\ Environment.grid s2 6%Z 5%Z == 8.0
    /\ Agent.age victim2 = (Agent.age victim1 + 1)%Z
    /\ Agent.energy victim2
       == (Agent.energy victim1 - 0.1 * NIGHT_METABOLISM_FACTOR + 2.0) / 2
    /\ Agent.offspring_count victim2 = 1%Z
    /\ Agent.is_alive child = true
    /\ Environment.events s2
       = [Environment.Eat 5 5; Environment.Spawn 6 5 6 6].
Proof.
  eexists _, _, _, _, _, _.
  split; [vm_compute; reflexivity |].
  split; [reflexivity |].
  split; [reflexivity |].
  split; [reflexivity |].
  split; [vm_compute; reflexivity |].
  split; [vm_compute; reflexivity |].
  split; [reflexivity |].
  vm_compute. repeat split; reflexivity.
Qed.

Lemma constant_field_within (v : Q) :
  0 <= v -> v <= MAX_NUTRIENT -> field_within 0 MAX_NUTRIENT (fun _ _ => v).
Proof. intros Hlo Hhi x y _. split; assumption. Qed.

(** C3 as it is worded fails: an agent that starves on a full cell leaves
    13.0 there at the end of [update_agents]. *)
Lemma nutrient_bounds_as_specified_fails :
  ~ nutrient_bounds_as_specified famine steady_rng (fun _ _ => 0%Z).
Proof.
  intros H.
  destruct H as [_ H].
  { apply (constant_field_within 10.0); vm_compute; discriminate. }
  destruct (Environment.update_agents famine steady_rng)
    as [[[self' ev] g'] |] eqn:E; [| vm_compute in E; discriminate E].
  specialize (H self' ev g' eq_refl 5%Z 5%Z).
  destruct H as [_ H]; [vm_compute; repeat split; congruence |].
  observe (fun r : option (Environment.t * list Environment.event * RNG) =>
             match r with
             | Some (e, _, _) => Some (Environment.nutrients e 5%Z 5%Z)
             | None => None
             end) E Hobs.
  injection Hobs as Hobs. rewrite <- Hobs in H.
  vm_compute in H. apply H. reflexivity.
Qed.


(* ===================================================================== *)
(** ** Array accesses and the scan of the patch *)
(* ===================================================================== *)

Lemma norm_index_in (n i : Z) :
  (0 <= i < n)%Z -> norm_index n i = Some i.
Proof.
  intros H. unfold norm_index.
  destruct (0 <=? i)%Z eqn:E1; [| lia].
  destruct (i <? n)%Z eqn:E2; [reflexivity | lia].
Qed.

Lemma field_get_in (a : Field) (x y : Z) :
  in_grid x y -> field_get a x y = Some (a x y).
Proof.
  intros [Hx Hy]. unfold field_get.
  rewrite (norm_index_in _ _ Hx), (norm_index_in _ _ Hy). reflexivity.
Qed.

Lemma field_set_in (a : Field) (x y : Z) (v : Q) :
  in_grid x y -> field_set a x y v = Some (field_write a x y v).
Proof.
  intros [Hx Hy]. unfold field_set.
  rewrite (norm_index_in _ _ Hx), (norm_index_in _ _ Hy). reflexivity.
Qed.

Lemma slice_bound_le (n i : Z) : (0 <= n)%Z -> (slice_bound n i <= n)%Z.
Proof. intros Hn. unfold slice_bound. destruct (i <? 0)%Z eqn:E; lia. Qed.

Lemma length_slice (n start stop : Z) :
  length (slice n start stop)
  = Z.to_nat (slice_bound n stop - slice_bound n start).
Proof. unfold slice. rewrite length_map, length_seq. reflexivity. Qed.

(** A local index of a non-empty slice that starts at a non-negative bound
    is a valid global index. *)
Lemma slice_local_in_range (n start stop : Z) (k : nat) :
  (0 <= n)%Z -> (0 <= start)%Z ->
  (k < length (slice n start stop))%nat ->
  (0 <= start + Z.of_nat k < n)%Z.
Proof.
  intros Hn Hs Hk. rewrite length_slice in Hk.
  pose proof (slice_bound_le n stop Hn) as Hb.
  unfold slice_bound in Hk at 2.
  destruct (start <? 0)%Z eqn:E; lia.
Qed.

Lemma argmax_from_lt (l : list Q) (best_i : nat) (best_v : Q) (i : nat) :
  (best_i < i)%nat -> (argmax_from best_i best_v i l < i + length l)%nat.
Proof.
  revert best_i best_v i.
  induction l as [| v rest IH]; intros best_i best_v i Hlt; simpl.
  - lia.
  - destruct (Qltb best_v v).
    + specialize (IH i v (S i)). lia.
    + specialize (IH best_i best_v (S i)). lia.
Qed.

Lemma argmax_lt (l : list Q) :
  (0 < length l)%nat -> (argmax l < length l)%nat.
Proof.
  destruct l as [| v rest]; simpl; [lia |].
  intros _. pose proof (argmax_from_lt rest 0 v 1). lia.
Qed.

Lemma length_concat_rows {A B C : Type} (f : A -> B -> C) (rows : list A)
    (cols : list B) :
  length (concat (map (fun i => map (f i) cols) rows))
  = (length rows * length cols)%nat.
Proof.
  induction rows as [| i rows IH]; simpl; [reflexivity |].
  rewrite length_app, length_map, IH. reflexivity.
Qed.

(** The cell found by the scan lies on the grid. *)
Lemma scan_in_grid (self : Agent.t) (grid : Field) (grid_w grid_h : Z) :
  agent_in_grid self ->
  in_grid (fst (fst (Agent.scan self grid grid_w grid_h)))
          (snd (fst (Agent.scan self grid grid_w grid_h))).
Proof.
  intros Hself. unfold Agent.scan.
  set (r := sense_range (Agent.genes self)).
  set (x_min := Z.max 0 (Agent.x self - r)).
  set (x_max := Z.min grid_w (Agent.x self + r + 1)).
  set (y_min := Z.max 0 (Agent.y self - r)).
  set (y_max := Z.min grid_h (Agent.y self + r + 1)).
  unfold sub_array. rewrite length_concat_rows.
  set (nrows := length (slice GRID_WIDTH x_min x_max)).
  set (ncols := length (slice GRID_HEIGHT y_min y_max)).
  match goal with
  | |- context [argmax ?l] => set (flat := l)
  end.
  assert (Hflat : length flat = (nrows * ncols)%nat)
    by apply length_concat_rows.
  destruct (0 <? Z.of_nat (nrows * ncols))%Z eqn:Hsize;
    [| exact Hself].
  apply Z.ltb_lt in Hsize.
  assert (Hidx : (argmax flat < nrows * ncols)%nat).
  { rewrite <- Hflat. apply argmax_lt. lia. }
  assert (Hcols : (ncols <> 0)%nat) by lia.
  assert (Hlx : (argmax flat / ncols < nrows)%nat).
  { apply Nat.Div0.div_lt_upper_bound. lia. }
  assert (Hly : (argmax flat mod ncols < ncols)%nat).
  { apply Nat.mod_upper_bound. exact Hcols. }
  simpl. split.
  - apply slice_local_in_range with (stop := x_max);
      [unfold GRID_WIDTH; lia | subst x_min; lia | exact Hlx].
  - apply slice_local_in_range with (stop := y_max);
      [unfold GRID_HEIGHT; lia | subst y_min; lia | exact Hly].
Qed.

Lemma step_towards_in_range (n x b : Z) :
  (0 <= x < n)%Z -> (0 <= b < n)%Z -> (0 <= x + sign (b - x) < n)%Z.
Proof. unfold sign. lia. Qed.

(** [forage] only changes the energy of [self], and its target lies on the
    grid. *)
Lemma forage_spec (self : Agent.t) (cost : Q) (grid : Field)
    (attached : bool) (g : RNG) :
  agent_in_grid self ->
  let res := Agent.forage self cost grid GRID_WIDTH GRID_HEIGHT attached g in
  in_grid (fst (snd (fst res))) (snd (snd (fst res)))
  /\ exists e, fst (fst res) = Agent.set_energy e self.
Proof.
  intros Hself. unfold Agent.forage.
  set (self1 := Agent.sub_energy cost self).
  assert (H1 : agent_in_grid self1) by exact Hself.
  destruct attached; cbv zeta.
  { split; [exact Hself | eexists; reflexivity]. }
  pose proof (scan_in_grid self1 grid GRID_WIDTH GRID_HEIGHT H1) as Hscan.
  destruct (Agent.scan self1 grid GRID_WIDTH GRID_HEIGHT)
    as [[best_x best_y] found_better].
  simpl in Hscan. destruct Hscan as [Hbx Hby].
  destruct (found_better
            && (negb (best_x =? Agent.x self1)%Z
                || negb (best_y =? Agent.y self1)%Z)).
  { cbn [fst snd]. split; [| eexists; reflexivity].
    destruct Hself as [Hx Hy].
    split; apply step_towards_in_range; assumption. }
  destruct (random g) as [u g1].
  destruct (Qltb u 0.2); [| split; [exact Hself | eexists; reflexivity]].
  destruct (choice 0%Z [(-1)%Z; 0%Z; 1%Z] g1) as [dx g2].
  destruct (choice 0%Z [(-1)%Z; 0%Z; 1%Z] g2) as [dy g3].
  destruct ((0 <=? Agent.x self1 + dx)%Z && (Agent.x self1 + dx <? GRID_WIDTH)%Z
            && (0 <=? Agent.y self1 + dy)%Z
            && (Agent.y self1 + dy <? GRID_HEIGHT)%Z) eqn:Hb.
  - cbn [fst snd]. split; [| eexists; reflexivity].
    rewrite !andb_true_iff in Hb. destruct Hb as [[[? ?] ?] ?].
    unfold in_grid. lia.
  - split; [exact Hself | eexists; reflexivity].
Qed.

(** [sense_and_move] only changes the energy of [self], and the cell it
    returns lies on the grid whenever [self] stands on the grid. *)
Lemma sense_and_move_spec (self : Agent.t) (grid : Field)
    (night attached : bool) (g : RNG) :
  agent_in_grid self ->
  let res := Agent.sense_and_move self grid GRID_WIDTH GRID_HEIGHT night
                                  attached g in
  in_grid (fst (snd (fst res))) (snd (snd (fst res)))
  /\ exists e, fst (fst res) = Agent.set_energy e self.
Proof.
  intros Hself. unfold Agent.sense_and_move.
  destruct (random g) as [u g1].
  destruct (Agent.is_predator self).
  - destruct (negb night && negb PREDATOR_DAY_ACTIVITY).
    + split; [exact Hself | eexists; reflexivity].
    + apply forage_spec; exact Hself.
  - destruct night.
    + destruct (Qltb NIGHT_MOVE_CHANCE u).
      * split; [exact Hself | eexists; reflexivity].
      * apply forage_spec; exact Hself.
    + apply forage_spec; exact Hself.
Qed.

(* ===================================================================== *)
(** ** The phases of a turn keep the invariant of the loop *)
(* ===================================================================== *)

Lemma heap_lookup (s : Environment.loop) (r : nat) :
  (r < length (Environment.heap s))%nat ->
  exists a, Environment.heap s !! r = Some a.
Proof. intros H. apply lookup_lt_is_Some_2 in H. exact H. Qed.

Lemma agent_of_heap_in_grid (s : Environment.loop) (r : nat) (a : Agent.t) :
  loop_ok s -> Environment.heap s !! r = Some a -> agent_in_grid a.
Proof. intros Hok Ha. exact (Forall_lookup_1 _ _ _ _ (heap_in_grid s Hok) Ha). Qed.

(** Replacing an object of the heap by one that stands on the grid. *)
Lemma loop_ok_store (s : Environment.loop) (r : nat) (a : Agent.t)
    (grid : Field) (ev : list Environment.event) (g : RNG) :
  loop_ok s -> agent_in_grid a ->
  loop_ok (Environment.mkLoop (<[r := a]> (Environment.heap s)) grid
             (Environment.occupied s) (Environment.dead_agents s) ev g).
Proof.
  intros [Hh Ho Hd] Ha. split; cbn [Environment.heap Environment.occupied
                                     Environment.dead_agents].
  - apply Forall_insert; assumption.
  - intros c k Hc. rewrite length_insert. eapply Ho; exact Hc.
  - rewrite length_insert. exact Hd.
Qed.

Lemma photosynthesis_phase_ok (night : bool) (sun : Field) (r : nat)
    (s : Environment.loop) :
  loop_ok s -> (r < length (Environment.heap s))%nat ->
  exists s', Environment.photosynthesis_phase night sun r s = Some s'
    /\ loop_ok s'
    /\ length (Environment.heap s') = length (Environment.heap s)
    /\ Environment.grid s' = Environment.grid s
    /\ Environment.dead_agents s' = Environment.dead_agents s.
Proof.
  intros Hok Hr. destruct (heap_lookup s r Hr) as [a Ha].
  pose proof (agent_of_heap_in_grid s r a Hok Ha) as Hin.
  unfold Environment.photosynthesis_phase. rewrite Ha. cbn [mbind option_bind].
  assert (Hsun : exists v,
    (if negb night then field_get sun (Agent.x a) (Agent.y a) else Some 0.0)
    = Some v).
  { destruct night; cbn [negb]; [eexists; reflexivity |].
    rewrite field_get_in by exact Hin. eexists; reflexivity. }
  destruct Hsun as [v ->]. cbn [mbind option_bind].
  eexists. split; [reflexivity |].
  unfold Environment.set_heap.
  split; [apply loop_ok_store; [exact Hok | exact Hin] |].
  cbn [Environment.heap Environment.grid Environment.dead_agents].
  rewrite length_insert. repeat split; reflexivity.
Qed.

(** The colony interaction only changes energies. *)
Lemma colony_loop_ok (neighbors : list nat) (self : nat) (attached : bool)
    (h : list Agent.t) :
  Forall agent_in_grid h -> (self < length h)%nat ->
  Forall (fun r => (r < length h)%nat) neighbors ->
  exists b h', Agent.colony_loop self neighbors attached h = Some (b, h')
    /\ Forall agent_in_grid h' /\ length h' = length h.
Proof.
  revert attached h.
  induction neighbors as [| other rest IH]; intros attached h Hh Hself Hn.
  - simpl. eexists _, _. repeat split; [exact Hh].
  - apply Forall_cons in Hn. destruct Hn as [Hother Hrest].
    destruct (lookup_lt_is_Some_2 h self Hself) as [sa Hsa].
    destruct (lookup_lt_is_Some_2 h other Hother) as [oa Hoa].
    simpl. rewrite Hsa, Hoa. cbn [mbind option_bind].
    destruct (Qle_bool 0.5 (adhesion (Agent.genes oa))).
    + set (h' := if Qltb 1.0 (py_abs (Agent.energy sa - Agent.energy oa))
                 then _ else h).
      assert (Hh' : Forall agent_in_grid h' /\ length h' = length h).
      { subst h'. destruct (Qltb 1.0 _); [| split; [exact Hh | reflexivity]].
        split.
        - apply Forall_alter; [apply Forall_alter; [exact Hh |] |];
            intros a _ Ha; exact Ha.
        - rewrite !length_alter. reflexivity. }
      destruct Hh' as [Hg Hl].
      destruct (IH true h' Hg) as (b & h'' & E & Hg' & Hl').
      * rewrite Hl. exact Hself.
      * rewrite Hl. exact Hrest.
      * exists b, h''. rewrite E. repeat split; [exact Hg' | lia].
    + apply IH; assumption.
Qed.

Lemma gather_neighbors_valid (s : Environment.loop) (x y : Z) :
  loop_ok s ->
  Forall (fun r => (r < length (Environment.heap s))%nat)
         (Environment.gather_neighbors (Environment.occupied s) x y).
Proof.
  intros Hok. apply Forall_forall. intros r Hr.
  unfold Environment.gather_neighbors in Hr.
  apply list_elem_of_omap in Hr. destruct Hr as (d & _ & Hd).
  eapply (occupied_valid s Hok). exact Hd.
Qed.

Lemma colony_phase_ok (r : nat) (s : Environment.loop) :
  loop_ok s -> (r < length (Environment.heap s))%nat ->
  exists b s', Environment.colony_phase r s = Some (b, s')
    /\ loop_ok s'
    /\ length (Environment.heap s') = length (Environment.heap s)
    /\ Environment.grid s' = Environment.grid s
    /\ Environment.dead_agents s' = Environment.dead_agents s.
Proof.
  intros Hok Hr. destruct (heap_lookup s r Hr) as [a Ha].
  unfold Environment.colony_phase. rewrite Ha. cbn [mbind option_bind].
  destruct (Qle_bool 0.5 (adhesion (Agent.genes a)));
    [| eexists _, _; split; [reflexivity |]; split; [exact Hok |];
       repeat split].
  unfold Agent.handle_colony. rewrite Ha. cbn [mbind option_bind].
  assert (Hres : exists b h',
    (if Qltb (adhesion (Agent.genes a)) 0.5
     then Some (false, Environment.heap s)
     else Agent.colony_loop r
            (Environment.gather_neighbors (Environment.occupied s)
               (Agent.x a) (Agent.y a)) false (Environment.heap s))
    = Some (b, h')
    /\ Forall agent_in_grid h'
    /\ length h' = length (Environment.heap s)).
  { destruct (Qltb (adhesion (Agent.genes a)) 0.5).
    - eexists _, _. repeat split. exact (heap_in_grid s Hok).
    - apply colony_loop_ok;
        [exact (heap_in_grid s Hok) | exact Hr
        | apply gather_neighbors_valid; exact Hok]. }
  destruct Hres as (b & h' & -> & Hg & Hl). cbn [mbind option_bind fst snd].
  eexists _, _. split; [reflexivity |].
  unfold Environment.set_heap. destruct Hok as [Hh Ho Hd].
  split; [split |];
    cbn [Environment.heap Environment.occupied Environment.dead_agents
         Environment.grid].
  - exact Hg.
  - intros c k Hc. rewrite Hl. eapply Ho; exact Hc.
  - rewrite Hl. exact Hd.
  - repeat split. exact Hl.
Qed.

Lemma movement_phase_ok (night : bool) (r : nat) (attached : bool)
    (s : Environment.loop) :
  loop_ok s -> (r < length (Environment.heap s))%nat ->
  exists target s',
    Environment.movement_phase night r attached s = Some (target, s')
    /\ in_grid (fst target) (snd target)
    /\ loop_ok s'
    /\ length (Environment.heap s') = length (Environment.heap s)
    /\ Environment.grid s' = Environment.grid s
    /\ Environment.dead_agents s' = Environment.dead_agents s.
Proof.
  intros Hok Hr. destruct (heap_lookup s r Hr) as [a Ha].
  pose proof (agent_of_heap_in_grid s r a Hok Ha) as Hin.
  unfold Environment.movement_phase. rewrite Ha. cbn [mbind option_bind].
  pose proof (sense_and_move_spec a (Environment.grid s) night attached
                (Environment.rng s) Hin) as Hmove.
  destruct (Agent.sense_and_move a (Environment.grid s) GRID_WIDTH GRID_HEIGHT
              night attached (Environment.rng s)) as [[a' target] g'].
  cbn [fst snd] in Hmove. destruct Hmove as [Ht [e ->]].
  eexists _, _. split; [reflexivity |].
  split; [exact Ht |].
  split; [apply loop_ok_store; [exact Hok | exact Hin] |].
  cbn [Environment.heap Environment.grid Environment.dead_agents].
  rewrite length_insert. repeat split; reflexivity.
Qed.

(** Replacing the heap by one of the same length whose objects stand on
    the grid. *)
Lemma loop_ok_heap (s : Environment.loop) (h' : list Agent.t) (grid : Field)
    (ev : list Environment.event) (g : RNG) :
  loop_ok s -> Forall agent_in_grid h' ->
  length h' = length (Environment.heap s) ->
  loop_ok (Environment.mkLoop h' grid (Environment.occupied s)
             (Environment.dead_agents s) ev g).
Proof.
  intros [Hh Ho Hd] Hg Hl. split; cbn [Environment.heap Environment.occupied
                                        Environment.dead_agents].
  - exact Hg.
  - intros c k Hc. rewrite Hl. eapply Ho; exact Hc.
  - rewrite Hl. exact Hd.
Qed.

Lemma move_into_ok (r : nat) (target : Z * Z) (s : Environment.loop) :
  loop_ok s -> (r < length (Environment.heap s))%nat ->
  in_grid (fst target) (snd target) ->
  exists s', Environment.move_into r target s = Some s'
    /\ loop_ok s'
    /\ length (Environment.heap s') = length (Environment.heap s)
    /\ Environment.grid s' = Environment.grid s
    /\ Environment.dead_agents s' = Environment.dead_agents s.
Proof.
  intros Hok Hr Ht. destruct (heap_lookup s r Hr) as [a Ha].
  unfold Environment.move_into. rewrite Ha. cbn [mbind option_bind].
  eexists. split; [reflexivity |].
  cbn [Environment.heap Environment.grid Environment.dead_agents].
  rewrite length_insert. split; [| repeat split].
  destruct Hok as [Hh Ho Hd].
  split; cbn [Environment.heap Environment.occupied Environment.dead_agents];
    rewrite ?length_insert.
  - apply Forall_insert; [exact Hh | exact Ht].
  - intros c k Hc. apply lookup_insert_Some in Hc.
    destruct Hc as [[_ <-] | [_ Hc]]; [exact Hr |].
    destruct (bool_decide _) in Hc.
    + apply lookup_delete_Some in Hc. destruct Hc as [_ Hc].
      eapply Ho; exact Hc.
    + eapply Ho; exact Hc.
  - exact Hd.
Qed.

Lemma collision_phase_ok (r : nat) (target : Z * Z) (s : Environment.loop) :
  loop_ok s -> (r < length (Environment.heap s))%nat ->
  in_grid (fst target) (snd target) ->
  exists s', Environment.collision_phase r target s = Some s'
    /\ loop_ok s'
    /\ length (Environment.heap s') = length (Environment.heap s)
    /\ Environment.grid s' = Environment.grid s
    /\ Environment.dead_agents s' = Environment.dead_agents s.
Proof.
  intros Hok Hr Ht. unfold Environment.collision_phase.
  destruct (Environment.occupied s !! target) as [o |] eqn:Ho;
    [| apply move_into_ok; assumption].
  destruct (heap_lookup s r Hr) as [a Ha].
  pose proof (occupied_valid s Hok _ _ Ho) as Hov.
  destruct (heap_lookup s o Hov) as [b Hb].
  rewrite Ha, Hb. cbn [mbind option_bind].
  destruct (Environment.predation_fires a b);
    [| exists s; split; [reflexivity |]; split; [exact Hok |];
       repeat split].
  match goal with
  | |- context [Environment.move_into r target ?st] => set (s2 := st)
  end.
  assert (Hl2 : length (Environment.heap s2) = length (Environment.heap s)).
  { subst s2. cbn [Environment.heap].
    rewrite length_alter, length_insert. reflexivity. }
  assert (Hok2 : loop_ok s2).
  { subst s2. apply loop_ok_heap; [exact Hok | | exact Hl2].
    apply Forall_alter; [| intros x _ Hx; exact Hx].
    apply Forall_insert; [exact (heap_in_grid s Hok) |].
    exact (agent_of_heap_in_grid s r a Hok Ha). }
  destruct (move_into_ok r target s2 Hok2) as (s' & E & Hok' & Hl & Hg & Hd);
    [rewrite Hl2; exact Hr | exact Ht |].
  exists s'. split; [exact E |]. split; [exact Hok' |].
  split; [rewrite Hl; exact Hl2 |]. split; [exact Hg | exact Hd].
Qed.

Lemma field_write_within (lo hi : Q) (a : Field) (x y : Z) (v : Q) :
  field_within lo hi a -> lo <= v -> v <= hi ->
  field_within lo hi (field_write a x y v).
Proof.
  intros Ha Hlo Hhi i j Hij. unfold field_write.
  destruct ((i =? x)%Z && (j =? y)%Z); [split; assumption | apply Ha; exact Hij].
Qed.

Lemma eating_phase_ok (r : nat) (s : Environment.loop) :
  loop_ok s -> (r < length (Environment.heap s))%nat ->
  exists s', Environment.eating_phase r s = Some s'
    /\ loop_ok s'
    /\ length (Environment.heap s') = length (Environment.heap s)
    /\ (forall hi, field_within 0 hi (Environment.grid s) ->
                   field_within 0 hi (Environment.grid s'))
    /\ Environment.dead_agents s' = Environment.dead_agents s.
Proof.
  intros Hok Hr. destruct (heap_lookup s r Hr) as [a Ha].
  pose proof (agent_of_heap_in_grid s r a Hok Ha) as Hin.
  unfold Environment.eating_phase. rewrite Ha. cbn [mbind option_bind].
  destruct (negb (Agent.is_predator a));
    [| exists s; split; [reflexivity |]; split; [exact Hok |];
       split; [reflexivity |]; split; [intros hi H; exact H | reflexivity]].
  rewrite field_get_in by exact Hin. cbn [mbind option_bind].
  rewrite field_set_in by exact Hin. cbn [mbind option_bind].
  eexists. split; [reflexivity |].
  split; [apply loop_ok_store; [exact Hok | exact Hin] |].
  cbn [Environment.heap Environment.grid Environment.dead_agents].
  rewrite length_insert. split; [reflexivity |]. split; [| reflexivity].
  intros hi Hw.
  destruct (Hw _ _ Hin) as [Hlo Hhi].
  pose proof (py_min_upper (Environment.grid s (Agent.x a) (Agent.y a)) 2.0).
  assert (0 <= py_min (Environment.grid s (Agent.x a) (Agent.y a)) 2.0).
  { apply py_min_lower; [exact Hlo | lra]. }
  apply field_write_within; [exact Hw | lra | lra].
Qed.

Lemma vacant_in_grid (occ : gmap (Z * Z) nat) (c : Z * Z) :
  Environment.vacant occ c = true ->
  in_grid (fst c) (snd c) /\ occ !! c = None.
Proof.
  unfold Environment.vacant. rewrite !andb_true_iff.
  intros [[[[H1 H2] H3] H4] H5].
  apply bool_decide_eq_true in H5.
  unfold in_grid. split; [lia | exact H5].
Qed.

Lemma agent_init_fields (x y : Z) (genes : Genes) (energy : Q)
    (generation : Z) (g : RNG) :
  let child := fst (Agent.init x y genes energy generation g) in
  Agent.x child = x /\ Agent.y child = y /\ Agent.energy child = energy
  /\ Agent.generation child = generation /\ Agent.is_alive child = true
  /\ Agent.genes child = genes.
Proof.
  unfold Agent.init. destruct (randint 0 1000000 g) as [i g'].
  repeat split.
Qed.

Lemma spawn_ok (r : nat) (c : Z * Z) (s : Environment.loop) :
  loop_ok s -> (r < length (Environment.heap s))%nat ->
  in_grid (fst c) (snd c) ->
  exists s', Environment.spawn r c s = Some s'
    /\ loop_ok s'
    /\ length (Environment.heap s') = S (length (Environment.heap s))
    /\ Environment.grid s' = Environment.grid s
    /\ Environment.dead_agents s' = Environment.dead_agents s.
Proof.
  intros Hok Hr Hc. destruct (heap_lookup s r Hr) as [a Ha].
  pose proof (agent_of_heap_in_grid s r a Hok Ha) as Hin.
  unfold Environment.spawn. rewrite Ha. cbn [mbind option_bind].
  destruct (Agent.mutate_genes _ (Environment.rng s)) as [child_genes g1].
  match goal with
  | |- context [Agent.init ?x ?y ?gs ?e ?gen ?g] =>
      pose proof (agent_init_fields x y gs e gen g) as Hchild;
      destruct (Agent.init x y gs e gen g) as [child g2]
  end.
  cbn [fst] in Hchild. destruct Hchild as (Hx & Hy & _).
  eexists. split; [reflexivity |].
  cbn [Environment.heap Environment.grid Environment.dead_agents].
  rewrite length_app, length_insert. cbn [length].
  split; [| repeat split; lia].
  destruct Hok as [Hh Ho Hd].
  split; cbn [Environment.heap Environment.occupied Environment.dead_agents];
    rewrite ?length_app, ?length_insert; cbn [length].
  - apply Forall_app_2; [apply Forall_insert; [exact Hh | exact Hin] |].
    apply Forall_singleton. unfold agent_in_grid. rewrite Hx, Hy. exact Hc.
  - intros c' k Hk. apply lookup_insert_Some in Hk.
    destruct Hk as [[_ <-] | [_ Hk]]; [lia |].
    apply Ho in Hk. lia.
  - eapply Forall_impl; [exact Hd |]. intros k Hk. simpl in Hk. lia.
Qed.

Lemma reproduction_phase_ok (r : nat) (s : Environment.loop) :
  loop_ok s -> (r < length (Environment.heap s))%nat ->
  exists s', Environment.reproduction_phase r s = Some s'
    /\ loop_ok s'
    /\ (length (Environment.heap s) <= length (Environment.heap s')
        <= S (length (Environment.heap s)))%nat
    /\ Environment.grid s' = Environment.grid s
    /\ Environment.dead_agents s' = Environment.dead_agents s.
Proof.
  intros Hok Hr. destruct (heap_lookup s r Hr) as [a Ha].
  unfold Environment.reproduction_phase. rewrite Ha. cbn [mbind option_bind].
  destruct (Qltb (repro_threshold (Agent.genes a)) (Agent.energy a));
    [| exists s; split; [reflexivity |]; split; [exact Hok |];
       split; [lia |]; split; reflexivity].
  destruct (shuffle _ (Environment.rng s)) as [neighbors g].
  cbn [Environment.occupied Environment.heap].
  match goal with
  | |- context [Environment.spawn r _ ?st] => set (s1 := st)
  end.
  assert (Hok1 : loop_ok s1).
  { subst s1. destruct Hok as [Hh Ho Hd]. split; assumption. }
  destruct (find (Environment.vacant (Environment.occupied s)) neighbors)
    as [c |] eqn:Hfind.
  - apply find_some in Hfind. destruct Hfind as [_ Hv].
    apply vacant_in_grid in Hv. destruct Hv as [Hc _].
    destruct (spawn_ok r c s1 Hok1 Hr Hc) as (s' & E & Hok' & Hl & Hg & Hd).
    exists s'. split; [exact E |]. split; [exact Hok' |].
    split; [rewrite Hl; subst s1; cbn [Environment.heap]; lia |].
    split; [exact Hg | exact Hd].
  - exists s1. split; [reflexivity |]. split; [exact Hok1 |].
    split; [subst s1; cbn [Environment.heap]; lia |]. split; reflexivity.
Qed.

Lemma check_evolution_pos (a : Agent.t) :
  Agent.x (Agent.check_evolution a) = Agent.x a
  /\ Agent.y (Agent.check_evolution a) = Agent.y a
  /\ Agent.energy (Agent.check_evolution a) = Agent.energy a.
Proof.
  unfold Agent.check_evolution.
  destruct (negb (Agent.is_predator a)); [| repeat split].
  destruct (_ && _ && _); repeat split.
Qed.

Lemma death_phase_ok (r : nat) (s : Environment.loop) :
  loop_ok s -> (r < length (Environment.heap s))%nat ->
  exists s', Environment.death_phase r s = Some s'
    /\ loop_ok s'
    /\ length (Environment.heap s') = length (Environment.heap s)
    /\ Environment.grid s' = Environment.grid s
    /\ Environment.dead_agents s' = Environment.dead_agents s ++ starved s' r.
Proof.
  intros Hok Hr. destruct (heap_lookup s r Hr) as [a Ha].
  pose proof (agent_of_heap_in_grid s r a Hok Ha) as Hin.
  pose proof (check_evolution_pos a) as (Hx & Hy & He).
  unfold Environment.death_phase. rewrite Ha. cbn [mbind option_bind].
  set (a1 := Agent.set_age _ (Agent.check_evolution a)).
  assert (Hin1 : agent_in_grid a1).
  { unfold agent_in_grid. subst a1. cbn [Agent.x Agent.y Agent.set_age].
    rewrite Hx, Hy. exact Hin. }
  destruct (Qle_bool (Agent.energy a1) 0) eqn:Hstarve.
  - eexists. split; [reflexivity |].
    unfold starved. cbn [Environment.heap Environment.grid
                         Environment.dead_agents].
    rewrite length_insert, list_lookup_insert_eq by exact Hr.
    cbn [Agent.energy Agent.set_is_alive]. rewrite Hstarve.
    split; [| repeat split].
    destruct Hok as [Hh Ho Hd].
    split; cbn [Environment.heap Environment.occupied Environment.dead_agents];
      rewrite ?length_insert.
    + apply Forall_insert; [exact Hh | exact Hin1].
    + exact Ho.
    + apply Forall_app_2; [exact Hd | apply Forall_singleton; exact Hr].
  - eexists. split; [reflexivity |].
    unfold starved, Environment.set_heap.
    cbn [Environment.heap Environment.grid Environment.dead_agents].
    rewrite length_insert, list_lookup_insert_eq by exact Hr.
    rewrite Hstarve, app_nil_r.
    split; [apply loop_ok_store; [exact Hok | exact Hin1] | repeat split].
Qed.

(* ===================================================================== *)
(** ** The loop over the agents *)
(* ===================================================================== *)

Lemma agent_turn_ok (night : bool) (sun : Field) (r : nat)
    (s : Environment.loop) :
  loop_ok s -> (r < length (Environment.heap s))%nat ->
  exists s', Environment.agent_turn night sun r s = Some s'
    /\ loop_ok s'
    /\ (length (Environment.heap s) <= length (Environment.heap s')
        <= S (length (Environment.heap s)))%nat
    /\ (forall hi, field_within 0 hi (Environment.grid s) ->
                   field_within 0 hi (Environment.grid s'))
    /\ Environment.dead_agents s' = Environment.dead_agents s ++ starved s' r.
Proof.
  intros Hok Hr. unfold Environment.agent_turn.
  destruct (photosynthesis_phase_ok night sun r s Hok Hr)
    as (s1 & -> & Hok1 & Hl1 & Hg1 & Hd1).
  cbn [mbind option_bind]. rewrite <- Hl1 in Hr.
  destruct (colony_phase_ok r s1 Hok1 Hr)
    as (b & s2 & -> & Hok2 & Hl2 & Hg2 & Hd2).
  cbn [mbind option_bind fst snd]. rewrite <- Hl2 in Hr.
  destruct (movement_phase_ok night r b s2 Hok2 Hr)
    as (target & s3 & -> & Ht & Hok3 & Hl3 & Hg3 & Hd3).
  cbn [mbind option_bind fst snd]. rewrite <- Hl3 in Hr.
  destruct (collision_phase_ok r target s3 Hok3 Hr Ht)
    as (s4 & -> & Hok4 & Hl4 & Hg4 & Hd4).
  cbn [mbind option_bind]. rewrite <- Hl4 in Hr.
  destruct (eating_phase_ok r s4 Hok4 Hr)
    as (s5 & -> & Hok5 & Hl5 & Hg5 & Hd5).
  cbn [mbind option_bind]. rewrite <- Hl5 in Hr.
  destruct (reproduction_phase_ok r s5 Hok5 Hr)
    as (s6 & -> & Hok6 & Hl6 & Hg6 & Hd6).
  cbn [mbind option_bind].
  destruct (death_phase_ok r s6 Hok6 ltac:(lia))
    as (s7 & -> & Hok7 & Hl7 & Hg7 & Hd7).
  exists s7. split; [reflexivity |]. split; [exact Hok7 |].
  split; [lia |]. split.
  - intros hi Hw. rewrite Hg7, Hg6. apply Hg5.
    rewrite Hg4, Hg3, Hg2, Hg1. exact Hw.
  - rewrite Hd7, Hd6, Hd5, Hd4, Hd3, Hd2, Hd1. reflexivity.
Qed.

Lemma agent_loop_ok (night : bool) (sun : Field) (rs : list nat)
    (s : Environment.loop) :
  loop_ok s ->
  Forall (fun r => (r < length (Environment.heap s))%nat) rs ->
  exists s', Environment.agent_loop night sun rs s = Some s'
    /\ loop_ok s'
    /\ (length (Environment.heap s) <= length (Environment.heap s')
        <= length (Environment.heap s) + length rs)%nat
    /\ (forall hi, field_within 0 hi (Environment.grid s) ->
                   field_within 0 hi (Environment.grid s'))
    /\ Environment.dead_agents s'
       = Environment.dead_agents s ++ starved_in night sun rs s.
Proof.
  revert s. induction rs as [| r rest IH]; intros s Hok Hrs.
  - exists s. simpl. rewrite app_nil_r.
    split; [reflexivity |]. split; [exact Hok |]. split; [lia |].
    split; [intros hi H; exact H | reflexivity].
  - apply Forall_cons in Hrs. destruct Hrs as [Hr Hrest].
    destruct (agent_turn_ok night sun r s Hok Hr)
      as (s1 & E1 & Hok1 & Hl1 & Hg1 & Hd1).
    destruct (IH s1 Hok1) as (s2 & E2 & Hok2 & Hl2 & Hg2 & Hd2).
    { eapply Forall_impl; [exact Hrest |]. intros k Hk. simpl in Hk. lia. }
    exists s2. simpl. rewrite E1. cbn [mbind option_bind].
    split; [exact E2 |]. split; [exact Hok2 |]. split; [lia |].
    split; [intros hi H; apply Hg2, Hg1; exact H |].
    rewrite Hd2, Hd1, <- app_assoc. reflexivity.
Qed.

Lemma build_occupied_valid (l : list Agent.t) (i n : nat)
    (m : gmap (Z * Z) nat) :
  (forall c r, m !! c = Some r -> (r < n)%nat) ->
  (i + length l <= n)%nat ->
  forall c r, Environment.build_occupied i l m !! c = Some r -> (r < n)%nat.
Proof.
  revert i m. induction l as [| a rest IH]; intros i m Hm Hn c r; simpl.
  - apply Hm.
  - apply IH; [| simpl in Hn; lia].
    intros c' r' H. apply lookup_insert_Some in H.
    destruct H as [[_ <-] | [_ H]]; [simpl in Hn; lia | eapply Hm; exact H].
Qed.

Lemma loop_start_ok (self : Environment.t) (g : RNG) :
  Forall agent_in_grid (Environment.agents self) ->
  loop_ok (Environment.loop_start self g).
Proof.
  intros H. unfold Environment.loop_start.
  split; cbn [Environment.heap Environment.occupied Environment.dead_agents].
  - exact H.
  - apply build_occupied_valid; [| simpl; lia].
    intros c r Hc. rewrite lookup_empty in Hc. discriminate Hc.
  - apply Forall_nil. exact I.
Qed.

Lemma seq_valid (n m : nat) :
  (n <= m)%nat -> Forall (fun r => (r < m)%nat) (seq 0 n).
Proof.
  intros H. apply Forall_forall. intros r Hr.
  apply list_elem_of_In, in_seq in Hr. lia.
Qed.

Lemma run_loop_ok (self : Environment.t) (g : RNG) :
  Forall agent_in_grid (Environment.agents self) ->
  exists s, Environment.run_loop self g = Some s
    /\ loop_ok s
    /\ (length (Environment.agents self) <= length (Environment.heap s)
        <= 2 * length (Environment.agents self))%nat
    /\ (forall hi, field_within 0 hi (Environment.nutrients self) ->
                   field_within 0 hi (Environment.grid s))
    /\ Environment.dead_agents s
       = starved_in (Environment.night_at (Environment.global_time self + 1))
           (Environment.sunlight_gradient self)
           (seq 0 (length (Environment.agents self)))
           (Environment.loop_start self g).
Proof.
  intros H. unfold Environment.run_loop.
  destruct (agent_loop_ok
              (Environment.night_at (Environment.global_time self + 1))
              (Environment.sunlight_gradient self)
              (seq 0 (length (Environment.agents self)))
              (Environment.loop_start self g) (loop_start_ok self g H))
    as (s & E & Hok & Hl & Hg & Hd).
  { apply seq_valid. reflexivity. }
  exists s. split; [exact E |]. split; [exact Hok |].
  rewrite length_seq in Hl. cbn [Environment.loop_start Environment.heap] in Hl.
  split; [lia |]. split; [exact Hg | exact Hd].
Qed.

(* ===================================================================== *)
(** ** Recycling and the next population *)
(* ===================================================================== *)

Lemma recycle_ok (h : list Agent.t) (dead : list nat) (a : Field) :
  Forall agent_in_grid h ->
  Forall (fun r => (r < length h)%nat) dead ->
  exists a', Environment.recycle h dead a = Some a'
    /\ forall x y, in_grid x y ->
         a' x y == a x y + DEAD_BODY_NUTRIENT
                           * inject_Z (Z.of_nat (corpses_at h dead x y)).
Proof.
  intros Hh. revert a. induction dead as [| r rest IH]; intros a Hd.
  - exists a. split; [reflexivity |]. intros x y _.
    unfold corpses_at. simpl. change (inject_Z 0) with 0. ring.
  - apply Forall_cons in Hd. destruct Hd as [Hr Hrest].
    destruct (lookup_lt_is_Some_2 h r Hr) as [c Hc].
    pose proof (Forall_lookup_1 _ _ _ _ Hh Hc) as Hin.
    simpl. rewrite Hc. cbn [mbind option_bind].
    rewrite field_get_in by exact Hin. cbn [mbind option_bind].
    rewrite field_set_in by exact Hin. cbn [mbind option_bind].
    destruct (IH (field_write a (Agent.x c) (Agent.y c)
                    (a (Agent.x c) (Agent.y c) + DEAD_BODY_NUTRIENT)) Hrest)
      as (a' & E & Ha').
    exists a'. split; [exact E |]. intros x y Hxy.
    rewrite (Ha' x y Hxy).
    assert (Hcount : corpses_at h (r :: rest) x y
                     = if (Agent.x c =? x)%Z && (Agent.y c =? y)%Z
                       then S (corpses_at h rest x y)
                       else corpses_at h rest x y).
    { unfold corpses_at. cbn [List.filter]. unfold stands_on at 1.
      rewrite Hc. destruct (_ && _); reflexivity. }
    rewrite Hcount. unfold field_write.
    rewrite (Z.eqb_sym x), (Z.eqb_sym y).
    destruct ((Agent.x c =? x)%Z && (Agent.y c =? y)%Z) eqn:Hhere.
    + apply andb_true_iff in Hhere.
      destruct Hhere as [Hx%Z.eqb_eq Hy%Z.eqb_eq]. subst x y.
      rewrite Nat2Z.inj_succ. unfold Z.succ. rewrite inject_Z_plus.
      change (inject_Z 1) with 1. ring.
    + reflexivity.
Qed.

Lemma next_population_in_grid (n : nat) (h : list Agent.t) :
  Forall agent_in_grid h ->
  Forall agent_in_grid (Environment.next_population n h).
Proof.
  intros H. unfold Environment.next_population.
  apply Forall_app_2; [| apply Forall_drop; exact H].
  apply Forall_forall. intros a Ha.
  apply list_elem_of_filter in Ha. destruct Ha as [_ Ha].
  revert a Ha. apply Forall_forall. apply Forall_take. exact H.
Qed.

(** The whole tick, from a population on the grid: it raises no exception,
    and it ends in the state that the loop and the recycling produce. *)
Lemma update_agents_ok (self : Environment.t) (g : RNG) :
  Forall agent_in_grid (Environment.agents self) ->
  exists s self' ev g',
    Environment.run_loop self g = Some s
    /\ Environment.update_agents self g = Some (self', ev, g')
    /\ loop_ok s
    /\ Environment.agents self'
       = Environment.next_population (length (Environment.agents self))
                                     (Environment.heap s)
    /\ (forall x y, in_grid x y ->
          Environment.nutrients self' x y
          == Environment.grid s x y
             + DEAD_BODY_NUTRIENT
               * inject_Z (Z.of_nat (corpses_at (Environment.heap s)
                                       (Environment.dead_agents s) x y))).
Proof.
  intros H.
  destruct (run_loop_ok self g H) as (s & E & Hok & _).
  destruct (recycle_ok (Environment.heap s) (Environment.dead_agents s)
              (Environment.grid s) (heap_in_grid s Hok) (dead_valid s Hok))
    as (grid' & Eg & Hgrid).
  unfold Environment.update_agents. rewrite E. cbn [mbind option_bind].
  rewrite Eg. cbn [mbind option_bind].
  eexists s, _, _, _. split; [reflexivity |]. split; [reflexivity |].
  split; [exact Hok |]. split; [reflexivity |]. exact Hgrid.
Qed.

(* ===================================================================== *)
(** ** The properties of a tick *)
(* ===================================================================== *)

(** C2.  From a population that stands on the grid, [update_agents] raises
    no exception and every agent of the population it produces, survivor or
    newborn, stands on the grid, for one tick and for every number of
    frames; and [sense_and_move] returns a cell of the grid for every agent
    that stands on the grid. *)
Theorem coordinates_stay_in_grid (self : Environment.t) (g : RNG) :
  Forall agent_in_grid (Environment.agents self) ->
  (exists self' ev g',
      Environment.update_agents self g = Some (self', ev, g')
      /\ Forall agent_in_grid (Environment.agents self'))
  /\ (forall n words, exists self' g',
        run_ticks n words self g = Some (self', g')
        /\ Forall agent_in_grid (Environment.agents self'))
  /\ (forall agent grid night attached g0,
        agent_in_grid agent ->
        in_grid
          (fst (snd (fst (Agent.sense_and_move agent grid GRID_WIDTH
                            GRID_HEIGHT night attached g0))))
          (snd (snd (fst (Agent.sense_and_move agent grid GRID_WIDTH
                            GRID_HEIGHT night attached g0))))).
Proof.
  intros H.
  assert (Htick : forall env g0,
    Forall agent_in_grid (Environment.agents env) ->
    exists self' ev g',
      Environment.update_agents env g0 = Some (self', ev, g')
      /\ Forall agent_in_grid (Environment.agents self')).
  { intros env g0 Henv.
    destruct (update_agents_ok env g0 Henv)
      as (s & self' & ev & g' & _ & E & Hok & Hpop & _).
    exists self', ev, g'. split; [exact E |].
    rewrite Hpop. apply next_population_in_grid. exact (heap_in_grid s Hok). }
  split; [apply Htick; exact H |]. split.
  - intros n words. induction n as [| k IH].
    + exists self, g. split; [reflexivity | exact H].
    + destruct IH as (env1 & g1 & E1 & H1).
      destruct (Htick (Environment.update_nutrients (words k) env1) g1 H1)
        as (env2 & ev & g2 & E2 & H2).
      exists env2, g2. simpl. rewrite E1. cbn [mbind option_bind fst snd].
      unfold logic_update. rewrite E2. cbn [mbind option_bind fst snd].
      split; [reflexivity | exact H2].
  - intros agent grid night attached g0 Hin.
    apply (sense_and_move_spec agent grid night attached g0 Hin).
Qed.

Lemma coordinates_stay_in_grid_witness :
  exists self' ev g',
    Environment.update_agents nursery steady_rng = Some (self', ev, g')
    /\ Forall agent_in_grid (Environment.agents self').
Proof.
  exact (proj1 (coordinates_stay_in_grid nursery steady_rng nursery_in_grid)).
Defined.

(** C3, as amended.  From a field within [0, MAX_NUTRIENT],
    [update_nutrients] yields a field within [0, MAX_NUTRIENT]; the loop of
    [update_agents] keeps the field within [0, MAX_NUTRIENT], and the
    recycling that closes the tick adds [DEAD_BODY_NUTRIENT] without a
    clamp, so that a cell ends in [0, MAX_NUTRIENT + DEAD_BODY_NUTRIENT * k],
    where [k] is the number of agents that starved on it in the tick. *)
Theorem nutrient_bounds (self : Environment.t) (g : RNG)
    (words : Z -> Z -> Z) :
  field_within 0 MAX_NUTRIENT (Environment.nutrients self) ->
  Forall agent_in_grid (Environment.agents self) ->
  field_within 0 MAX_NUTRIENT
    (Environment.nutrients (Environment.update_nutrients words self))
  /\ exists s self' ev g',
       Environment.run_loop self g = Some s
       /\ Environment.update_agents self g = Some (self', ev, g')
       /\ field_within 0 MAX_NUTRIENT (Environment.grid s)
       /\ forall x y, in_grid x y ->
            0 <= Environment.nutrients self' x y
            /\ Environment.nutrients self' x y
               <= MAX_NUTRIENT
                  + DEAD_BODY_NUTRIENT
                    * inject_Z (Z.of_nat
                        (corpses_at (Environment.heap s)
                                    (Environment.dead_agents s) x y)).
Proof.
  intros Hw Hpop. split; [apply update_nutrients_within |].
  destruct (update_agents_ok self g Hpop)
    as (s & self' & ev & g' & Es & E & Hok & _ & Hgrid).
  destruct (run_loop_ok self g Hpop) as (s0 & Es0 & _ & _ & Hg & _).
  rewrite Es in Es0. injection Es0 as <-.
  exists s, self', ev, g'. split; [exact Es |]. split; [exact E |].
  split; [apply Hg; exact Hw |].
  intros x y Hxy. rewrite (Hgrid x y Hxy).
  destruct (Hg _ Hw x y Hxy) as [Hlo Hhi].
  assert (0 <= inject_Z (Z.of_nat (corpses_at (Environment.heap s)
                                     (Environment.dead_agents s) x y))).
  { change 0 with (inject_Z 0). rewrite <- Zle_Qle. lia. }
  unfold DEAD_BODY_NUTRIENT. split; lra.
Qed.

Lemma nutrient_bounds_witness :
  field_within 0 MAX_NUTRIENT
    (Environment.nutrients
       (Environment.update_nutrients (fun _ _ => 0%Z) famine)).
Proof.
  refine (proj1 (nutrient_bounds famine steady_rng (fun _ _ => 0%Z) _ _)).
  - intros x y _. split; vm_compute; discriminate.
  - repeat constructor; unfold GRID_WIDTH, GRID_HEIGHT; simpl; lia.
Defined.





(** An agent that a predator has eaten can still leave a deposit: the
    weakling is eaten in the turn of the hunter, then has its own turn,
    pays its metabolism of the night, eats 2.0 from the cell and fails the
    death check, so that its cell, which held 10.0, holds 8.0 after the
    loop and 13.0 after the recycling. *)
Lemma eaten_and_starved_is_recycled :
  exists s self' g',
    Environment.run_loop doomed steady_rng = Some s
    /\ Environment.update_agents doomed steady_rng
       = Some (self', [Environment.Eat 5 5], g')
    /\ Environment.dead_agents s = [1%nat]
    /\ Environment.grid s 6%Z 5%Z == 8.0
    /\ Environment.nutrients self' 6%Z 5%Z == 13.0
    /\ deposit self' s 6 5 == DEAD_BODY_NUTRIENT.
Proof.
  destruct (Environment.run_loop doomed steady_rng) as [s |] eqn:Es;
    [| vm_compute in Es; discriminate Es].
  destruct (Environment.update_agents doomed steady_rng)
    as [[[self' ev] g'] |] eqn:E; [| vm_compute in E; discriminate E].
  observe (fun r : option (Environment.t * list Environment.event * RNG) =>
             match r with
             | Some (e, ev, _) => Some (Environment.nutrients e 6%Z 5%Z, ev)
             | None => None
             end) E Hobs.
  injection Hobs as Hn Hev. subst ev.
  observe (fun r : option Environment.loop =>
             match r with
             | Some s => Some (Environment.dead_agents s,
                               Environment.grid s 6%Z 5%Z)
             | None => None
             end) Es Hobs.
  injection Hobs as Hd Hg.
  exists s, self', g'. split; [reflexivity |]. split; [reflexivity |].
  split; [symmetry; exact Hd |].
  unfold deposit. rewrite <- Hn, <- Hg.
  repeat split; reflexivity.
Qed.

(* ===================================================================== *)
(** ** Reproduction *)
(* ===================================================================== *)

Lemma insert_elem_of {A : Type} (l : list A) (i : nat) (x y : A) :
  y ∈ <[i := x]> l -> y = x \/ y ∈ l.
Proof.
  intros H. apply list_elem_of_lookup in H. destruct H as [k Hk].
  apply list_lookup_insert_Some in Hk.
  destruct Hk as [(_ & -> & _) | (_ & Hk)]; [left; reflexivity |].
  right. eapply list_elem_of_lookup_2. exact Hk.
Qed.

Lemma swap_elem_of {A : Type} (i j : nat) (l : list A) (y : A) :
  y ∈ swap i j l -> y ∈ l.
Proof.
  unfold swap.
  destruct (l !! i) as [a |] eqn:Ha; [| trivial].
  destruct (l !! j) as [b |] eqn:Hb; [| trivial].
  intros H. apply insert_elem_of in H.
  destruct H as [-> | H]; [eapply list_elem_of_lookup_2; exact Ha |].
  apply insert_elem_of in H.
  destruct H as [-> | H]; [eapply list_elem_of_lookup_2; exact Hb | exact H].
Qed.

Lemma shuffle_from_elem_of {A : Type} (i : nat) (l : list A) (g : RNG)
    (y : A) :
  y ∈ fst (shuffle_from i l g) -> y ∈ l.
Proof.
  revert l g. induction i as [| k IH]; intros l g; simpl; [trivial |].
  destruct (randbelow (Z.of_nat (S (S k))) g) as [j g'].
  intros H. apply IH in H. eapply swap_elem_of. exact H.
Qed.

(** The shuffled list holds no cell that the list did not hold. *)
Lemma shuffle_elem_of {A : Type} (l : list A) (g : RNG) (y : A) :
  y ∈ fst (shuffle l g) -> y ∈ l.
Proof. apply shuffle_from_elem_of. Qed.

(** C7.  An agent whose energy exceeds its [repro_threshold] and whose scan
    of the shuffled axis-aligned neighbours finds a vacant cell [c] splits:
    parent and child hold half of the parent's energy each, which add up to
    the energy before the split; the child is one generation further, and
    stands on [c]; and a turn adds at most one object to the heap, so that
    an agent has at most one offspring in a tick. *)
Theorem reproduction_half_split (night : bool) (sun : Field) (r : nat)
    (s : Environment.loop) (agent : Agent.t) (c : Z * Z) :
  loop_ok s ->
  Environment.heap s !! r = Some agent ->
  repro_threshold (Agent.genes agent) < Agent.energy agent ->
  find (Environment.vacant (Environment.occupied s))
       (fst (shuffle (axis_neighbors agent) (Environment.rng s))) = Some c ->
  (exists s' parent child,
      Environment.reproduction_phase r s = Some s'
      /\ Environment.heap s' = <[r := parent]> (Environment.heap s) ++ [child]
      /\ Agent.energy parent == Agent.energy agent / 2
      /\ Agent.energy child == Agent.energy agent / 2
      /\ Agent.energy parent + Agent.energy child == Agent.energy agent
      /\ Agent.generation child = (Agent.generation agent + 1)%Z
      /\ Agent.offspring_count parent = (Agent.offspring_count agent + 1)%Z
      /\ (Agent.x child, Agent.y child) = c
      /\ In c (axis_neighbors agent)
      /\ in_grid (fst c) (snd c)
      /\ Environment.occupied s !! c = None)
  /\ (exists s', Environment.agent_turn night sun r s = Some s'
        /\ (length (Environment.heap s')
            <= S (length (Environment.heap s)))%nat).
Proof.
  intros Hok Ha Hthr Hfind. split.
  - unfold Environment.reproduction_phase. rewrite Ha.
    cbn [mbind option_bind].
    apply Qltb_lt in Hthr. rewrite Hthr. cbv zeta.
    change [((Agent.x agent + 1)%Z, Agent.y agent);
            ((Agent.x agent - 1)%Z, Agent.y agent);
            (Agent.x agent, (Agent.y agent + 1)%Z);
            (Agent.x agent, (Agent.y agent - 1)%Z)]
      with (axis_neighbors agent).
    pose proof (shuffle_elem_of (axis_neighbors agent) (Environment.rng s) c)
      as Hmem.
    destruct (shuffle (axis_neighbors agent) (Environment.rng s))
      as [neighbors g1].
    cbn [fst Environment.occupied] in *. rewrite Hfind.
    apply find_some in Hfind. destruct Hfind as [Hc Hv].
    apply vacant_in_grid in Hv. destruct Hv as [Hgrid Hfree].
    unfold Environment.spawn. cbn [Environment.heap Environment.rng].
    rewrite Ha. cbn [mbind option_bind].
    destruct (Agent.mutate_genes _ g1) as [child_genes g2].
    match goal with
    | |- context [Agent.init ?x ?y ?gs ?e ?gen ?g] =>
        pose proof (agent_init_fields x y gs e gen g) as Hchild;
        destruct (Agent.init x y gs e gen g) as [child g3]
    end.
    cbn [fst] in Hchild.
    destruct Hchild as (Hx & Hy & He & Hgen & _ & _).
    eexists _, _, child. split; [reflexivity |].
    cbn [Environment.heap]. split; [reflexivity |].
    cbn [Agent.energy Agent.set_offspring_count Agent.set_energy
         Agent.offspring_count].
    rewrite He, Hgen, Hx, Hy.
    split; [reflexivity |]. split; [reflexivity |].
    split; [field |]. split; [reflexivity |]. split; [reflexivity |].
    split; [destruct c; reflexivity |].
    split; [apply list_elem_of_In, Hmem, list_elem_of_In; exact Hc |].
    split; [exact Hgrid | exact Hfree].
  - apply lookup_lt_Some in Ha.
    destruct (agent_turn_ok night sun r s Hok Ha)
      as (s' & E & _ & Hl & _).
    exists s'. split; [exact E | lia].
Qed.

Lemma ambush_in_grid : Forall agent_in_grid (Environment.agents ambush).
Proof.
  repeat constructor; unfold GRID_WIDTH, GRID_HEIGHT; simpl; lia.
Defined.

Lemma reproduction_half_split_witness :
  exists s', Environment.agent_turn true Environment.init_sunlight 1
               (Environment.loop_start ambush steady_rng) = Some s'
    /\ (length (Environment.heap s')
        <= S (length (Environment.heap
                        (Environment.loop_start ambush steady_rng))))%nat.
Proof.
  refine (proj2 (reproduction_half_split true Environment.init_sunlight 1
                   (Environment.loop_start ambush steady_rng)
                   (grazer 6 5) (6, 6)%Z
                   (loop_start_ok ambush steady_rng ambush_in_grid)
                   eq_refl _ _)).
  - vm_compute. reflexivity.
  - vm_compute. reflexivity.
Defined.

(* ===================================================================== *)
(** ** Predation *)
(* ===================================================================== *)

Lemma predation_fires_distinct (r o : nat) (h : list Agent.t)
    (agent other : Agent.t) :
  h !! r = Some agent -> h !! o = Some other ->
  Environment.predation_fires agent other = true -> r <> o.
Proof.
  intros Hr Ho Hf ->. rewrite Hr in Ho. injection Ho as <-.
  unfold Environment.predation_fires in Hf.
  destruct (Agent.is_predator agent); discriminate Hf.
Qed.

(** When predation fires, the mover gains
    [other.energy * PREDATOR_EAT_EFFICIENCY + DEAD_BODY_NUTRIENT], the
    occupant is marked dead at once, the mover takes the cell, and nothing
    is added to [dead_agents]. *)
Lemma predation_spec (r o : nat) (target : Z * Z) (s : Environment.loop)
    (agent other : Agent.t) :
  Environment.occupied s !! target = Some o ->
  Environment.heap s !! r = Some agent ->
  Environment.heap s !! o = Some other ->
  Environment.predation_fires agent other = true ->
  exists s' agent',
    Environment.collision_phase r target s = Some s'
    /\ Environment.heap s' !! r = Some agent'
    /\ Agent.energy agent'
       = Agent.energy agent
         + (Agent.energy other * PREDATOR_EAT_EFFICIENCY + DEAD_BODY_NUTRIENT)
    /\ (Agent.x agent', Agent.y agent') = target
    /\ Environment.heap s' !! o = Some (Agent.set_is_alive false other)
    /\ Environment.occupied s' !! target = Some r
    /\ Environment.dead_agents s' = Environment.dead_agents s
    /\ Environment.grid s' = Environment.grid s.
Proof.
  intros Hocc Hr Ho Hf.
  pose proof (predation_fires_distinct r o _ _ _ Hr Ho Hf) as Hne.
  pose proof (lookup_lt_Some _ _ _ Hr) as Hrl.
  pose proof (lookup_lt_Some _ _ _ Ho) as Hol.
  unfold Environment.collision_phase. rewrite Hocc, Hr, Ho.
  cbn [mbind option_bind]. rewrite Hf.
  unfold Environment.move_into. cbn [Environment.heap Environment.occupied].
  rewrite list_lookup_alter_ne by (intros E; apply Hne; symmetry; exact E).
  rewrite list_lookup_insert_eq by exact Hrl.
  cbn [mbind option_bind].
  eexists _, _. split; [reflexivity |].
  cbn [Environment.heap Environment.occupied Environment.dead_agents
       Environment.grid].
  split; [apply list_lookup_insert_eq;
          rewrite length_alter, length_insert; exact Hrl |].
  split; [reflexivity |]. split; [destruct target; reflexivity |].
  split.
  - rewrite list_lookup_insert_ne by exact Hne.
    rewrite list_lookup_alter, decide_True by reflexivity.
    rewrite list_lookup_insert_ne by exact Hne. rewrite Ho. reflexivity.
  - split; [apply lookup_insert_eq | split; reflexivity].
Qed.

(* ===================================================================== *)
(** ** The generators stay within their ranges *)
(* ===================================================================== *)

Lemma randbelow_range (n : Z) (g : RNG) :
  (0 < n)%Z -> (0 <= fst (randbelow n g) < n)%Z.
Proof.
  intros Hn. unfold randbelow, next_word. cbn [fst].
  apply Z.mod_pos_bound. exact Hn.
Qed.

Lemma randint_range (a b : Z) (g : RNG) :
  (a <= b)%Z -> (a <= fst (randint a b g) <= b)%Z.
Proof.
  intros Hab. unfold randint.
  pose proof (randbelow_range (b - a + 1) g ltac:(lia)) as Hk.
  destruct (randbelow (b - a + 1) g) as [k g']. cbn [fst] in *. lia.
Qed.

Lemma uniform_range (a b : Q) (g : RNG) :
  a <= b -> a <= fst (uniform a b g) /\ fst (uniform a b g) <= b.
Proof.
  intros Hab. unfold uniform, random, next_word. cbn [fst].
  destruct (unit_float_range (tape g (cursor g))) as [H0 H1].
  set (u := unit_float (tape g (cursor g))) in *.
  split; nra.
Qed.

Lemma random_genes_within (g : RNG) :
  genes_within_bounds (fst (Agent.random_genes g)).
Proof.
  unfold Agent.random_genes.
  repeat match goal with
  | |- context [let (_, _) := uniform ?a ?b ?r in _] =>
      let H := fresh "Hu" in
      assert (H := uniform_range a b r);
      destruct (uniform a b r); cbn [fst] in H
  | |- context [let (_, _) := randint ?a ?b ?r in _] =>
      let H := fresh "Hi" in
      assert (H := randint_range a b r);
      destruct (randint a b r); cbn [fst] in H
  end.
  cbn [fst]. unfold genes_within_bounds, within, within_int.
  cbn [metabolism repro_threshold sense_range size photosynthesis_efficiency
       adhesion GENE_BOUNDS fst snd] in *.
  repeat split;
    first [ apply Hu; lra | apply Hu0; lra | apply Hu1; lra | apply Hu2; lra
          | apply Hu3; lra | apply Hi; lia ].
Qed.

Lemma init_random_spec (x y : Z) (g : RNG) :
  let a := fst (Agent.init_random x y g) in
  Agent.x a = x /\ Agent.y a = y /\ fresh_agent a /\ sound_genes a.
Proof.
  unfold Agent.init_random.
  destruct (randint 0 1000000 g) as [i g1].
  pose proof (random_genes_within g1) as Hg.
  destruct (Agent.random_genes g1) as [genes g2]. cbn [fst] in *.
  unfold fresh_agent, sound_genes. cbn.
  repeat split; try reflexivity; apply Hg.
Qed.

(* ===================================================================== *)
(** ** The constructor of the environment *)
(* ===================================================================== *)

Lemma populate_spec (P : Agent.t -> Prop) (n : nat) (l : list Agent.t)
    (g : RNG) :
  (forall x y g0, in_grid x y -> P (fst (Agent.init_random x y g0))) ->
  Forall P l ->
  Forall P (fst (Environment.populate n l g))
  /\ length (fst (Environment.populate n l g)) = (length l + n)%nat.
Proof.
  intros Hnew. revert l g.
  induction n as [| k IH]; intros l g Hl; cbn [Environment.populate].
  - cbn [fst]. split; [exact Hl | lia].
  - pose proof (randint_range 0 (GRID_WIDTH - 1) g ltac:(unfold GRID_WIDTH; lia))
      as Hx.
    destruct (randint 0 (GRID_WIDTH - 1) g) as [x g1].
    pose proof (randint_range 0 (GRID_HEIGHT - 1) g1
                  ltac:(unfold GRID_HEIGHT; lia)) as Hy.
    destruct (randint 0 (GRID_HEIGHT - 1) g1) as [y g2].
    cbn [fst] in Hx, Hy.
    pose proof (Hnew x y g2 ltac:(unfold in_grid; lia)) as Ha.
    destruct (Agent.init_random x y g2) as [a g3]. cbn [fst] in Ha.
    destruct (IH (l ++ [a]) g3) as [HP Hlen].
    { apply Forall_app_2; [exact Hl | apply Forall_singleton; exact Ha]. }
    split; [exact HP |]. rewrite Hlen, length_app. simpl. lia.
Qed.

Lemma seed_loop_ok (n : nat) (a : Field) (g : RNG) :
  field_within 0 MAX_NUTRIENT a ->
  exists a' g', Environment.seed_loop n a g = Some (a', g')
    /\ field_within 0 MAX_NUTRIENT a'.
Proof.
  revert a g. induction n as [| k IH]; intros a g Ha;
    cbn [Environment.seed_loop].
  - exists a, g. split; [reflexivity | exact Ha].
  - pose proof (randint_range 0 (GRID_WIDTH - 1) g ltac:(unfold GRID_WIDTH; lia))
      as Hx.
    destruct (randint 0 (GRID_WIDTH - 1) g) as [x g1].
    pose proof (randint_range 0 (GRID_HEIGHT - 1) g1
                  ltac:(unfold GRID_HEIGHT; lia)) as Hy.
    destruct (randint 0 (GRID_HEIGHT - 1) g1) as [y g2].
    cbn [fst] in Hx, Hy.
    pose proof (uniform_range 0 MAX_NUTRIENT g2
                  ltac:(unfold MAX_NUTRIENT; lra)) as Hv.
    destruct (uniform 0 MAX_NUTRIENT g2) as [v g3]. cbn [fst] in Hv.
    rewrite field_set_in by (unfold in_grid; lia).
    cbn [mbind option_bind].
    apply IH. apply field_write_within; [exact Ha | apply Hv | apply Hv].
Qed.

(** What [Environment()] builds, for every state of the generator. *)
Lemma init_ok (g : RNG) :
  exists self g',
    Environment.init g = Some (self, g')
    /\ length (Environment.agents self) = Z.to_nat INITIAL_POPULATION
    /\ Forall (fun a => agent_in_grid a /\ sound_genes a /\ fresh_agent a)
              (Environment.agents self)
    /\ field_within 0 MAX_NUTRIENT (Environment.nutrients self)
    /\ Environment.sunlight_gradient self = Environment.init_sunlight
    /\ Environment.global_time self = 0%Z
    /\ Environment.is_night self = false.
Proof.
  unfold Environment.init, Environment.randomize_nutrients.
  cbn [Environment.nutrients Environment.agents Environment.sunlight_gradient
       Environment.global_time Environment.is_night].
  destruct (seed_loop_ok
              (Z.to_nat (py_int (inject_Z (GRID_WIDTH * GRID_HEIGHT) * 0.1)))
              (fun _ _ => 0) g) as (a' & g1 & -> & Ha').
  { intros x y _. unfold MAX_NUTRIENT. split; lra. }
  cbn [mbind option_bind fst snd Environment.nutrients Environment.agents
       Environment.sunlight_gradient].
  destruct (populate_spec
              (fun a => agent_in_grid a /\ sound_genes a /\ fresh_agent a)
              (Z.to_nat INITIAL_POPULATION) [] g1) as [HP Hlen].
  { intros x y g0 Hxy.
    destruct (init_random_spec x y g0) as (Hx & Hy & Hf & Hs).
    unfold agent_in_grid. rewrite Hx, Hy.
    split; [exact Hxy | split; assumption]. }
  { apply Forall_nil. exact I. }
  destruct (Environment.populate (Z.to_nat INITIAL_POPULATION) [] g1)
    as [population g2].
  cbn [fst] in HP, Hlen.
  exists (Environment.mk a' Environment.init_sunlight population 0 false), g2.
  cbn [Environment.nutrients Environment.agents Environment.sunlight_gradient
       Environment.global_time Environment.is_night].
  split; [reflexivity |]. split; [exact Hlen |]. split; [exact HP |].
  split; [exact Ha' |]. repeat split.
Qed.

(** [sense_and_move] changes nothing of [self] but its energy, whatever the
    size of the grid it is told. *)
Lemma forage_energy_only (self : Agent.t) (cost : Q) (grid : Field)
    (w h : Z) (attached : bool) (g : RNG) :
  exists e, fst (fst (Agent.forage self cost grid w h attached g))
            = Agent.set_energy e self.
Proof.
  unfold Agent.forage.
  destruct attached; [eexists; reflexivity |].
  destruct (Agent.scan _ grid w h) as [[bx by_] fb].
  destruct (fb && _); [eexists; reflexivity |].
  destruct (random g) as [u g1].
  destruct (Qltb u 0.2); [| eexists; reflexivity].
  destruct (choice _ _ g1) as [dx g2].
  destruct (choice _ _ g2) as [dy g3].
  destruct (_ && _ && _ && _); eexists; reflexivity.
Qed.

Lemma sense_and_move_energy_only (self : Agent.t) (grid : Field) (w h : Z)
    (night attached : bool) (g : RNG) :
  exists e, fst (fst (Agent.sense_and_move self grid w h night attached g))
            = Agent.set_energy e self.
Proof.
  unfold Agent.sense_and_move.
  destruct (random g) as [u g1].
  destruct (Agent.is_predator self).
  - destruct (negb night && negb PREDATOR_DAY_ACTIVITY);
      [eexists; reflexivity | apply forage_energy_only].
  - destruct night; [| apply forage_energy_only].
    destruct (Qltb NIGHT_MOVE_CHANCE u);
      [eexists; reflexivity | apply forage_energy_only].
Qed.

(* ===================================================================== *)
(** ** What a turn leaves untouched *)
(* ===================================================================== *)

Lemma quiet_refl (a : Agent.t) : quiet a a.
Proof. split; [destruct a; reflexivity | trivial]. Qed.

Lemma quiet_trans (a b c : Agent.t) : quiet a b -> quiet b c -> quiet a c.
Proof.
  intros [Hb Hab] [Hc Hbc]. split; [| auto].
  rewrite Hc at 1. rewrite Hb. destruct a; reflexivity.
Qed.

Lemma quiet_set_energy (e : Q) (a : Agent.t) : quiet a (Agent.set_energy e a).
Proof. split; [destruct a; reflexivity | trivial]. Qed.

Lemma quiet_kill (a : Agent.t) : quiet a (Agent.set_is_alive false a).
Proof. split; [destruct a; reflexivity | trivial]. Qed.

Lemma quiet_persists (a a' : Agent.t) : quiet a a' -> persists a a'.
Proof.
  intros [-> Hd]. unfold persists. cbn. repeat split; try lia; auto.
Qed.

Lemma persists_refl (a : Agent.t) : persists a a.
Proof. unfold persists. repeat split; try lia; auto. Qed.

Lemma persists_trans (a b c : Agent.t) :
  persists a b -> persists b c -> persists a c.
Proof.
  unfold persists.
  intros (H1 & H2 & H3 & H4 & H5 & H6 & H7) (K1 & K2 & K3 & K4 & K5 & K6 & K7).
  repeat split; try congruence; try lia; auto.
Qed.

Lemma heap_quiet_refl (h : list Agent.t) : heap_quiet h h.
Proof.
  split; [reflexivity |]. intros k a Ha. exists a.
  split; [exact Ha | apply quiet_refl].
Qed.

Lemma heap_quiet_trans (h1 h2 h3 : list Agent.t) :
  heap_quiet h1 h2 -> heap_quiet h2 h3 -> heap_quiet h1 h3.
Proof.
  intros [L1 H1] [L2 H2]. split; [congruence |].
  intros k a Ha. destruct (H1 k a Ha) as (b & Hb & Hab).
  destruct (H2 k b Hb) as (c & Hc & Hbc).
  exists c. split; [exact Hc | eapply quiet_trans; eassumption].
Qed.

Lemma heap_quiet_insert (h : list Agent.t) (r : nat) (a a' : Agent.t) :
  h !! r = Some a -> quiet a a' -> heap_quiet h (<[r := a']> h).
Proof.
  intros Hr Hq. split; [apply length_insert |].
  intros k b Hb. destruct (decide (k = r)) as [-> | Hne].
  - rewrite Hr in Hb. injection Hb as <-. exists a'.
    split; [| exact Hq]. apply list_lookup_insert_eq.
    eapply lookup_lt_Some; exact Hr.
  - exists b. rewrite list_lookup_insert_ne by congruence.
    split; [exact Hb | apply quiet_refl].
Qed.

Lemma heap_quiet_alter (h : list Agent.t) (r : nat)
    (f : Agent.t -> Agent.t) :
  (forall a, quiet a (f a)) -> heap_quiet h (alter f r h).
Proof.
  intros Hf. split; [apply length_alter |].
  intros k b Hb. rewrite list_lookup_alter.
  destruct (decide (r = k)) as [-> | Hne]; rewrite Hb; cbn.
  - exists (f b). split; [reflexivity | apply Hf].
  - exists b. split; [reflexivity | apply quiet_refl].
Qed.

Lemma heap_quiet_frame (r : nat) (h h' : list Agent.t) :
  heap_quiet h h' -> heap_frame r h h'.
Proof.
  intros [L H]. split; [lia |]. intros k a _ Ha. exact (H k a Ha).
Qed.

Lemma heap_frame_trans (r : nat) (h1 h2 h3 : list Agent.t) :
  heap_frame r h1 h2 -> heap_frame r h2 h3 -> heap_frame r h1 h3.
Proof.
  intros [L1 H1] [L2 H2]. split; [lia |].
  intros k a Hk Ha. destruct (H1 k a Hk Ha) as (b & Hb & Hab).
  destruct (H2 k b Hk Hb) as (c & Hc & Hbc).
  exists c. split; [exact Hc | eapply quiet_trans; eassumption].
Qed.

(** Replacing the object [r] is invisible to the other objects. *)
Lemma heap_frame_insert (r : nat) (h : list Agent.t) (a' : Agent.t) :
  heap_frame r h (<[r := a']> h).
Proof.
  split; [rewrite length_insert; lia |].
  intros k b Hk Hb. exists b.
  rewrite list_lookup_insert_ne by congruence.
  split; [exact Hb | apply quiet_refl].
Qed.

Lemma heap_frame_app (r : nat) (h : list Agent.t) (l : list Agent.t) :
  heap_frame r h (h ++ l).
Proof.
  split; [rewrite length_app; lia |].
  intros k b Hk Hb. exists b. split; [| apply quiet_refl].
  rewrite lookup_app_l by (eapply lookup_lt_Some; exact Hb). exact Hb.
Qed.

(** *** The four phases that only move energy *)

Lemma photosynthesis_phase_quiet (night : bool) (sun : Field) (r : nat)
    (s s' : Environment.loop) :
  Environment.photosynthesis_phase night sun r s = Some s' ->
  heap_quiet (Environment.heap s) (Environment.heap s')
  /\ Environment.grid s' = Environment.grid s
  /\ Environment.occupied s' = Environment.occupied s
  /\ Environment.events s' = Environment.events s
  /\ Environment.dead_agents s' = Environment.dead_agents s.
Proof.
  unfold Environment.photosynthesis_phase. intros H.
  apply bind_Some in H. destruct H as (a & Ha & H).
  apply bind_Some in H. destruct H as (v & _ & H).
  injection H as <-. unfold Environment.set_heap.
  cbn [Environment.heap Environment.grid Environment.occupied
       Environment.events Environment.dead_agents].
  split; [| repeat split].
  eapply heap_quiet_insert; [exact Ha | apply quiet_set_energy].
Qed.

Lemma colony_loop_quiet (neighbors : list nat) (self : nat)
    (attached b : bool) (h h' : list Agent.t) :
  Agent.colony_loop self neighbors attached h = Some (b, h') ->
  heap_quiet h h'.
Proof.
  revert attached h.
  induction neighbors as [| other rest IH]; intros attached h H.
  - injection H as _ <-. apply heap_quiet_refl.
  - cbn [Agent.colony_loop] in H.
    apply bind_Some in H. destruct H as (sa & Hsa & H).
    apply bind_Some in H. destruct H as (oa & Hoa & H).
    destruct (Qle_bool 0.5 (adhesion (Agent.genes oa))); [| eauto].
    apply IH in H. eapply heap_quiet_trans; [| exact H].
    destruct (Qltb 1.0 _); [| apply heap_quiet_refl].
    eapply heap_quiet_trans; apply heap_quiet_alter;
      intros a; apply quiet_set_energy.
Qed.

Lemma colony_phase_quiet (r : nat) (s s' : Environment.loop) (b : bool) :
  Environment.colony_phase r s = Some (b, s') ->
  heap_quiet (Environment.heap s) (Environment.heap s')
  /\ Environment.grid s' = Environment.grid s
  /\ Environment.occupied s' = Environment.occupied s
  /\ Environment.events s' = Environment.events s
  /\ Environment.dead_agents s' = Environment.dead_agents s.
Proof.
  unfold Environment.colony_phase. intros H.
  apply bind_Some in H. destruct H as (a & Ha & H).
  destruct (Qle_bool 0.5 (adhesion (Agent.genes a))).
  - apply bind_Some in H. destruct H as ([b0 h0] & Hc & H).
    injection H as _ <-. unfold Environment.set_heap.
    cbn [Environment.heap Environment.grid Environment.occupied
         Environment.events Environment.dead_agents fst snd].
    split; [| repeat split].
    unfold Agent.handle_colony in Hc.
    apply bind_Some in Hc. destruct Hc as (a0 & _ & Hc).
    destruct (Qltb (adhesion (Agent.genes a0)) 0.5).
    + injection Hc as _ <-. apply heap_quiet_refl.
    + eapply colony_loop_quiet. exact Hc.
  - injection H as _ <-. split; [apply heap_quiet_refl | repeat split].
Qed.

Lemma movement_phase_quiet (night : bool) (r : nat) (attached : bool)
    (s s' : Environment.loop) (target : Z * Z) :
  Environment.movement_phase night r attached s = Some (target, s') ->
  heap_quiet (Environment.heap s) (Environment.heap s')
  /\ Environment.grid s' = Environment.grid s
  /\ Environment.occupied s' = Environment.occupied s
  /\ Environment.events s' = Environment.events s
  /\ Environment.dead_agents s' = Environment.dead_agents s.
Proof.
  unfold Environment.movement_phase. intros H.
  apply bind_Some in H. destruct H as (a & Ha & H).
  pose proof (sense_and_move_energy_only a (Environment.grid s) GRID_WIDTH
                GRID_HEIGHT night attached (Environment.rng s)) as [e He].
  destruct (Agent.sense_and_move a (Environment.grid s) GRID_WIDTH GRID_HEIGHT
              night attached (Environment.rng s)) as [[a' t] g'].
  cbn [fst] in He. subst a'.
  injection H as _ <-.
  cbn [Environment.heap Environment.grid Environment.occupied
       Environment.events Environment.dead_agents].
  split; [| repeat split].
  eapply heap_quiet_insert; [exact Ha | apply quiet_set_energy].
Qed.

Lemma eating_phase_quiet (r : nat) (s s' : Environment.loop) :
  Environment.eating_phase r s = Some s' ->
  heap_quiet (Environment.heap s) (Environment.heap s')
  /\ Environment.occupied s' = Environment.occupied s
  /\ Environment.events s' = Environment.events s
  /\ Environment.dead_agents s' = Environment.dead_agents s.
Proof.
  unfold Environment.eating_phase. intros H.
  apply bind_Some in H. destruct H as (a & Ha & H).
  destruct (negb (Agent.is_predator a)).
  - apply bind_Some in H. destruct H as (v & _ & H).
    apply bind_Some in H. destruct H as (grid' & _ & H).
    injection H as <-.
    cbn [Environment.heap Environment.grid Environment.occupied
         Environment.events Environment.dead_agents].
    split; [| repeat split].
    eapply heap_quiet_insert; [exact Ha | apply quiet_set_energy].
  - injection H as <-. split; [apply heap_quiet_refl | repeat split].
Qed.

(** *** The step of [sense_and_move] *)

Lemma choice_step (g : RNG) :
  (Z.abs (fst (choice 0%Z [(-1)%Z; 0%Z; 1%Z] g)) <= 1)%Z.
Proof.
  unfold choice. cbn [length].
  pose proof (randbelow_range (Z.of_nat 3) g ltac:(lia)) as Hk.
  destruct (randbelow (Z.of_nat 3) g) as [k g'].
  cbn [fst] in *.
  assert (Hcases : k = 0%Z \/ k = 1%Z \/ k = 2%Z) by lia.
  destruct Hcases as [-> | [-> | ->]]; vm_compute; discriminate.
Qed.

Lemma forage_step (self : Agent.t) (cost : Q) (grid : Field) (w h : Z)
    (attached : bool) (g : RNG) :
  let target := snd (fst (Agent.forage self cost grid w h attached g)) in
  (Z.abs (fst target - Agent.x self) <= 1)%Z
  /\ (Z.abs (snd target - Agent.y self) <= 1)%Z.
Proof.
  unfold Agent.forage.
  destruct attached; [cbn; lia |].
  destruct (Agent.scan _ grid w h) as [[bx by_] fb].
  destruct (fb && _); [cbn; unfold sign; lia |].
  destruct (random g) as [u g1].
  destruct (Qltb u 0.2); [| cbn; lia].
  pose proof (choice_step g1) as Hdx.
  destruct (choice _ _ g1) as [dx g2].
  pose proof (choice_step g2) as Hdy.
  destruct (choice _ _ g2) as [dy g3].
  cbn [fst] in Hdx, Hdy.
  destruct (_ && _ && _ && _); cbn; lia.
Qed.

Lemma sense_and_move_step (self : Agent.t) (grid : Field) (w h : Z)
    (night attached : bool) (g : RNG) :
  let target :=
    snd (fst (Agent.sense_and_move self grid w h night attached g)) in
  (Z.abs (fst target - Agent.x self) <= 1)%Z
  /\ (Z.abs (snd target - Agent.y self) <= 1)%Z.
Proof.
  unfold Agent.sense_and_move.
  destruct (random g) as [u g1].
  destruct (Agent.is_predator self).
  - destruct (negb night && negb PREDATOR_DAY_ACTIVITY);
      [cbn; lia | apply forage_step].
  - destruct night; [| apply forage_step].
    destruct (Qltb NIGHT_MOVE_CHANCE u); [cbn; lia | apply forage_step].
Qed.

Lemma movement_phase_step (night : bool) (r : nat) (attached : bool)
    (s s' : Environment.loop) (target : Z * Z) (a : Agent.t) :
  Environment.movement_phase night r attached s = Some (target, s') ->
  Environment.heap s !! r = Some a ->
  (Z.abs (fst target - Agent.x a) <= 1)%Z
  /\ (Z.abs (snd target - Agent.y a) <= 1)%Z.
Proof.
  unfold Environment.movement_phase. intros H Ha. rewrite Ha in H.
  cbn [mbind option_bind] in H.
  pose proof (sense_and_move_step a (Environment.grid s) GRID_WIDTH
                GRID_HEIGHT night attached (Environment.rng s)) as Hstep.
  destruct (Agent.sense_and_move a (Environment.grid s) GRID_WIDTH GRID_HEIGHT
              night attached (Environment.rng s)) as [[a' t] g'].
  injection H as <- _. exact Hstep.
Qed.

(** *** The three phases that do more *)

Lemma move_into_frame (r : nat) (target : Z * Z) (s s' : Environment.loop)
    (a : Agent.t) :
  Environment.move_into r target s = Some s' ->
  Environment.heap s !! r = Some a ->
  Environment.heap s'
  = <[r := Agent.set_pos (fst target) (snd target) a]> (Environment.heap s)
  /\ Environment.grid s' = Environment.grid s
  /\ Environment.events s' = Environment.events s
  /\ Environment.dead_agents s' = Environment.dead_agents s.
Proof.
  unfold Environment.move_into. intros H Ha. rewrite Ha in H.
  cbn [mbind option_bind] in H. injection H as <-. repeat split.
Qed.

Lemma collision_phase_frame (r : nat) (target : Z * Z)
    (s s' : Environment.loop) (a : Agent.t) :
  Environment.collision_phase r target s = Some s' ->
  Environment.heap s !! r = Some a ->
  heap_frame r (Environment.heap s) (Environment.heap s')
  /\ length (Environment.heap s') = length (Environment.heap s)
  /\ (exists e,
        Environment.heap s' !! r = Some (Agent.set_energy e a)
        \/ Environment.heap s' !! r
           = Some (Agent.set_pos (fst target) (snd target)
                     (Agent.set_energy e a)))
  /\ Environment.grid s' = Environment.grid s
  /\ Environment.dead_agents s' = Environment.dead_agents s.
Proof.
  unfold Environment.collision_phase. intros H Ha.
  pose proof (lookup_lt_Some _ _ _ Ha) as Hr.
  assert (Hself : Agent.set_energy (Agent.energy a) a = a)
    by (destruct a; reflexivity).
  destruct (Environment.occupied s !! target) as [o |].
  - rewrite Ha in H. cbn [mbind option_bind] in H.
    apply bind_Some in H. destruct H as (other & Ho & H).
    destruct (Environment.predation_fires a other) eqn:Hf.
    + pose proof (predation_fires_distinct r o _ _ _ Ha Ho Hf) as Hne.
      match type of H with
      | Environment.move_into r target ?st = _ => set (s2 := st) in H
      end.
      assert (Ha2 : Environment.heap s2 !! r
                    = Some (Agent.add_energy
                              (Agent.energy other * PREDATOR_EAT_EFFICIENCY
                               + DEAD_BODY_NUTRIENT) a)).
      { subst s2. cbn [Environment.heap].
        rewrite list_lookup_alter_ne by congruence.
        apply list_lookup_insert_eq. exact Hr. }
      destruct (move_into_frame r target s2 s' _ H Ha2)
        as (Hh & Hg & _ & Hd).
      rewrite Hh. subst s2. cbn [Environment.heap] in *.
      split; [| split; [| split; [| split; [exact Hg | exact Hd]]]].
      * eapply heap_frame_trans; [apply heap_frame_insert |].
        eapply heap_frame_trans; [| apply heap_frame_insert].
        apply heap_quiet_frame, heap_quiet_alter. intros b. apply quiet_kill.
      * rewrite length_insert, length_alter, length_insert. reflexivity.
      * eexists. right. apply list_lookup_insert_eq.
        rewrite length_alter, length_insert. exact Hr.
    + injection H as <-.
      split; [apply heap_quiet_frame, heap_quiet_refl |].
      split; [reflexivity |].
      split; [exists (Agent.energy a); left; rewrite Hself; exact Ha |].
      split; reflexivity.
  - destruct (move_into_frame r target s s' a H Ha) as (Hh & Hg & _ & Hd).
    rewrite Hh.
    split; [apply heap_frame_insert |].
    split; [apply length_insert |].
    split; [| split; [exact Hg | exact Hd]].
    exists (Agent.energy a). right. rewrite Hself.
    apply list_lookup_insert_eq. exact Hr.
Qed.

Lemma mutate_genes_of_genes (a b : Agent.t) (g : RNG) :
  Agent.genes a = Agent.genes b ->
  Agent.mutate_genes a g = Agent.mutate_genes b g.
Proof. intros H. unfold Agent.mutate_genes. rewrite H. reflexivity. Qed.

Lemma spawn_frame (r : nat) (c : Z * Z) (s s' : Environment.loop)
    (a : Agent.t) :
  Environment.spawn r c s = Some s' ->
  Environment.heap s !! r = Some a ->
  exists child,
    Environment.heap s'
    = <[r := Agent.set_offspring_count (Agent.offspring_count a + 1)
               (Agent.set_energy (Agent.energy a / 2) a)]>
        (Environment.heap s) ++ [child]
    /\ (exists g, Agent.genes child = fst (Agent.mutate_genes a g))
    /\ Agent.generation child = (Agent.generation a + 1)%Z
    /\ (Agent.x child, Agent.y child) = c
    /\ Agent.age child = 0%Z
    /\ Agent.is_predator child = false
    /\ Agent.offspring_count child = 0%Z
    /\ Agent.is_alive child = true
    /\ Agent.energy child = Agent.energy a / 2
    /\ Environment.grid s' = Environment.grid s
    /\ Environment.dead_agents s' = Environment.dead_agents s
    /\ Environment.events s'
       = Environment.events s
         ++ [Environment.Spawn (Agent.x a) (Agent.y a) (fst c) (snd c)].
Proof.
  unfold Environment.spawn. intros H Ha. rewrite Ha in H.
  cbn [mbind option_bind] in H.
  pose proof (mutate_genes_of_genes
                (Agent.set_energy (Agent.energy a / 2) a) a
                (Environment.rng s) eq_refl) as Hmut.
  destruct (Agent.mutate_genes (Agent.set_energy (Agent.energy a / 2) a)
              (Environment.rng s)) as [child_genes g1].
  unfold Agent.init in H.
  destruct (randint 0 1000000 g1) as [i g2].
  injection H as <-.
  eexists. split; [reflexivity |].
  cbn. split; [exists (Environment.rng s); rewrite <- Hmut; reflexivity |].
  destruct c. repeat split.
Qed.

Lemma reproduction_phase_frame (r : nat) (s s' : Environment.loop)
    (a : Agent.t) :
  Environment.reproduction_phase r s = Some s' ->
  Environment.heap s !! r = Some a ->
  (Environment.heap s' = Environment.heap s
   \/ exists child,
        Environment.heap s'
        = <[r := Agent.set_offspring_count (Agent.offspring_count a + 1)
                   (Agent.set_energy (Agent.energy a / 2) a)]>
            (Environment.heap s) ++ [child]
        /\ born_of a child)
  /\ Environment.grid s' = Environment.grid s
  /\ Environment.dead_agents s' = Environment.dead_agents s.
Proof.
  unfold Environment.reproduction_phase. intros H Ha. rewrite Ha in H.
  cbn [mbind option_bind] in H.
  destruct (Qltb (repro_threshold (Agent.genes a)) (Agent.energy a));
    [| injection H as <-; split; [left; reflexivity | split; reflexivity]].
  cbv zeta in H.
  change [((Agent.x a + 1)%Z, Agent.y a); ((Agent.x a - 1)%Z, Agent.y a);
          (Agent.x a, (Agent.y a + 1)%Z); (Agent.x a, (Agent.y a - 1)%Z)]
    with (axis_neighbors a) in H.
  pose proof (shuffle_elem_of (axis_neighbors a) (Environment.rng s)) as Hmem.
  destruct (shuffle (axis_neighbors a) (Environment.rng s)) as [nb g1].
  cbn [fst Environment.occupied Environment.heap] in *.
  destruct (find (Environment.vacant (Environment.occupied s)) nb)
    as [c |] eqn:Hfind.
  - apply find_some in Hfind. destruct Hfind as [Hc Hv].
    apply vacant_in_grid in Hv. destruct Hv as [Hgrid _].
    destruct (spawn_frame r c _ s' a H Ha)
      as (child & Hh & Hgenes & Hgen & Hpos & Hage & Hpred & Hoc & _ & _
          & Hg & Hd & _).
    split; [| split; [exact Hg | exact Hd]].
    right. exists child. split; [exact Hh |].
    unfold born_of. rewrite Hpos.
    split; [exact Hgenes |]. split; [exact Hgen |].
    split; [apply list_elem_of_In, Hmem, list_elem_of_In; exact Hc |].
    assert (Hxy : Agent.x child = fst c /\ Agent.y child = snd c)
      by (destruct c; injection Hpos as <- <-; split; reflexivity).
    destruct Hxy as [-> ->].
    split; [exact Hgrid |]. repeat split; assumption.
  - injection H as <-. split; [left; reflexivity | split; reflexivity].
Qed.

Lemma check_evolution_persists (a : Agent.t) :
  persists a (Agent.check_evolution a)
  /\ Agent.x (Agent.check_evolution a) = Agent.x a
  /\ Agent.y (Agent.check_evolution a) = Agent.y a
  /\ Agent.age (Agent.check_evolution a) = Agent.age a
  /\ Agent.offspring_count (Agent.check_evolution a)
     = Agent.offspring_count a.
Proof.
  unfold Agent.check_evolution.
  destruct (negb (Agent.is_predator a));
    [| split; [apply persists_refl | repeat split]].
  destruct (_ && _ && _);
    [| split; [apply persists_refl | repeat split]].
  split; [| repeat split].
  unfold persists. cbn. repeat split; try lia; auto.
Qed.

Lemma death_phase_frame (r : nat) (s s' : Environment.loop) (a : Agent.t) :
  Environment.death_phase r s = Some s' ->
  Environment.heap s !! r = Some a ->
  (exists a', Environment.heap s' = <[r := a']> (Environment.heap s)
     /\ persists a a'
     /\ Agent.age a' = (Agent.age a + 1)%Z
     /\ Agent.x a' = Agent.x a /\ Agent.y a' = Agent.y a
     /\ Agent.offspring_count a' = Agent.offspring_count a)
  /\ Environment.grid s' = Environment.grid s.
Proof.
  unfold Environment.death_phase. intros H Ha. rewrite Ha in H.
  cbn [mbind option_bind] in H.
  destruct (check_evolution_persists a) as (Hp & Hx & Hy & Hage & Hoc).
  set (b := Agent.check_evolution a) in *.
  destruct Hp as (P1 & P2 & P3 & P4 & P5 & P6 & P7).
  destruct (Qle_bool _ 0); injection H as <-;
    (split; [| reflexivity]); eexists; (split; [reflexivity |]);
    unfold persists; cbn; repeat split; try lia; auto.
Qed.

(** *** A whole turn *)

Lemma quiet_fields (a a' : Agent.t) :
  quiet a a' ->
  Agent.id a' = Agent.id a /\ Agent.x a' = Agent.x a
  /\ Agent.y a' = Agent.y a /\ Agent.age a' = Agent.age a
  /\ Agent.generation a' = Agent.generation a
  /\ Agent.is_predator a' = Agent.is_predator a
  /\ Agent.offspring_count a' = Agent.offspring_count a
  /\ Agent.genes a' = Agent.genes a
  /\ (Agent.is_alive a = false -> Agent.is_alive a' = false).
Proof. intros [-> Hd]. cbn. repeat split. exact Hd. Qed.

Lemma born_of_parent (p p' c : Agent.t) :
  Agent.genes p' = Agent.genes p ->
  Agent.generation p' = Agent.generation p ->
  Agent.x p' = Agent.x p -> Agent.y p' = Agent.y p ->
  born_of p c -> born_of p' c.
Proof.
  intros Hg Hgen Hx Hy ([g Hc] & H2 & H3 & H4).
  unfold born_of, axis_neighbors. rewrite Hgen, Hx, Hy.
  split; [exists g; rewrite Hc;
          rewrite (mutate_genes_of_genes p p' g) by congruence; reflexivity |].
  split; [exact H2 |]. split; [exact H3 | exact H4].
Qed.

Lemma born_of_child (p c c' : Agent.t) :
  quiet c c' -> born_of p c -> born_of p c'.
Proof.
  intros Hq. apply quiet_fields in Hq.
  destruct Hq as (_ & Hx & Hy & Hage & Hgen & Hpred & Hoc & Hg & _).
  unfold born_of. rewrite Hx, Hy, Hage, Hgen, Hpred, Hoc, Hg. trivial.
Qed.

Lemma agent_turn_frame (night : bool) (sun : Field) (r : nat)
    (s s' : Environment.loop) (a : Agent.t) :
  Environment.agent_turn night sun r s = Some s' ->
  Environment.heap s !! r = Some a ->
  heap_frame r (Environment.heap s) (Environment.heap s')
  /\ (exists a', Environment.heap s' !! r = Some a' /\ acted a a')
  /\ (length (Environment.heap s') = length (Environment.heap s)
      \/ length (Environment.heap s') = S (length (Environment.heap s))
         /\ exists a' c,
              Environment.heap s' !! r = Some a'
              /\ Environment.heap s' !! length (Environment.heap s) = Some c
              /\ born_of a' c).
Proof.
  unfold Environment.agent_turn. intros H Ha.
  pose proof (lookup_lt_Some _ _ _ Ha) as Hr.
  apply bind_Some in H. destruct H as (s1 & E1 & H).
  apply bind_Some in H. destruct H as ([b s2] & E2 & H).
  apply bind_Some in H. destruct H as ([target s3] & E3 & H).
  apply bind_Some in H. destruct H as (s4 & E4 & H).
  apply bind_Some in H. destruct H as (s5 & E5 & H).
  apply bind_Some in H. destruct H as (s6 & E6 & E7).
  cbn [fst snd] in *.
  apply photosynthesis_phase_quiet in E1. destruct E1 as (Q1 & _).
  apply colony_phase_quiet in E2. destruct E2 as (Q2 & _).
  pose proof (movement_phase_quiet _ _ _ _ _ _ E3) as (Q3 & _).
  destruct (proj2 Q1 r a Ha) as (a1 & Ha1 & F1).
  destruct (proj2 Q2 r a1 Ha1) as (a2 & Ha2 & F2).
  pose proof (movement_phase_step _ _ _ _ _ _ _ E3 Ha2) as [Hsx Hsy].
  destruct (proj2 Q3 r a2 Ha2) as (a3 & Ha3 & F3).
  destruct (collision_phase_frame _ _ _ _ _ E4 Ha3)
    as (Fr4 & L4 & [e4 Ha4] & _).
  apply eating_phase_quiet in E5. destruct E5 as (Q5 & _).
  apply quiet_fields in F1, F2, F3.
  destruct F1 as (I1 & X1 & Y1 & A1 & G1 & P1 & O1 & N1 & D1).
  destruct F2 as (I2 & X2 & Y2 & A2 & G2 & P2 & O2 & N2 & D2).
  destruct F3 as (I3 & X3 & Y3 & A3 & G3 & P3 & O3 & N3 & D3).
  (* the object of [r] after the collision check *)
  assert (H4 : exists a4, Environment.heap s4 !! r = Some a4
    /\ Agent.id a4 = Agent.id a /\ Agent.genes a4 = Agent.genes a
    /\ Agent.generation a4 = Agent.generation a
    /\ Agent.is_predator a4 = Agent.is_predator a
    /\ (Agent.is_alive a = false -> Agent.is_alive a4 = false)
    /\ Agent.age a4 = Agent.age a
    /\ Agent.offspring_count a4 = Agent.offspring_count a
    /\ (Z.abs (Agent.x a4 - Agent.x a) <= 1)%Z
    /\ (Z.abs (Agent.y a4 - Agent.y a) <= 1)%Z).
  { destruct Ha4 as [Ha4 | Ha4]; eexists; (split; [exact Ha4 |]); cbn;
      repeat split; try congruence; try lia; auto. }
  destruct H4 as (a4 & Ha4' & I4 & N4 & G4 & P4 & D4 & A4 & O4 & MX & MY).
  clear Ha4.
  destruct (proj2 Q5 r a4 Ha4') as (a5 & Ha5 & F5).
  apply quiet_fields in F5.
  destruct F5 as (I5 & X5 & Y5 & A5 & G5 & P5 & O5 & N5 & D5).
  destruct (reproduction_phase_frame _ _ _ _ E6 Ha5) as (Hrep & _).
  assert (L5 : length (Environment.heap s5) = length (Environment.heap s)).
  { rewrite (proj1 Q5), L4, (proj1 Q3), (proj1 Q2), (proj1 Q1). reflexivity. }
  assert (Fr5 : heap_frame r (Environment.heap s) (Environment.heap s5)).
  { eapply heap_frame_trans; [apply heap_quiet_frame; exact Q1 |].
    eapply heap_frame_trans; [apply heap_quiet_frame; exact Q2 |].
    eapply heap_frame_trans; [apply heap_quiet_frame; exact Q3 |].
    eapply heap_frame_trans; [exact Fr4 |].
    apply heap_quiet_frame; exact Q5. }
  assert (Hr5 : (r < length (Environment.heap s5))%nat) by lia.
  destruct Hrep as [Hsame | (child & Hh6 & Hborn)].
  - (* no offspring *)
    assert (Ha6 : Environment.heap s6 !! r = Some a5) by (rewrite Hsame; exact Ha5).
    destruct (death_phase_frame _ _ _ _ E7 Ha6)
      as ((a7 & Hh7 & Pers & A7 & X7 & Y7 & O7) & _).
    destruct Pers as (K1 & K2 & K3 & K4 & K5 & K6 & K7).
    rewrite Hh7, Hsame.
    split; [eapply heap_frame_trans; [exact Fr5 | apply heap_frame_insert] |].
    split.
    + exists a7. split; [apply list_lookup_insert_eq; exact Hr5 |].
      unfold acted, persists.
      repeat split;
        first [ congruence | lia
              | intros Hp; apply K4; congruence
              | intros Hd; apply K5, D5, D4, Hd ].
    + left. rewrite length_insert. exact L5.
  - (* one offspring *)
    set (a6 := Agent.set_offspring_count (Agent.offspring_count a5 + 1)
                 (Agent.set_energy (Agent.energy a5 / 2) a5)) in *.
    assert (Ha6 : Environment.heap s6 !! r = Some a6).
    { rewrite Hh6, lookup_app_l by (rewrite length_insert; exact Hr5).
      apply list_lookup_insert_eq. exact Hr5. }
    destruct (death_phase_frame _ _ _ _ E7 Ha6)
      as ((a7 & Hh7 & Pers & A7 & X7 & Y7 & O7) & _).
    destruct Pers as (K1 & K2 & K3 & K4 & K5 & K6 & K7).
    cbn [a6 Agent.id Agent.genes Agent.generation Agent.is_predator
         Agent.is_alive Agent.age Agent.offspring_count Agent.x Agent.y
         Agent.set_offspring_count Agent.set_energy] in *.
    rewrite Hh7, Hh6.
    assert (Hlen : length (<[r := a6]> (Environment.heap s5) ++ [child])
                   = S (length (Environment.heap s))).
    { rewrite length_app, length_insert, L5. simpl. lia. }
    split; [| split].
    + eapply heap_frame_trans; [exact Fr5 |].
      eapply heap_frame_trans; [apply heap_frame_insert |].
      eapply heap_frame_trans; [apply heap_frame_app |].
      apply heap_frame_insert.
    + exists a7. split; [apply list_lookup_insert_eq; lia |].
      unfold acted, persists.
      repeat split;
        first [ congruence | lia
              | intros Hp; apply K4; congruence
              | intros Hd; apply K5, D5, D4, Hd ].
    + right. rewrite length_insert. split; [exact Hlen |].
      exists a7, child.
      split; [apply list_lookup_insert_eq; lia |].
      split.
      * rewrite list_lookup_insert_ne by lia.
        rewrite lookup_app_r by (rewrite length_insert; lia).
        rewrite length_insert, L5, Nat.sub_diag. reflexivity.
      * eapply born_of_parent; [| | | | exact Hborn]; congruence.
Qed.

(** *** The loop *)

Lemma acted_quiet (a b c : Agent.t) : acted a b -> quiet b c -> acted a c.
Proof.
  intros (Hp & Hage & Hx & Hy & Hoc) Hq.
  pose proof (quiet_persists _ _ Hq) as Hp'.
  apply quiet_fields in Hq.
  destruct Hq as (_ & X & Y & A & _ & _ & O & _ & _).
  split; [eapply persists_trans; eassumption |].
  rewrite X, Y, A, O. repeat split; assumption.
Qed.

Lemma quiet_acted (a b c : Agent.t) : quiet a b -> acted b c -> acted a c.
Proof.
  intros Hq (Hp & Hage & Hx & Hy & Hoc).
  pose proof (quiet_persists _ _ Hq) as Hp'.
  apply quiet_fields in Hq.
  destruct Hq as (_ & X & Y & A & _ & _ & O & _ & _).
  split; [eapply persists_trans; eassumption |].
  rewrite <- X, <- Y, <- A, <- O. repeat split; assumption.
Qed.

Lemma agent_turn_lookup (night : bool) (sun : Field) (r : nat)
    (s s' : Environment.loop) :
  Environment.agent_turn night sun r s = Some s' ->
  exists a, Environment.heap s !! r = Some a.
Proof.
  unfold Environment.agent_turn, Environment.photosynthesis_phase. intros H.
  apply bind_Some in H. destruct H as (s1 & H & _).
  apply bind_Some in H. destruct H as (a & Ha & _).
  exists a. exact Ha.
Qed.

(** Every object is acted upon once if its reference is in the list, and
    left quiet otherwise. *)
Lemma agent_loop_frame (night : bool) (sun : Field) (rs : list nat)
    (s s' : Environment.loop) :
  NoDup rs ->
  Environment.agent_loop night sun rs s = Some s' ->
  (length (Environment.heap s) <= length (Environment.heap s'))%nat
  /\ forall k a, Environment.heap s !! k = Some a ->
       exists a', Environment.heap s' !! k = Some a'
         /\ (k ∈ rs -> acted a a') /\ (k ∉ rs -> quiet a a').
Proof.
  revert s. induction rs as [| r rest IH]; intros s Hnd H.
  - injection H as <-. split; [lia |]. intros k a Ha. exists a.
    split; [exact Ha |]. split; [intros Hin; inversion Hin |].
    intros _. apply quiet_refl.
  - apply NoDup_cons in Hnd. destruct Hnd as [Hr Hnd].
    cbn [Environment.agent_loop] in H.
    apply bind_Some in H. destruct H as (s1 & E1 & H).
    destruct (agent_turn_lookup _ _ _ _ _ E1) as [ar Har].
    destruct (agent_turn_frame _ _ _ _ _ _ E1 Har)
      as ([L1 F1] & (ar' & Har' & Hact) & _).
    destruct (IH s1 Hnd H) as [L2 F2].
    split; [lia |]. intros k a Ha.
    destruct (decide (k = r)) as [-> | Hne].
    + rewrite Har in Ha. injection Ha as <-.
      destruct (F2 r ar' Har') as (a' & Ha' & _ & Hq).
      exists a'. split; [exact Ha' |]. split.
      * intros _. eapply acted_quiet; [exact Hact | apply Hq, Hr].
      * intros Hnot. exfalso. apply Hnot. left.
    + destruct (F1 k a Hne Ha) as (a1 & Ha1 & Hq1).
      destruct (F2 k a1 Ha1) as (a' & Ha' & Hin & Hout).
      exists a'. split; [exact Ha' |]. split.
      * intros Hk. apply elem_of_cons in Hk.
        destruct Hk as [-> | Hk]; [congruence |].
        eapply quiet_acted; [exact Hq1 | apply Hin, Hk].
      * intros Hk. eapply quiet_trans; [exact Hq1 |].
        apply Hout. intros Hk'. apply Hk. right. exact Hk'.
Qed.

(** Every object beyond the first [n] is the child of one of the first
    [n], which had its turn before. *)
Lemma agent_loop_children (night : bool) (sun : Field) (n : nat)
    (rs : list nat) (s s' : Environment.loop) :
  NoDup rs -> Forall (fun r => (r < n)%nat) rs ->
  (n <= length (Environment.heap s))%nat ->
  Environment.agent_loop night sun rs s = Some s' ->
  (forall k c, (n <= k)%nat -> Environment.heap s !! k = Some c ->
     exists j p, (j < n)%nat /\ (j ∉ rs)
                 /\ Environment.heap s !! j = Some p /\ born_of p c) ->
  forall k c, (n <= k)%nat -> Environment.heap s' !! k = Some c ->
    exists j p, (j < n)%nat /\ Environment.heap s' !! j = Some p
                /\ born_of p c.
Proof.
  revert s. induction rs as [| r rest IH]; intros s Hnd Hrs Hn H Hinv.
  - injection H as <-. intros k c Hk Hc.
    destruct (Hinv k c Hk Hc) as (j & p & Hj & _ & Hp & Hb).
    exists j, p. split; [exact Hj |]. split; [exact Hp | exact Hb].
  - apply NoDup_cons in Hnd. destruct Hnd as [Hr Hnd].
    apply Forall_cons in Hrs. destruct Hrs as [Hrn Hrs].
    cbn [Environment.agent_loop] in H.
    apply bind_Some in H. destruct H as (s1 & E1 & H).
    destruct (agent_turn_lookup _ _ _ _ _ E1) as [ar Har].
    destruct (agent_turn_frame _ _ _ _ _ _ E1 Har)
      as ([L1 F1] & _ & Hnew).
    apply (IH s1 Hnd Hrs ltac:(lia) H).
    intros k c1 Hk Hc1.
    destruct (Environment.heap s !! k) as [c |] eqn:Hc.
    + (* a child that was there before the turn *)
      destruct (F1 k c ltac:(lia) Hc) as (c' & Hc' & Hq).
      rewrite Hc1 in Hc'. injection Hc' as <-.
      destruct (Hinv k c Hk Hc) as (j & p & Hj & Hjr & Hp & Hb).
      assert (Hjne : j <> r) by (intros ->; apply Hjr; left).
      destruct (F1 j p Hjne Hp) as (p1 & Hp1 & Hqp).
      exists j, p1. split; [exact Hj |].
      split; [intros Hin; apply Hjr; right; exact Hin |].
      split; [exact Hp1 |].
      apply quiet_fields in Hqp.
      destruct Hqp as (_ & X & Y & _ & G & _ & _ & N & _).
      eapply born_of_child; [exact Hq |].
      eapply born_of_parent; [exact N | exact G | exact X | exact Y | exact Hb].
    + (* the child of this turn *)
      apply lookup_ge_None in Hc.
      pose proof (lookup_lt_Some _ _ _ Hc1) as Hk1.
      destruct Hnew as [Hl | (Hl & a' & c' & Ha' & Hc' & Hb)]; [lia |].
      assert (k = length (Environment.heap s)) by lia. subst k.
      rewrite Hc1 in Hc'. injection Hc' as <-.
      exists r, a'. split; [exact Hrn |]. split; [exact Hr |].
      split; [exact Ha' | exact Hb].
Qed.

Lemma mutate_genes_within (a : Agent.t) (g : RNG) :
  genes_within_bounds (Agent.genes a) ->
  genes_within_bounds (fst (Agent.mutate_genes a g)).
Proof.
  intros (H0 & H1 & H2 & H3 & H4 & H5). rewrite mutate_genes_unfold.
  cbv zeta. unfold genes_within_bounds.
  cbn [metabolism repro_threshold sense_range size
       photosynthesis_efficiency adhesion].
  repeat split;
    first [ apply mutate_real_within; [simpl; lra | assumption]
          | apply mutate_int_within; [simpl; lia | assumption] ].
Qed.

Lemma born_of_sound (p c : Agent.t) :
  sound_genes p -> born_of p c -> sound_genes c.
Proof.
  intros Hp ([g Hg] & _). unfold sound_genes. rewrite Hg.
  apply mutate_genes_within. exact Hp.
Qed.

Lemma agent_loop_sound (night : bool) (sun : Field) (rs : list nat)
    (s s' : Environment.loop) :
  Environment.agent_loop night sun rs s = Some s' ->
  Forall sound_genes (Environment.heap s) ->
  Forall sound_genes (Environment.heap s').
Proof.
  revert s. induction rs as [| r rest IH]; intros s H Hs.
  - injection H as <-. exact Hs.
  - cbn [Environment.agent_loop] in H.
    apply bind_Some in H. destruct H as (s1 & E1 & H).
    apply (IH s1 H).
    destruct (agent_turn_lookup _ _ _ _ _ E1) as [ar Har].
    destruct (agent_turn_frame _ _ _ _ _ _ E1 Har)
      as ([L1 F1] & (ar' & Har' & Hact) & Hnew).
    assert (Hsr : sound_genes ar').
    { destruct Hact as ((_ & Hg & _) & _). unfold sound_genes. rewrite Hg.
      exact (Forall_lookup_1 _ _ _ _ Hs Har). }
    apply Forall_lookup_2. intros k x Hx.
    destruct (Environment.heap s !! k) as [x0 |] eqn:Hx0.
    + destruct (decide (k = r)) as [-> | Hne].
      * rewrite Har' in Hx. injection Hx as <-. exact Hsr.
      * destruct (F1 k x0 Hne Hx0) as (x' & Hx' & Hq).
        rewrite Hx in Hx'. injection Hx' as <-.
        apply quiet_fields in Hq. unfold sound_genes.
        destruct Hq as (_ & _ & _ & _ & _ & _ & _ & -> & _).
        exact (Forall_lookup_1 _ _ _ _ Hs Hx0).
    + apply lookup_ge_None in Hx0.
      pose proof (lookup_lt_Some _ _ _ Hx) as Hk.
      destruct Hnew as [Hl | (Hl & a' & c' & Ha' & Hc' & Hb)]; [lia |].
      assert (k = length (Environment.heap s)) by lia. subst k.
      rewrite Hx in Hc'. injection Hc' as <-.
      rewrite Har' in Ha'. injection Ha' as <-.
      eapply born_of_sound; [exact Hsr | exact Hb].
Qed.

(* ===================================================================== *)
(** ** Further properties: construction and the life of an agent *)
(* ===================================================================== *)

(** X1.  [Environment()] raises no exception, whatever the generator draws:
    it builds [INITIAL_POPULATION] agents, each of them on the grid, alive,
    no predator, with energy 20.0, age 0, generation 1, no offspring and
    genes within [GENE_BOUNDS], over a nutrient field within
    [0, MAX_NUTRIENT], at time 0 and by day. *)
Theorem constructor_establishes_invariants (g : RNG) :
  exists self g',
    Environment.init g = Some (self, g')
    /\ length (Environment.agents self) = 100%nat
    /\ Forall (fun a => agent_in_grid a /\ sound_genes a /\ fresh_agent a)
              (Environment.agents self)
    /\ field_within 0 MAX_NUTRIENT (Environment.nutrients self)
    /\ Environment.sunlight_gradient self = Environment.init_sunlight
    /\ Environment.global_time self = 0%Z
    /\ Environment.is_night self = false.
Proof. exact (init_ok g). Qed.

Lemma seq_NoDup (n : nat) : NoDup (seq 0 n).
Proof. apply NoDup_ListNoDup, List.seq_NoDup. Qed.

Lemma run_loop_acts (self : Environment.t) (g : RNG) (s : Environment.loop) :
  Environment.run_loop self g = Some s ->
  forall k a, Environment.agents self !! k = Some a ->
    exists a', Environment.heap s !! k = Some a' /\ acted a a'.
Proof.
  unfold Environment.run_loop. intros H k a Ha.
  destruct (agent_loop_frame _ _ _ _ _ (seq_NoDup _) H) as [_ F].
  destruct (F k a Ha) as (a' & Ha' & Hin & _).
  exists a'. split; [exact Ha' |]. apply Hin.
  apply list_elem_of_In, in_seq. apply lookup_lt_Some in Ha. lia.
Qed.

Lemma run_loop_children (self : Environment.t) (g : RNG)
    (s : Environment.loop) :
  Environment.run_loop self g = Some s ->
  forall k c, (length (Environment.agents self) <= k)%nat ->
    Environment.heap s !! k = Some c ->
    exists j p, (j < length (Environment.agents self))%nat
                /\ Environment.heap s !! j = Some p /\ born_of p c.
Proof.
  unfold Environment.run_loop. intros H.
  eapply agent_loop_children; [apply seq_NoDup | | | exact H |].
  - apply seq_valid. reflexivity.
  - reflexivity.
  - intros k c Hk Hc. apply lookup_lt_Some in Hc.
    cbn [Environment.loop_start Environment.heap] in Hc. lia.
Qed.

(** X2.  In a tick every agent of the population has exactly one turn: it
    ages by one, moves by at most one cell along each axis, gets at most
    one offspring, keeps its identifier, genes and generation, stays a
    predator if it was one, and stays dead if it was dead. *)
Theorem every_agent_acts_once (self : Environment.t) (g : RNG) :
  Forall agent_in_grid (Environment.agents self) ->
  exists s, Environment.run_loop self g = Some s
    /\ forall k a, Environment.agents self !! k = Some a ->
         exists a', Environment.heap s !! k = Some a' /\ acted a a'.
Proof.
  intros H. destruct (run_loop_ok self g H) as (s & E & _).
  exists s. split; [exact E | exact (run_loop_acts self g s E)].
Qed.

Lemma every_agent_acts_once_witness :
  exists s, Environment.run_loop ambush steady_rng = Some s
    /\ forall k a, Environment.agents ambush !! k = Some a ->
         exists a', Environment.heap s !! k = Some a' /\ acted a a'.
Proof. exact (every_agent_acts_once ambush steady_rng ambush_in_grid). Defined.

(** X3.  Every object that the loop of a tick adds to the population is,
    at the end of that loop, the child of an agent of the old population:
    its genes are a mutation of the parent's, its generation is the
    parent's plus one, it stands on a cell of the grid that is an
    axis-aligned neighbour of the parent's cell, and it has had no turn:
    age 0, no predator, no offspring. *)
Theorem newborns_of_a_tick (self : Environment.t) (g : RNG) :
  Forall agent_in_grid (Environment.agents self) ->
  exists s, Environment.run_loop self g = Some s
    /\ forall k c, (length (Environment.agents self) <= k)%nat ->
         Environment.heap s !! k = Some c ->
         exists j p, (j < length (Environment.agents self))%nat
                     /\ Environment.heap s !! j = Some p /\ born_of p c.
Proof.
  intros H. destruct (run_loop_ok self g H) as (s & E & _).
  exists s. split; [exact E | exact (run_loop_children self g s E)].
Qed.

Lemma newborns_of_a_tick_witness :
  exists s, Environment.run_loop nursery steady_rng = Some s
    /\ forall k c, (length (Environment.agents nursery) <= k)%nat ->
         Environment.heap s !! k = Some c ->
         exists j p, (j < length (Environment.agents nursery))%nat
                     /\ Environment.heap s !! j = Some p /\ born_of p c.
Proof. exact (newborns_of_a_tick nursery steady_rng nursery_in_grid). Defined.

(** X4.  The turn of an agent changes nothing of any other agent but its
    energy (colony sharing) and its liveness (predation), and never brings
    a dead agent back to life. *)
Theorem turn_leaves_bystanders (night : bool) (sun : Field) (r : nat)
    (s : Environment.loop) :
  loop_ok s -> (r < length (Environment.heap s))%nat ->
  exists s', Environment.agent_turn night sun r s = Some s'
    /\ forall k a, k <> r -> Environment.heap s !! k = Some a ->
         exists a', Environment.heap s' !! k = Some a' /\ quiet a a'.
Proof.
  intros Hok Hr.
  destruct (agent_turn_ok night sun r s Hok Hr) as (s' & E & _).
  destruct (heap_lookup s r Hr) as [a Ha].
  destruct (agent_turn_frame _ _ _ _ _ _ E Ha) as ([_ F] & _).
  exists s'. split; [exact E | exact F].
Qed.

Lemma turn_leaves_bystanders_witness :
  exists s', Environment.agent_turn true Environment.init_sunlight 0
               (Environment.loop_start ambush steady_rng) = Some s'
    /\ forall k a, k <> 0%nat ->
         Environment.heap (Environment.loop_start ambush steady_rng) !! k
         = Some a ->
         exists a', Environment.heap s' !! k = Some a' /\ quiet a a'.
Proof.
  apply (turn_leaves_bystanders true Environment.init_sunlight 0
           (Environment.loop_start ambush steady_rng)
           (loop_start_ok ambush steady_rng ambush_in_grid)).
  simpl. lia.
Defined.

Lemma next_population_Forall (P : Agent.t -> Prop) (n : nat)
    (h : list Agent.t) :
  Forall P h -> Forall P (Environment.next_population n h).
Proof.
  intros H. unfold Environment.next_population.
  apply Forall_app_2; [| apply Forall_drop; exact H].
  apply Forall_forall. intros a Ha.
  apply list_elem_of_filter in Ha. destruct Ha as [_ Ha].
  revert a Ha. apply Forall_forall. apply Forall_take. exact H.
Qed.

Lemma update_agents_time (self self' : Environment.t) (g g' : RNG)
    (ev : list Environment.event) :
  Environment.update_agents self g = Some (self', ev, g') ->
  Environment.global_time self' = (Environment.global_time self + 1)%Z
  /\ Environment.is_night self'
     = Environment.night_at (Environment.global_time self + 1)
  /\ Environment.sunlight_gradient self' = Environment.sunlight_gradient self.
Proof.
  unfold Environment.update_agents. intros H.
  apply bind_Some in H. destruct H as (s & _ & H).
  apply bind_Some in H. destruct H as (grid' & _ & H).
  injection H as <- _ _. repeat split.
Qed.

(** A tick keeps the population on the grid with genes within bounds. *)
Lemma update_agents_sound (self : Environment.t) (g : RNG) :
  Forall agent_in_grid (Environment.agents self) ->
  Forall sound_genes (Environment.agents self) ->
  exists self' ev g',
    Environment.update_agents self g = Some (self', ev, g')
    /\ Forall agent_in_grid (Environment.agents self')
    /\ Forall sound_genes (Environment.agents self').
Proof.
  intros Hgrid Hsound.
  destruct (update_agents_ok self g Hgrid)
    as (s & self' & ev & g' & Es & E & Hok & Hpop & _).
  exists self', ev, g'. split; [exact E |]. rewrite Hpop.
  split; apply next_population_Forall; [exact (heap_in_grid s Hok) |].
  unfold Environment.run_loop in Es.
  eapply agent_loop_sound; [exact Es | exact Hsound].
Qed.

(** X5.  Genes never leave their bounds: from a population on the grid
    whose genes lie within [GENE_BOUNDS], the population after a tick,
    survivors and newborns, has genes within [GENE_BOUNDS]. *)
Theorem genes_stay_within_bounds (self : Environment.t) (g : RNG) :
  Forall agent_in_grid (Environment.agents self) ->
  Forall sound_genes (Environment.agents self) ->
  exists self' ev g',
    Environment.update_agents self g = Some (self', ev, g')
    /\ Forall sound_genes (Environment.agents self').
Proof.
  intros Hgrid Hsound.
  destruct (update_agents_sound self g Hgrid Hsound)
    as (self' & ev & g' & E & _ & Hs).
  exists self', ev, g'. split; [exact E | exact Hs].
Qed.

Lemma nursery_sound : Forall sound_genes (Environment.agents nursery).
Proof.
  repeat constructor; unfold within, within_int, Qle; simpl; lia.
Defined.

Lemma genes_stay_within_bounds_witness :
  exists self' ev g',
    Environment.update_agents nursery steady_rng = Some (self', ev, g')
    /\ Forall sound_genes (Environment.agents self').
Proof.
  exact (genes_stay_within_bounds nursery steady_rng nursery_in_grid
           nursery_sound).
Defined.

Lemma run_ticks_sound (n : nat) (words : nat -> Z -> Z -> Z)
    (self : Environment.t) (g : RNG) :
  Forall agent_in_grid (Environment.agents self) ->
  Forall sound_genes (Environment.agents self) ->
  exists self' g',
    run_ticks n words self g = Some (self', g')
    /\ Forall agent_in_grid (Environment.agents self')
    /\ Forall sound_genes (Environment.agents self')
    /\ Environment.global_time self'
       = (Environment.global_time self + Z.of_nat n)%Z
    /\ Environment.sunlight_gradient self'
       = Environment.sunlight_gradient self.
Proof.
  intros Hgrid Hsound. induction n as [| k IH].
  - exists self, g. cbn [run_ticks].
    split; [reflexivity |]. split; [exact Hgrid |]. split; [exact Hsound |].
    split; [lia | reflexivity].
  - destruct IH as (env1 & g1 & E1 & Hg1 & Hs1 & Ht1 & Hsun1).
    destruct (update_agents_sound
                (Environment.update_nutrients (words k) env1) g1 Hg1 Hs1)
      as (env2 & ev & g2 & E2 & Hg2 & Hs2).
    destruct (update_agents_time _ _ _ _ _ E2) as (Ht2 & _ & Hsun2).
    exists env2, g2. cbn [run_ticks]. rewrite E1.
    cbn [mbind option_bind fst snd]. unfold logic_update. rewrite E2.
    cbn [mbind option_bind fst snd].
    split; [reflexivity |]. split; [exact Hg2 |]. split; [exact Hs2 |].
    cbn [Environment.update_nutrients Environment.global_time
         Environment.sunlight_gradient] in Ht2, Hsun2.
    split; [lia | congruence].
Qed.

(** X6.  A simulation never raises: for every generator and every number
    [n] of frames, [Environment()] followed by [n] logic updates returns,
    with every agent on the grid, every gene within [GENE_BOUNDS], the
    sunlight table untouched and the clock at [n]. *)
Theorem simulation_runs_for_ever (g : RNG) (n : nat)
    (words : nat -> Z -> Z -> Z) :
  exists env g1 env' g',
    Environment.init g = Some (env, g1)
    /\ run_ticks n words env g1 = Some (env', g')
    /\ Forall agent_in_grid (Environment.agents env')
    /\ Forall sound_genes (Environment.agents env')
    /\ Environment.sunlight_gradient env' = Environment.init_sunlight
    /\ Environment.global_time env' = Z.of_nat n.
Proof.
  destruct (init_ok g) as (env & g1 & E & _ & Hall & _ & Hsun & Ht & _).
  destruct (run_ticks_sound n words env g1)
    as (env' & g' & E' & Hg & Hs & Ht' & Hsun').
  { eapply Forall_impl; [exact Hall |]. intros a Ha. apply Ha. }
  { eapply Forall_impl; [exact Hall |]. intros a Ha. apply Ha. }
  exists env, g1, env', g'. split; [exact E |]. split; [exact E' |].
  split; [exact Hg |]. split; [exact Hs |].
  split; [congruence | lia].
Qed.

(* ===================================================================== *)
(** ** The cost and the aim of [sense_and_move] *)
(* ===================================================================== *)

Lemma forage_cost (self : Agent.t) (cost : Q) (grid : Field) (w h : Z)
    (attached : bool) (g : RNG) :
  0 <= metabolism (Agent.genes self) ->
  let e' := Agent.energy (fst (fst (Agent.forage self cost grid w h
                                      attached g))) in
  Agent.energy self - cost - 0.5 * metabolism (Agent.genes self) <= e'
  /\ e' <= Agent.energy self - cost.
Proof.
  intros Hm. unfold Agent.forage.
  destruct attached; [cbn; split; lra |].
  destruct (Agent.scan _ grid w h) as [[bx by_] fb].
  destruct (fb && _); [cbn; split; lra |].
  destruct (random g) as [u g1].
  destruct (Qltb u 0.2); [| cbn; split; lra].
  destruct (choice _ _ g1) as [dx g2].
  destruct (choice _ _ g2) as [dy g3].
  destruct (_ && _ && _ && _); cbn; split; lra.
Qed.

(** X7.  [sense_and_move] always charges the agent: between 0.15 and 2
    times its metabolism, and at least its metabolism when it is no
    predator; a predator by day is dormant: it pays 0.15 times its
    metabolism, returns its own cell and draws no random number. *)
Theorem sense_and_move_cost (self : Agent.t) (grid : Field) (w h : Z)
    (night attached : bool) (g : RNG) :
  0 <= metabolism (Agent.genes self) ->
  let res := Agent.sense_and_move self grid w h night attached g in
  let e' := Agent.energy (fst (fst res)) in
  let m := metabolism (Agent.genes self) in
  Agent.energy self - 2 * m <= e'
  /\ e' <= Agent.energy self - 0.15 * m
  /\ (Agent.is_predator self = false -> e' <= Agent.energy self - m)
  /\ (Agent.is_predator self = true -> night = false ->
      e' == Agent.energy self - 0.15 * m
      /\ snd (fst res) = (Agent.x self, Agent.y self)
      /\ snd res = g).
Proof.
  intros Hm. unfold Agent.sense_and_move.
  unfold PREDATOR_METABOLISM_PENALTY, NIGHT_METABOLISM_FACTOR,
    PREDATOR_DAY_ACTIVITY.
  destruct (random g) as [u g1].
  destruct (Agent.is_predator self), night; cbn [negb andb];
    try destruct (Qltb NIGHT_MOVE_CHANCE u);
    try match goal with
    | |- context [Agent.forage self ?c grid w h attached ?r] =>
        pose proof (forage_cost self c grid w h attached r Hm) as [Hlo Hhi];
        cbv zeta in Hlo, Hhi
    end;
    cbv zeta; cbn [fst snd Agent.energy Agent.sub_energy Agent.set_energy];
    (split; [lra |]); (split; [lra |]);
    (split; [intros; first [discriminate | lra] |]);
    intros; first [discriminate | repeat split; lra ].
Qed.

Lemma sense_and_move_cost_witness :
  Agent.energy (fst (fst (Agent.sense_and_move (hunter 5 5)
                            (single_peak 6 5 10.0) GRID_WIDTH GRID_HEIGHT
                            true false steady_rng)))
  <= Agent.energy (hunter 5 5) - 0.15 * metabolism (Agent.genes (hunter 5 5)).
Proof.
  refine (proj1 (proj2 (sense_and_move_cost (hunter 5 5)
                          (single_peak 6 5 10.0) GRID_WIDTH GRID_HEIGHT
                          true false steady_rng _))).
  vm_compute. discriminate.
Defined.

(** *** [np.argmax] *)

Lemma argmax_from_spec (rest : list Q) (bi : nat) (bv : Q) (i : nat) :
  (bi < i)%nat ->
  let ri := argmax_from bi bv i rest in
  let V := if (ri =? bi)%nat then bv else nth (ri - i) rest 0 in
  (ri = bi \/ (i <= ri < i + length rest)%nat)
  /\ bv <= V
  /\ (ri <> bi -> bv < V)
  /\ (forall k, (k < length rest)%nat -> nth k rest 0 <= V)
  /\ (forall k, (i + k < ri)%nat -> nth k rest 0 < V).
Proof.
  revert bi bv i. induction rest as [| v rest IH]; intros bi bv i Hlt.
  - cbn [argmax_from]. rewrite Nat.eqb_refl. cbn [length].
    split; [left; reflexivity |]. split; [lra |].
    split; [congruence |]. split; intros k Hk; lia.
  - cbn [argmax_from]. case_Qltb bv v.
    + specialize (IH i v (S i) ltac:(lia)). cbv zeta in IH.
      set (ri := argmax_from i v (S i) rest) in *.
      destruct IH as (Hri & Hle & Hstrict & Hall & Hfirst).
      assert (Hne : (ri =? bi)%nat = false) by (apply Nat.eqb_neq; lia).
      cbv zeta. rewrite Hne.
      assert (HV : nth (ri - i) (v :: rest) 0
                   = if (ri =? i)%nat then v else nth (ri - S i) rest 0).
      { destruct (Nat.eqb_spec ri i) as [-> | Hd].
        - rewrite Nat.sub_diag. reflexivity.
        - replace (ri - i)%nat with (S (ri - S i)) by lia. reflexivity. }
      rewrite HV. cbn [length].
      split; [right; lia |]. split; [lra |]. split; [intros _; lra |].
      split.
      * intros [| k] Hk; cbn [nth]; [exact Hle | apply Hall; lia].
      * intros [| k] Hk; cbn [nth].
        -- apply Hstrict. lia.
        -- apply Hfirst. lia.
    + specialize (IH bi bv (S i) ltac:(lia)). cbv zeta in IH.
      set (ri := argmax_from bi bv (S i) rest) in *.
      destruct IH as (Hri & Hle & Hstrict & Hall & Hfirst).
      assert (HV : (if (ri =? bi)%nat then bv else nth (ri - i) (v :: rest) 0)
                   = if (ri =? bi)%nat then bv else nth (ri - S i) rest 0).
      { destruct (Nat.eqb_spec ri bi) as [-> | Hd]; [reflexivity |].
        replace (ri - i)%nat with (S (ri - S i)) by lia. reflexivity. }
      cbv zeta. rewrite HV. cbn [length].
      split; [lia |]. split; [exact Hle |]. split; [exact Hstrict |].
      split.
      * intros [| k] Hk; cbn [nth]; [lra | apply Hall; lia].
      * intros [| k] Hk; cbn [nth].
        -- assert (ri <> bi) by lia. specialize (Hstrict H). lra.
        -- apply Hfirst. lia.
Qed.

(** [argmax] returns the index of a maximum, and of the first one. *)
Lemma argmax_spec (l : list Q) :
  (0 < length l)%nat ->
  (argmax l < length l)%nat
  /\ (forall k, (k < length l)%nat -> nth k l 0 <= nth (argmax l) l 0)
  /\ (forall k, (k < argmax l)%nat -> nth k l 0 < nth (argmax l) l 0).
Proof.
  destruct l as [| v rest]; cbn [length]; [lia |]. intros _.
  pose proof (argmax_from_spec rest 0 v 1 ltac:(lia)) as H.
  cbv zeta in H. cbn [argmax].
  set (ri := argmax_from 0 v 1 rest) in *.
  destruct H as (Hri & Hle & Hstrict & Hall & Hfirst).
  assert (HV : nth ri (v :: rest) 0
               = if (ri =? 0)%nat then v else nth (ri - 1) rest 0).
  { destruct ri as [| k]; [reflexivity |].
    cbn [nth Nat.eqb]. replace (S k - 1)%nat with k by lia. reflexivity. }
  rewrite HV. split; [lia |]. split.
  - intros [| k] Hk; cbn [nth]; [exact Hle | apply Hall; lia].
  - intros [| k] Hk; cbn [nth].
    + apply Hstrict. lia.
    + apply Hfirst. lia.
Qed.

(** *** The patch of [scan] *)

Lemma nth_concat_rows {A B : Type} (f : A -> B -> Q) (rows : list A)
    (cols : list B) (i j : nat) (da : A) (db : B) :
  (i < length rows)%nat -> (j < length cols)%nat ->
  nth (i * length cols + j)
      (concat (map (fun r => map (f r) cols) rows)) 0
  = f (nth i rows da) (nth j cols db).
Proof.
  revert i. induction rows as [| r rows IH]; intros i Hi Hj;
    cbn [length] in Hi; [lia |].
  cbn [map concat]. destruct i as [| i].
  - cbn [Nat.mul Nat.add nth]. rewrite app_nth1 by (rewrite length_map; lia).
    rewrite (nth_indep _ 0 (f r db)) by (rewrite length_map; lia).
    apply map_nth.
  - rewrite app_nth2 by (rewrite length_map; lia).
    rewrite length_map.
    replace (S i * length cols + j - length cols)%nat
      with (i * length cols + j)%nat by lia.
    cbn [nth]. apply IH; lia.
Qed.

Lemma slice_bound_id (n i : Z) :
  (0 <= i <= n)%Z -> slice_bound n i = i.
Proof. intros H. unfold slice_bound. destruct (i <? 0)%Z eqn:E; lia. Qed.

Lemma nth_slice (n a b : Z) (k : nat) (d : Z) :
  (0 <= a <= n)%Z -> (0 <= b <= n)%Z ->
  (k < Z.to_nat (b - a))%nat ->
  nth k (slice n a b) d = (a + Z.of_nat k)%Z.
Proof.
  intros Ha Hb Hk. unfold slice. rewrite !slice_bound_id by lia.
  rewrite (nth_indep _ d (a + Z.of_nat 0)%Z)
    by (rewrite length_map, length_seq; lia).
  rewrite (map_nth (fun k => (a + Z.of_nat k)%Z)).
  rewrite seq_nth by lia. reflexivity.
Qed.

Lemma flat_index_lt (a b nr nc : nat) :
  (a < nr)%nat -> (b < nc)%nat -> (a * nc + b < nr * nc)%nat.
Proof.
  intros Ha Hb. apply Nat.lt_le_trans with (S a * nc)%nat; [cbn; lia |].
  apply Nat.mul_le_mono_r. lia.
Qed.

Lemma flat_index_before (a b a' b' nc : nat) :
  (b < nc)%nat ->
  (a < a' \/ (a = a' /\ b < b'))%nat ->
  (a * nc + b < a' * nc + b')%nat.
Proof.
  intros Hb [Hlt | [-> Hlt]]; [| lia].
  apply Nat.lt_le_trans with (S a * nc)%nat; [cbn; lia |].
  apply Nat.le_trans with (a' * nc)%nat; [| lia].
  apply Nat.mul_le_mono_r. lia.
Qed.

(** The cell that the scan returns, in terms of the window of the agent. *)
Lemma scan_spec (self : Agent.t) (grid : Field) :
  agent_in_grid self ->
  (0 <= sense_range (Agent.genes self))%Z ->
  let res := Agent.scan self grid GRID_WIDTH GRID_HEIGHT in
  let bx := fst (fst res) in
  let by_ := snd (fst res) in
  in_grid bx by_
  /\ in_window self bx by_
  /\ snd res = Qltb (-1.0) (grid bx by_)
  /\ forall i j, in_grid i j -> in_window self i j ->
       grid i j <= grid bx by_
       /\ (scanned_before i j bx by_ -> grid i j < grid bx by_).
Proof.
  intros [Hx Hy] Hr. unfold Agent.scan.
  set (r := sense_range (Agent.genes self)) in *.
  set (x_min := Z.max 0 (Agent.x self - r)).
  set (x_max := Z.min GRID_WIDTH (Agent.x self + r + 1)).
  set (y_min := Z.max 0 (Agent.y self - r)).
  set (y_max := Z.min GRID_HEIGHT (Agent.y self + r + 1)).
  assert (Hxm : (0 <= x_min <= Agent.x self)%Z) by (subst x_min; lia).
  assert (HxM : (Agent.x self < x_max <= GRID_WIDTH)%Z) by (subst x_max; lia).
  assert (Hym : (0 <= y_min <= Agent.y self)%Z) by (subst y_min; lia).
  assert (HyM : (Agent.y self < y_max <= GRID_HEIGHT)%Z) by (subst y_max; lia).
  assert (Hxw : forall i, (x_min <= i < x_max)%Z
                 <-> ((0 <= i < GRID_WIDTH)%Z
                      /\ (Z.abs (i - Agent.x self) <= r)%Z))
    by (intros i; subst x_min x_max; lia).
  assert (Hyw : forall j, (y_min <= j < y_max)%Z
                 <-> ((0 <= j < GRID_HEIGHT)%Z
                      /\ (Z.abs (j - Agent.y self) <= r)%Z))
    by (intros j; subst y_min y_max; lia).
  clearbody x_min x_max y_min y_max.
  unfold sub_array.
  set (rows := slice GRID_WIDTH x_min x_max).
  set (cols := slice GRID_HEIGHT y_min y_max).
  assert (Hnr : length rows = Z.to_nat (x_max - x_min)).
  { subst rows. rewrite length_slice, !slice_bound_id by lia. reflexivity. }
  assert (Hnc : length cols = Z.to_nat (y_max - y_min)).
  { subst cols. rewrite length_slice, !slice_bound_id by lia. reflexivity. }
  set (flat := concat (map (fun i => map (fun j => grid i j) cols) rows)).
  assert (Hflat : length flat = (length rows * length cols)%nat)
    by apply (length_concat_rows grid).
  assert (Hcell : forall a b, (a < length rows)%nat -> (b < length cols)%nat ->
            nth (a * length cols + b) flat 0
            = grid (x_min + Z.of_nat a)%Z (y_min + Z.of_nat b)%Z).
  { intros a b Ha Hb. subst flat.
    transitivity (grid (nth a rows 0%Z) (nth b cols 0%Z));
      [exact (nth_concat_rows grid rows cols a b 0%Z 0%Z Ha Hb) |].
    subst rows cols. rewrite !nth_slice by lia. reflexivity. }
  assert (Hpos : (0 < length flat)%nat).
  { rewrite Hflat. apply Nat.mul_pos_pos; lia. }
  destruct (0 <? Z.of_nat (length flat))%Z eqn:Hsize;
    [| apply Z.ltb_ge in Hsize; lia].
  destruct (argmax_spec flat Hpos) as (Hidx & Hmax & Hfirst).
  set (m := argmax flat) in *.
  set (nc := length cols) in *.
  assert (Hnc0 : (nc <> 0)%nat) by lia.
  pose proof (Nat.div_mod_eq m nc) as Hdm.
  pose proof (Nat.mod_upper_bound m nc Hnc0) as Hly.
  assert (Hlx : (m / nc < length rows)%nat)
    by (apply Nat.Div0.div_lt_upper_bound; lia).
  set (lx := (m / nc)%nat) in *. set (ly := (m mod nc)%nat) in *.
  assert (Hm : m = (lx * nc + ly)%nat) by lia.
  assert (Hbest : nth m flat 0
                  = grid (x_min + Z.of_nat lx)%Z (y_min + Z.of_nat ly)%Z).
  { rewrite Hm. apply Hcell; assumption. }
  cbv zeta. cbn [fst snd]. rewrite Hbest.
  assert (Hbx : (x_min <= x_min + Z.of_nat lx < x_max)%Z) by lia.
  assert (Hby : (y_min <= y_min + Z.of_nat ly < y_max)%Z) by lia.
  apply Hxw in Hbx. apply Hyw in Hby.
  split; [split; tauto |]. split; [split; tauto |].
  split; [reflexivity |].
  intros i j [Hi Hj] [Hwi Hwj].
  assert (Hi' : (x_min <= i < x_max)%Z) by (apply Hxw; tauto).
  assert (Hj' : (y_min <= j < y_max)%Z) by (apply Hyw; tauto).
  set (a := Z.to_nat (i - x_min)). set (b := Z.to_nat (j - y_min)).
  assert (Ha : (a < length rows)%nat) by lia.
  assert (Hb : (b < nc)%nat) by lia.
  assert (Hab : nth (a * nc + b) flat 0 = grid i j).
  { rewrite (Hcell a b Ha Hb). f_equal; lia. }
  rewrite <- Hab. split.
  - rewrite <- Hbest. apply Hmax. rewrite Hflat.
    apply flat_index_lt; assumption.
  - intros Hbefore. rewrite <- Hbest. apply Hfirst.
    rewrite Hm. apply flat_index_before; [exact Hb |].
    destruct Hbefore as [Hlt | [Heq Hlt]]; [left | right]; lia.
Qed.

(** X8.  The scan of an agent on the grid returns a cell of its sensing
    window (clipped to the grid) that holds the largest nutrient value of
    the window, and the first such cell in row-major order; the returned
    flag says whether that value exceeds -1. *)
Theorem scan_finds_first_maximum (self : Agent.t) (grid : Field) :
  agent_in_grid self ->
  (0 <= sense_range (Agent.genes self))%Z ->
  let res := Agent.scan self grid GRID_WIDTH GRID_HEIGHT in
  let bx := fst (fst res) in
  let by_ := snd (fst res) in
  in_grid bx by_
  /\ in_window self bx by_
  /\ snd res = Qltb (-1.0) (grid bx by_)
  /\ forall i j, in_grid i j -> in_window self i j ->
       grid i j <= grid bx by_
       /\ (scanned_before i j bx by_ -> grid i j < grid bx by_).
Proof. exact (scan_spec self grid). Qed.

Lemma scan_finds_first_maximum_witness :
  in_grid (fst (fst (Agent.scan (browser 5 5) (single_peak 6 5 10.0)
                       GRID_WIDTH GRID_HEIGHT)))
          (snd (fst (Agent.scan (browser 5 5) (single_peak 6 5 10.0)
                       GRID_WIDTH GRID_HEIGHT))).
Proof.
  refine (proj1 (scan_finds_first_maximum (browser 5 5)
                   (single_peak 6 5 10.0) _ _)).
  - vm_compute. repeat split; discriminate.
  - vm_compute. discriminate.
Defined.

(** X9.  By day an agent that is no predator and is not attached, and
    that has in its sensing window a cell of the grid richer than its own
    (and holding more than -1), takes one step towards the richest cell of
    the window: along both axes at once, so that its distance to that cell
    shrinks by one; it pays 1.5 times its metabolism and draws no random
    number. *)
Theorem prey_steps_towards_the_richest_cell (self : Agent.t) (grid : Field)
    (g : RNG) (i j : Z) :
  agent_in_grid self ->
  (0 <= sense_range (Agent.genes self))%Z ->
  Agent.is_predator self = false ->
  in_grid i j -> in_window self i j ->
  grid (Agent.x self) (Agent.y self) < grid i j -> -1.0 < grid i j ->
  let res := Agent.sense_and_move self grid GRID_WIDTH GRID_HEIGHT
                                  false false g in
  let best := fst (Agent.scan self grid GRID_WIDTH GRID_HEIGHT) in
  let target := snd (fst res) in
  target = ((Agent.x self + Z.sgn (fst best - Agent.x self))%Z,
            (Agent.y self + Z.sgn (snd best - Agent.y self))%Z)
  /\ Z.max (Z.abs (fst best - fst target)) (Z.abs (snd best - snd target))
     = (Z.max (Z.abs (fst best - Agent.x self))
              (Z.abs (snd best - Agent.y self)) - 1)%Z
  /\ grid (Agent.x self) (Agent.y self) < grid (fst best) (snd best)
  /\ Agent.energy (fst (fst res))
     == Agent.energy self - 1.5 * metabolism (Agent.genes self)
  /\ snd res = g.
Proof.
  intros Hin Hr Hp Hij Hw Hricher Hpos.
  unfold Agent.sense_and_move. rewrite Hp. unfold Agent.forage.
  cbv zeta.
  set (self1 := Agent.sub_energy (metabolism (Agent.genes self)) self).
  change (Agent.scan self1 grid GRID_WIDTH GRID_HEIGHT)
    with (Agent.scan self grid GRID_WIDTH GRID_HEIGHT).
  destruct (scan_spec self grid Hin Hr) as (_ & _ & Hfb & Hmax).
  cbv zeta in Hfb, Hmax.
  destruct (Agent.scan self grid GRID_WIDTH GRID_HEIGHT) as [[bx by_] fb].
  cbn [fst snd] in *.
  destruct (Hmax i j Hij Hw) as [Hle _].
  assert (Hbest : grid (Agent.x self) (Agent.y self) < grid bx by_) by lra.
  assert (Hne : negb (bx =? Agent.x self)%Z || negb (by_ =? Agent.y self)%Z
                = true).
  { destruct (Z.eqb_spec bx (Agent.x self)) as [-> | _]; [| reflexivity].
    destruct (Z.eqb_spec by_ (Agent.y self)) as [-> | _]; [| reflexivity].
    lra. }
  assert (Hfb' : fb = true) by (rewrite Hfb; apply Qltb_lt; lra).
  change (Agent.x self1) with (Agent.x self).
  change (Agent.y self1) with (Agent.y self).
  rewrite Hfb', Hne. cbn [andb fst snd].
  split; [reflexivity |]. split.
  - unfold sign.
    destruct (Z.eqb_spec bx (Agent.x self)) as [Hx | Hx];
      destruct (Z.eqb_spec by_ (Agent.y self)) as [Hy | Hy];
      cbn in Hne; try discriminate Hne; lia.
  - split; [exact Hbest |]. split; [cbn; ring | reflexivity].
Qed.

Lemma prey_steps_towards_the_richest_cell_witness :
  snd (Agent.sense_and_move (browser 5 5) (single_peak 6 5 10.0)
         GRID_WIDTH GRID_HEIGHT false false steady_rng)
  = steady_rng.
Proof.
  refine (proj2 (proj2 (proj2 (proj2
            (prey_steps_towards_the_richest_cell (browser 5 5)
               (single_peak 6 5 10.0) steady_rng 6 5 _ _ _ _ _ _ _))))).
  - vm_compute. repeat split; discriminate.
  - vm_compute. discriminate.
  - reflexivity.
  - vm_compute. repeat split; discriminate.
  - vm_compute. split; discriminate.
  - vm_compute. reflexivity.
  - vm_compute. reflexivity.
Defined.

(* ===================================================================== *)
(** ** [handle_colony] in general *)
(* ===================================================================== *)

Lemma total_energy_alter (f : Agent.t -> Agent.t) (d : Q) (h : list Agent.t)
    (k : nat) :
  (forall a, Agent.energy (f a) == Agent.energy a + d) ->
  (k < length h)%nat ->
  total_energy (alter f k h) == total_energy h + d.
Proof.
  intros Hf. revert k. induction h as [| a h IH]; intros k Hk;
    cbn [length] in Hk; [lia |].
  destruct k as [| k].
  - change (alter f 0%nat (a :: h)) with (f a :: h).
    cbn [total_energy fold_right]. rewrite Hf. ring.
  - change (alter f (S k) (a :: h)) with (a :: alter f k h).
    cbn [total_energy fold_right].
    change (fold_right _ 0 (alter f k h)) with (total_energy (alter f k h)).
    rewrite IH by lia. unfold total_energy. ring.
Qed.

Lemma colony_loop_total (neighbors : list nat) (self : nat)
    (attached b : bool) (h h' : list Agent.t) :
  Agent.colony_loop self neighbors attached h = Some (b, h') ->
  total_energy h' == total_energy h.
Proof.
  revert attached h.
  induction neighbors as [| other rest IH]; intros attached h H.
  - injection H as _ <-. reflexivity.
  - cbn [Agent.colony_loop] in H.
    apply bind_Some in H. destruct H as (sa & Hsa & H).
    apply bind_Some in H. destruct H as (oa & Hoa & H).
    destruct (Qle_bool 0.5 (adhesion (Agent.genes oa))); [| eauto].
    apply IH in H. rewrite H.
    destruct (Qltb 1.0 _); [| reflexivity].
    apply lookup_lt_Some in Hsa, Hoa.
    set (t := (Agent.energy sa - Agent.energy oa) * COLONY_SHARING_RATE * 0.5).
    rewrite (total_energy_alter (Agent.add_energy t) t)
      by (try rewrite length_alter; try exact Hoa; intros a; cbn; ring).
    rewrite (total_energy_alter (Agent.sub_energy t) (- t))
      by (try exact Hsa; intros a; cbn; ring).
    ring.
Qed.

(** X10.  Whatever the neighbours, [handle_colony] only moves energy
    around: the energy held by all agents together is the same before and
    after. *)
Theorem colony_conserves_energy (self : nat) (neighbors : list nat)
    (h h' : list Agent.t) (attached : bool) :
  Agent.handle_colony self neighbors h = Some (attached, h') ->
  total_energy h' == total_energy h.
Proof.
  unfold Agent.handle_colony. intros H.
  apply bind_Some in H. destruct H as (sa & Hsa & H).
  destruct (Qltb (adhesion (Agent.genes sa)) 0.5).
  - injection H as _ <-. reflexivity.
  - eapply colony_loop_total. exact H.
Qed.

Lemma colony_conserves_energy_witness :
  exists h',
    Agent.handle_colony 0 [1%nat] [sticky_rich; sticky_poor] = Some (true, h')
    /\ total_energy h' == total_energy [sticky_rich; sticky_poor].
Proof.
  eexists. split; [vm_compute; reflexivity |].
  apply (colony_conserves_energy 0 [1%nat] [sticky_rich; sticky_poor] _ true).
  vm_compute. reflexivity.
Defined.

Lemma stickyb_alter_energy (f : Agent.t -> Agent.t) (h : list Agent.t)
    (k o : nat) :
  (forall a, Agent.genes (f a) = Agent.genes a) ->
  stickyb (alter f k h) o = stickyb h o.
Proof.
  intros Hf. unfold stickyb.
  destruct (decide (k = o)) as [-> | Hne].
  - rewrite list_lookup_alter_eq. destruct (h !! o) as [a |]; [| reflexivity].
    change (f <$> Some a) with (Some (f a)). cbv beta iota.
    rewrite Hf. reflexivity.
  - rewrite list_lookup_alter_ne by exact Hne. reflexivity.
Qed.

Lemma colony_loop_attached (neighbors : list nat) (self : nat)
    (attached b : bool) (h h' : list Agent.t) :
  Agent.colony_loop self neighbors attached h = Some (b, h') ->
  b = attached || existsb (stickyb h) neighbors.
Proof.
  revert attached h.
  induction neighbors as [| other rest IH]; intros attached h H.
  - injection H as <- _. cbn. rewrite orb_false_r. reflexivity.
  - cbn [Agent.colony_loop] in H.
    apply bind_Some in H. destruct H as (sa & Hsa & H).
    apply bind_Some in H. destruct H as (oa & Hoa & H).
    cbn [existsb]. unfold stickyb at 1. rewrite Hoa.
    assert (Hrest : forall h0,
              h0 = h
              \/ (exists t, h0 = alter (Agent.add_energy t) other
                                (alter (Agent.sub_energy t) self h)) ->
              existsb (stickyb h0) rest = existsb (stickyb h) rest).
    { intros h0 [-> | [t ->]]; [reflexivity |].
      clear. induction rest as [| r rest IHr]; [reflexivity |].
      cbn [existsb]. rewrite IHr.
      rewrite !stickyb_alter_energy by (intros a; reflexivity).
      reflexivity. }
    destruct (Qle_bool 0.5 (adhesion (Agent.genes oa))).
    + apply IH in H. rewrite H. cbn [orb]. rewrite orb_true_r. reflexivity.
    + apply IH in H. rewrite H. reflexivity.
Qed.

Lemma stickyb_sticky (h : list Agent.t) (k : nat) :
  stickyb h k = true <-> sticky h k.
Proof.
  unfold stickyb, sticky. split.
  - destruct (h !! k) as [a |]; [| discriminate].
    intros H. exists a. split; [reflexivity |]. apply Qle_bool_iff. exact H.
  - intros (a & -> & Ha). apply Qle_bool_iff. exact Ha.
Qed.

(** X11.  [handle_colony] reports the caller as attached exactly when the
    caller is sticky and at least one of the given neighbours is. *)
Theorem attached_iff_sticky_pair (self : nat) (neighbors : list nat)
    (h h' : list Agent.t) (attached : bool) :
  Agent.handle_colony self neighbors h = Some (attached, h') ->
  attached = true
  <-> (sticky h self /\ exists o, In o neighbors /\ sticky h o).
Proof.
  unfold Agent.handle_colony. intros H.
  apply bind_Some in H. destruct H as (sa & Hsa & H).
  case_Qltb (adhesion (Agent.genes sa)) 0.5.
  - injection H as <- _. split; [discriminate |].
    intros [(a & Ha & Hge) _]. rewrite Hsa in Ha. injection Ha as <-. lra.
  - apply colony_loop_attached in H. cbn [orb] in H. rewrite H.
    rewrite existsb_exists. split.
    + intros (o & Hin & Ho). split.
      * exists sa. split; [exact Hsa | lra].
      * exists o. split; [exact Hin | apply stickyb_sticky; exact Ho].
    + intros [_ (o & Hin & Ho)]. exists o.
      split; [exact Hin | apply stickyb_sticky; exact Ho].
Qed.

Lemma attached_iff_sticky_pair_witness :
  sticky [sticky_rich; sticky_poor] 0
  /\ exists o, In o [1%nat] /\ sticky [sticky_rich; sticky_poor] o.
Proof.
  refine (proj1 (attached_iff_sticky_pair 0 [1%nat]
                   [sticky_rich; sticky_poor] _ true _) eq_refl).
  vm_compute. reflexivity.
Defined.

(** X12.  Two distinct sticky agents whose energies differ by more than
    1.0: one colony interaction moves a quarter of the difference from the
    richer to the poorer one, so that the gap between them halves and the
    richer one stays the richer. *)
Theorem colony_sharing_halves_gap (h : list Agent.t) (self other : nat)
    (s o : Agent.t) :
  h !! self = Some s -> h !! other = Some o -> self <> other ->
  0.5 <= adhesion (Agent.genes s) -> 0.5 <= adhesion (Agent.genes o) ->
  1.0 < py_abs (Agent.energy s - Agent.energy o) ->
  exists h' s' o',
    Agent.handle_colony self [other] h = Some (true, h')
    /\ h' !! self = Some s' /\ h' !! other = Some o'
    /\ Agent.energy s' - Agent.energy o'
       == (Agent.energy s - Agent.energy o) * 0.5
    /\ Agent.energy s' + Agent.energy o'
       == Agent.energy s + Agent.energy o
    /\ (forall k, k <> self -> k <> other -> h' !! k = h !! k).
Proof.
  intros Hs Ho Hne Has Hao Hdiff.
  set (t := (Agent.energy s - Agent.energy o) * COLONY_SHARING_RATE * 0.5).
  exists (alter (Agent.add_energy t) other (alter (Agent.sub_energy t) self h)),
    (Agent.sub_energy t s), (Agent.add_energy t o).
  split; [| split; [| split; [| split; [| split]]]].
  - unfold Agent.handle_colony. rewrite Hs. cbn [mbind option_bind].
    apply Qltb_ge in Has. rewrite Has.
    cbn [Agent.colony_loop]. rewrite Hs, Ho. cbn [mbind option_bind].
    apply Qle_bool_iff in Hao. rewrite Hao.
    apply Qltb_lt in Hdiff. rewrite Hdiff. reflexivity.
  - rewrite list_lookup_alter_ne by congruence.
    rewrite list_lookup_alter_eq, Hs. reflexivity.
  - rewrite list_lookup_alter_eq, list_lookup_alter_ne, Ho by exact Hne.
    reflexivity.
  - subst t. unfold COLONY_SHARING_RATE. cbn. ring.
  - cbn. ring.
  - intros k Hk1 Hk2. rewrite !list_lookup_alter_ne by congruence.
    reflexivity.
Qed.

Lemma colony_sharing_halves_gap_witness :
  exists h' s' o',
    Agent.handle_colony 0 [1%nat] [sticky_rich; sticky_poor] = Some (true, h')
    /\ h' !! 0%nat = Some s' /\ h' !! 1%nat = Some o'
    /\ Agent.energy s' - Agent.energy o'
       == (Agent.energy sticky_rich - Agent.energy sticky_poor) * 0.5
    /\ Agent.energy s' + Agent.energy o'
       == Agent.energy sticky_rich + Agent.energy sticky_poor
    /\ (forall k, k <> 0%nat -> k <> 1%nat ->
          h' !! k = [sticky_rich; sticky_poor] !! k).
Proof.
  apply (colony_sharing_halves_gap [sticky_rich; sticky_poor] 0 1
           sticky_rich sticky_poor);
    first [reflexivity | lia | vm_compute; discriminate].
Defined.

(* ===================================================================== *)
(** ** [update_nutrients]: range and total *)
(* ===================================================================== *)

Lemma clip_id (v lo hi : Q) :
  lo <= v -> v <= hi -> Environment.clip v lo hi == v.
Proof.
  intros Hlo Hhi. unfold Environment.clip, py_min, py_max.
  case_Qltb v lo; case_Qltb hi v; try case_Qltb hi lo; lra.
Qed.

Lemma clip_mono (v lo hi a b : Q) :
  lo <= hi -> a <= v -> v <= b -> lo <= b -> a <= hi ->
  a <= Environment.clip v lo hi /\ Environment.clip v lo hi <= b.
Proof.
  intros Hb Ha Hv Hlob Hahi. unfold Environment.clip, py_min, py_max.
  case_Qltb v lo; [case_Qltb hi lo | case_Qltb hi v]; split; lra.
Qed.

(** One cell of the updated array, before the clamp, in terms of the
    regenerated array and its four neighbours on the torus. *)
Lemma update_field_cell (words : Z -> Z -> Z) (a : Field) (x y : Z) :
  in_grid x y ->
  Environment.update_field NUTRIENT_SPAWN_RATE DIFFUSION_FACTOR
                           NUTRIENT_DECAY words a x y
  = Environment.clip (diffused (regenerated words a) x y * NUTRIENT_DECAY)
                     0 MAX_NUTRIENT.
Proof.
  intros [Hx Hy].
  unfold Environment.update_field, Environment.pad_wrap, diffused,
    regenerated, spawns.
  cbv beta zeta.
  replace ((y + 1 - 1) mod GRID_HEIGHT)%Z with y
    by (rewrite Z.add_simpl_r, Z.mod_small; lia).
  replace ((x + 1 - 1) mod GRID_WIDTH)%Z with x
    by (rewrite Z.add_simpl_r, Z.mod_small; lia).
  replace (x + 2 - 1)%Z with (x + 1)%Z by lia.
  replace (y + 2 - 1)%Z with (y + 1)%Z by lia.
  reflexivity.
Qed.

Lemma mod_in_grid (x y : Z) : in_grid (x mod GRID_WIDTH) (y mod GRID_HEIGHT).
Proof.
  split; apply Z.mod_pos_bound; reflexivity.
Qed.

Lemma regenerated_within (words : Z -> Z -> Z) (a : Field) (lo hi : Q) :
  field_within lo hi a -> field_within lo (hi + 2.0) (regenerated words a).
Proof.
  intros Ha x y Hxy. destruct (Ha x y Hxy) as [H1 H2].
  unfold regenerated. destruct (spawns words x y); split; lra.
Qed.

Lemma diffused_within (a : Field) (lo hi : Q) :
  field_within lo hi a -> field_within lo hi (diffused a).
Proof.
  intros Ha x y [Hx Hy]. unfold diffused, DIFFUSION_FACTOR.
  pose proof (Ha x y (conj Hx Hy)) as [C1 C2].
  pose proof (Z.mod_pos_bound (x - 1) GRID_WIDTH eq_refl) as Hl.
  pose proof (Z.mod_pos_bound (x + 1) GRID_WIDTH eq_refl) as Hr.
  pose proof (Z.mod_pos_bound (y - 1) GRID_HEIGHT eq_refl) as Hu.
  pose proof (Z.mod_pos_bound (y + 1) GRID_HEIGHT eq_refl) as Hd.
  pose proof (Ha _ y (conj Hl Hy)) as [L1 L2].
  pose proof (Ha _ y (conj Hr Hy)) as [R1 R2].
  pose proof (Ha x _ (conj Hx Hu)) as [U1 U2].
  pose proof (Ha x _ (conj Hx Hd)) as [D1 D2].
  split; lra.
Qed.

(** X13.  One call of [update_nutrients] on a field whose cells lie in
    [lo, hi], with [0 <= lo] and [hi <= MAX_NUTRIENT]: no cell falls below
    [NUTRIENT_DECAY * lo] and none rises above
    [NUTRIENT_DECAY * (hi + 2.0)]: diffusion creates no new extremes. *)
Theorem update_nutrients_range (words : Z -> Z -> Z) (self : Environment.t)
    (lo hi : Q) :
  0 <= lo -> hi <= MAX_NUTRIENT ->
  field_within lo hi (Environment.nutrients self) ->
  field_within (NUTRIENT_DECAY * lo) (NUTRIENT_DECAY * (hi + 2.0))
    (Environment.nutrients (Environment.update_nutrients words self)).
Proof.
  intros Hlo Hhi Ha x y Hxy.
  unfold Environment.update_nutrients. cbn [Environment.nutrients].
  rewrite update_field_cell by exact Hxy.
  pose proof (diffused_within _ _ _
                (regenerated_within words _ _ _ Ha) x y Hxy) as [D1 D2].
  pose proof (Ha x y Hxy) as [A1 A2].
  unfold NUTRIENT_DECAY, MAX_NUTRIENT in *.
  apply clip_mono; lra.
Qed.

Lemma update_nutrients_range_witness :
  field_within (NUTRIENT_DECAY * 3.0) (NUTRIENT_DECAY * (3.0 + 2.0))
    (Environment.nutrients
       (Environment.update_nutrients (fun _ _ => 0%Z)
          (Environment.mk (fun _ _ => 3.0) Environment.init_sunlight [] 0
                          false))).
Proof.
  apply update_nutrients_range; [vm_compute; discriminate
                                | vm_compute; discriminate |].
  intros x y _. cbn [Environment.nutrients]. split; lra.
Defined.

(** *** Sums over the torus *)

Lemma sum_upto_ext (n : nat) (f g : Z -> Q) :
  (forall i, (0 <= i < Z.of_nat n)%Z -> f i == g i) ->
  sum_upto n f == sum_upto n g.
Proof.
  induction n as [| n IH]; intros H; [reflexivity |].
  cbn [sum_upto]. rewrite IH, (H (Z.of_nat n)) by (intros; try apply H; lia).
  reflexivity.
Qed.

Lemma sum_upto_plus (n : nat) (f g : Z -> Q) :
  sum_upto n (fun i => f i + g i) == sum_upto n f + sum_upto n g.
Proof.
  induction n as [| n IH]; cbn [sum_upto]; [ring |]. rewrite IH. ring.
Qed.

Lemma sum_upto_scale (n : nat) (c : Q) (f : Z -> Q) :
  sum_upto n (fun i => f i * c) == sum_upto n f * c.
Proof.
  induction n as [| n IH]; cbn [sum_upto]; [ring |]. rewrite IH. ring.
Qed.

Lemma sum_upto_head (n : nat) (f : Z -> Q) :
  sum_upto (S n) f == f 0%Z + sum_upto n (fun i => f (i + 1)%Z).
Proof.
  induction n as [| n IH];
    [cbn [sum_upto]; change (Z.of_nat 0) with 0%Z; ring |].
  change (sum_upto (S (S n)) f)
    with (sum_upto (S n) f + f (Z.of_nat (S n))).
  rewrite IH. cbn [sum_upto].
  replace (Z.of_nat n + 1)%Z with (Z.of_nat (S n)) by lia. ring.
Qed.

Lemma sum_upto_rot_up (n : nat) (f : Z -> Q) :
  sum_upto n (fun i => f ((i + 1) mod Z.of_nat n)%Z) == sum_upto n f.
Proof.
  destruct n as [| n]; [reflexivity |].
  rewrite (sum_upto_head n f).
  change (sum_upto (S n) (fun i => f ((i + 1) mod Z.of_nat (S n))%Z))
    with (sum_upto n (fun i => f ((i + 1) mod Z.of_nat (S n))%Z)
          + f ((Z.of_nat n + 1) mod Z.of_nat (S n))%Z).
  replace ((Z.of_nat n + 1) mod Z.of_nat (S n))%Z with 0%Z
    by (replace (Z.of_nat n + 1)%Z with (Z.of_nat (S n)) by lia;
        rewrite Z.mod_same; lia).
  rewrite (sum_upto_ext n _ (fun i => f (i + 1)%Z)).
  - ring.
  - intros i Hi. cbv beta. rewrite Z.mod_small by lia. reflexivity.
Qed.

Lemma sum_upto_rot_down (n : nat) (f : Z -> Q) :
  sum_upto n (fun i => f ((i - 1) mod Z.of_nat n)%Z) == sum_upto n f.
Proof.
  destruct n as [| n]; [reflexivity |].
  rewrite (sum_upto_head n (fun i => f ((i - 1) mod Z.of_nat (S n))%Z)).
  cbv beta.
  replace ((0 - 1) mod Z.of_nat (S n))%Z with (Z.of_nat n).
  2:{ apply (Z.mod_unique _ _ (-1)); lia. }
  rewrite (sum_upto_ext n _ f).
  - cbn [sum_upto]. ring.
  - intros i Hi. cbv beta.
    replace (i + 1 - 1)%Z with i by lia.
    rewrite Z.mod_small by lia. reflexivity.
Qed.

Lemma field_total_ext (a b : Field) :
  (forall x y, in_grid x y -> a x y == b x y) ->
  field_total a == field_total b.
Proof.
  intros H. unfold field_total.
  apply sum_upto_ext. intros x Hx. apply sum_upto_ext. intros y Hy.
  apply H. split; [exact Hx | exact Hy].
Qed.

Lemma field_total_plus (a b : Field) :
  field_total (fun x y => a x y + b x y) == field_total a + field_total b.
Proof.
  unfold field_total. rewrite <- sum_upto_plus.
  apply sum_upto_ext. intros x _. apply sum_upto_plus.
Qed.

Lemma field_total_scale (a : Field) (c : Q) :
  field_total (fun x y => a x y * c) == field_total a * c.
Proof.
  unfold field_total. rewrite <- sum_upto_scale.
  apply sum_upto_ext. intros x _. apply sum_upto_scale.
Qed.

Lemma field_total_rot_x (a : Field) (up : bool) :
  field_total (fun x y =>
                 a ((if up then x + 1 else x - 1) mod GRID_WIDTH)%Z y)
  == field_total a.
Proof.
  unfold field_total.
  set (F := fun x => sum_upto (Z.to_nat GRID_HEIGHT) (fun y => a x y)).
  change GRID_WIDTH with (Z.of_nat (Z.to_nat GRID_WIDTH)).
  rewrite Nat2Z.id.
  destruct up.
  - exact (sum_upto_rot_up _ F).
  - exact (sum_upto_rot_down _ F).
Qed.

Lemma field_total_rot_y (a : Field) (up : bool) :
  field_total (fun x y =>
                 a x ((if up then y + 1 else y - 1) mod GRID_HEIGHT)%Z)
  == field_total a.
Proof.
  unfold field_total. apply sum_upto_ext. intros x _.
  change GRID_HEIGHT with (Z.of_nat (Z.to_nat GRID_HEIGHT)).
  rewrite Nat2Z.id.
  destruct up.
  - exact (sum_upto_rot_up _ (fun y => a x y)).
  - exact (sum_upto_rot_down _ (fun y => a x y)).
Qed.

(** Diffusion on the torus keeps the total. *)
Lemma diffused_total (a : Field) :
  field_total (diffused a) == field_total a.
Proof.
  unfold diffused.
  rewrite (field_total_plus
             (fun x y => a x y * (1 - 4 * DIFFUSION_FACTOR))
             (fun x y =>
                (a ((x - 1) mod GRID_WIDTH)%Z y
                 + a ((x + 1) mod GRID_WIDTH)%Z y
                 + a x ((y - 1) mod GRID_HEIGHT)%Z
                 + a x ((y + 1) mod GRID_HEIGHT)%Z) * DIFFUSION_FACTOR)).
  rewrite (field_total_scale a).
  rewrite (field_total_scale
             (fun x y =>
                a ((x - 1) mod GRID_WIDTH)%Z y
                + a ((x + 1) mod GRID_WIDTH)%Z y
                + a x ((y - 1) mod GRID_HEIGHT)%Z
                + a x ((y + 1) mod GRID_HEIGHT)%Z)).
  rewrite (field_total_plus
             (fun x y =>
                a ((x - 1) mod GRID_WIDTH)%Z y
                + a ((x + 1) mod GRID_WIDTH)%Z y
                + a x ((y - 1) mod GRID_HEIGHT)%Z)
             (fun x y => a x ((y + 1) mod GRID_HEIGHT)%Z)).
  rewrite (field_total_plus
             (fun x y =>
                a ((x - 1) mod GRID_WIDTH)%Z y
                + a ((x + 1) mod GRID_WIDTH)%Z y)
             (fun x y => a x ((y - 1) mod GRID_HEIGHT)%Z)).
  rewrite (field_total_plus
             (fun x y => a ((x - 1) mod GRID_WIDTH)%Z y)
             (fun x y => a ((x + 1) mod GRID_WIDTH)%Z y)).
  rewrite (field_total_rot_x a false), (field_total_rot_x a true),
    (field_total_rot_y a false), (field_total_rot_y a true).
  unfold DIFFUSION_FACTOR. ring.
Qed.

Lemma regenerated_total (words : Z -> Z -> Z) (a : Field) :
  field_total (regenerated words a)
  == field_total a + 2.0 * spawn_count words.
Proof.
  unfold spawn_count.
  rewrite (field_total_ext (regenerated words a)
             (fun x y => a x y + (if spawns words x y then 1 else 0) * 2.0)).
  - rewrite (field_total_plus a
               (fun x y => (if spawns words x y then 1 else 0) * 2.0)).
    rewrite (field_total_scale
               (fun x y => if spawns words x y then 1 else 0)).
    ring.
  - intros x y _. unfold regenerated. destruct (spawns words x y); ring.
Qed.

(** X14.  On a field whose cells lie in [0, 8.0] the clamp of
    [update_nutrients] is idle, and the nutrients of the whole grid after
    the call are [NUTRIENT_DECAY] times the nutrients before plus 2.0 for
    each regenerated cell: diffusion on the torus neither creates nor
    destroys nutrients. *)
Theorem update_nutrients_total (words : Z -> Z -> Z) (self : Environment.t) :
  field_within 0 8.0 (Environment.nutrients self) ->
  field_total (Environment.nutrients (Environment.update_nutrients words self))
  == NUTRIENT_DECAY
     * (field_total (Environment.nutrients self) + 2.0 * spawn_count words).
Proof.
  intros Ha.
  unfold Environment.update_nutrients. cbn [Environment.nutrients].
  set (a := Environment.nutrients self) in *.
  rewrite (field_total_ext _
             (fun x y => diffused (regenerated words a) x y * NUTRIENT_DECAY)).
  - rewrite (field_total_scale (diffused (regenerated words a))).
    rewrite diffused_total, regenerated_total. ring.
  - intros x y Hxy. rewrite update_field_cell by exact Hxy.
    pose proof (diffused_within _ _ _
                  (regenerated_within words _ _ _ Ha) x y Hxy) as [D1 D2].
    apply clip_id; unfold NUTRIENT_DECAY, MAX_NUTRIENT; lra.
Qed.

Lemma update_nutrients_total_witness :
  field_total
    (Environment.nutrients
       (Environment.update_nutrients (fun _ _ => 0%Z)
          (Environment.mk (fun _ _ => 3.0) Environment.init_sunlight [] 0
                          false)))
  == NUTRIENT_DECAY * (field_total (fun _ _ => 3.0)
                       + 2.0 * spawn_count (fun _ _ => 0%Z)).
Proof.
  apply (update_nutrients_total (fun _ _ => 0%Z)
           (Environment.mk (fun _ _ => 3.0) Environment.init_sunlight [] 0
                           false)).
  intros x y _. cbn [Environment.nutrients]. split; lra.
Defined.

(* ===================================================================== *)
(** ** Eating and reproduction *)
(* ===================================================================== *)

(** X15.  Eating turns nutrients into energy one for one: an agent on the
    grid that is no predator gains [min(food, 2.0)], its cell loses the
    same amount, a cell that held no debt holds none afterwards, and no
    other cell or agent changes; a predator leaves everything as it is. *)
Theorem eating_turns_nutrients_into_energy (r : nat) (s : Environment.loop)
    (a : Agent.t) :
  Environment.heap s !! r = Some a -> agent_in_grid a ->
  let food := Environment.grid s (Agent.x a) (Agent.y a) in
  exists s',
    Environment.eating_phase r s = Some s'
    /\ (Agent.is_predator a = true -> s' = s)
    /\ (Agent.is_predator a = false ->
        Environment.heap s'
        = <[r := Agent.add_energy (py_min food 2.0) a]> (Environment.heap s)
        /\ Environment.grid s' (Agent.x a) (Agent.y a)
           == food - py_min food 2.0
        /\ (0 <= food ->
            0 <= py_min food 2.0 <= 2.0
            /\ 0 <= Environment.grid s' (Agent.x a) (Agent.y a))
        /\ (forall i j, (i, j) <> (Agent.x a, Agent.y a) ->
              Environment.grid s' i j = Environment.grid s i j)).
Proof.
  intros Ha Hin food. unfold Environment.eating_phase.
  rewrite Ha. cbn [mbind option_bind].
  destruct (Agent.is_predator a) eqn:Hp; cbn [negb].
  - exists s. split; [reflexivity |]. split; [reflexivity | discriminate].
  - rewrite field_get_in by exact Hin. cbn [mbind option_bind].
    rewrite field_set_in by exact Hin. cbn [mbind option_bind].
    eexists. split; [reflexivity |]. split; [discriminate |]. intros _.
    cbn [Environment.heap Environment.grid].
    fold food.
    assert (Hcell : field_write (Environment.grid s) (Agent.x a) (Agent.y a)
                      (food - py_min food 2.0) (Agent.x a) (Agent.y a)
                    = food - py_min food 2.0).
    { unfold field_write. rewrite !Z.eqb_refl. reflexivity. }
    split; [reflexivity |]. split; [rewrite Hcell; reflexivity |]. split.
    + intros Hfood. rewrite Hcell.
      pose proof (py_min_upper food 2.0). pose proof (py_min_upper_r food 2.0).
      pose proof (py_min_lower food 2.0 0 Hfood ltac:(lra)). lra.
    + intros i j Hij. unfold field_write.
      destruct (Z.eqb_spec i (Agent.x a)) as [-> | Hi]; [| reflexivity].
      destruct (Z.eqb_spec j (Agent.y a)) as [-> | Hj]; [| reflexivity].
      congruence.
Qed.

Lemma eating_turns_nutrients_into_energy_witness :
  exists s',
    Environment.eating_phase 0 (Environment.loop_start stalked steady_rng)
    = Some s'
    /\ Environment.grid s' 6%Z 5%Z == 10.0 - py_min 10.0 2.0.
Proof.
  destruct (eating_turns_nutrients_into_energy 0
              (Environment.loop_start stalked steady_rng) (browser 6 5)
              eq_refl)
    as (s' & E & _ & H).
  - vm_compute. repeat split; discriminate.
  - exists s'. split; [exact E |].
    destruct (H eq_refl) as (_ & Hc & _). exact Hc.
Defined.

(** *** The scan for a vacant neighbour *)

Lemma swap_elem_of_2 {A : Type} (i j : nat) (l : list A) (y : A) :
  y ∈ l -> y ∈ swap i j l.
Proof.
  unfold swap. intros H.
  destruct (l !! i) as [a |] eqn:Ha; [| exact H].
  destruct (l !! j) as [b |] eqn:Hb; [| exact H].
  pose proof (lookup_lt_Some _ _ _ Ha) as Hi.
  pose proof (lookup_lt_Some _ _ _ Hb) as Hj.
  apply list_elem_of_lookup in H. destruct H as [k Hk].
  destruct (decide (k = j)) as [-> | Hkj].
  - (* y = b, which now sits at i, or at j when i = j *)
    assert (y = b) by congruence. subst y.
    destruct (decide (i = j)) as [-> | Hij].
    + assert (a = b) by congruence. subst a.
      apply (list_elem_of_lookup_2 _ j).
      apply list_lookup_insert_eq. rewrite length_insert. exact Hj.
    + apply (list_elem_of_lookup_2 _ i).
      rewrite list_lookup_insert_ne by congruence.
      apply list_lookup_insert_eq. exact Hi.
  - destruct (decide (k = i)) as [-> | Hki].
    + assert (y = a) by congruence. subst y.
      apply (list_elem_of_lookup_2 _ j).
      apply list_lookup_insert_eq. rewrite length_insert. exact Hj.
    + apply (list_elem_of_lookup_2 _ k).
      rewrite !list_lookup_insert_ne by congruence. exact Hk.
Qed.

Lemma shuffle_from_elem_of_2 {A : Type} (i : nat) (l : list A) (g : RNG)
    (y : A) :
  y ∈ l -> y ∈ fst (shuffle_from i l g).
Proof.
  revert l g. induction i as [| k IH]; intros l g H; simpl; [exact H |].
  destruct (randbelow (Z.of_nat (S (S k))) g) as [j g'].
  apply IH. apply swap_elem_of_2. exact H.
Qed.

Lemma find_none_iff {A : Type} (p : A -> bool) (l : list A) :
  find p l = None <-> forall x, In x l -> p x = false.
Proof.
  split; [apply find_none |].
  induction l as [| a l IH]; intros H; [reflexivity |].
  cbn [find]. rewrite (H a (or_introl eq_refl)).
  apply IH. intros x Hx. apply H. right. exact Hx.
Qed.

(** X16.  An agent reproduces exactly when its energy exceeds its
    [repro_threshold] and one of its four axis-aligned neighbour cells lies
    on the grid and is free; the child is then put on such a cell, that
    cell is taken, and one spawn event is recorded.  Otherwise the phase
    changes neither the heap, nor the cells taken, nor the events. *)
Theorem reproduces_iff_room (r : nat) (s : Environment.loop) (a : Agent.t) :
  Environment.heap s !! r = Some a ->
  let room :=
    repro_threshold (Agent.genes a) < Agent.energy a
    /\ exists c, In c (axis_neighbors a)
                 /\ Environment.vacant (Environment.occupied s) c = true in
  exists s',
    Environment.reproduction_phase r s = Some s'
    /\ (room ->
        exists child,
          Environment.heap s' !! length (Environment.heap s) = Some child
          /\ length (Environment.heap s') = S (length (Environment.heap s))
          /\ In (Agent.x child, Agent.y child) (axis_neighbors a)
          /\ Environment.vacant (Environment.occupied s)
                                (Agent.x child, Agent.y child) = true
          /\ Environment.occupied s'
             = <[(Agent.x child, Agent.y child) :=
                   length (Environment.heap s)]> (Environment.occupied s)
          /\ Environment.events s'
             = Environment.events s
               ++ [Environment.Spawn (Agent.x a) (Agent.y a)
                                     (Agent.x child) (Agent.y child)])
    /\ (~ room ->
        Environment.heap s' = Environment.heap s
        /\ Environment.occupied s' = Environment.occupied s
        /\ Environment.events s' = Environment.events s).
Proof.
  intros Ha room. subst room. unfold Environment.reproduction_phase.
  rewrite Ha. cbn [mbind option_bind].
  case_Qltb (repro_threshold (Agent.genes a)) (Agent.energy a).
  2:{ exists s. split; [reflexivity |]. split.
      - intros [Hlt _]. lra.
      - intros _. repeat split. }
  change [((Agent.x a + 1)%Z, Agent.y a); ((Agent.x a - 1)%Z, Agent.y a);
          (Agent.x a, (Agent.y a + 1)%Z); (Agent.x a, (Agent.y a - 1)%Z)]
    with (axis_neighbors a).
  pose proof (shuffle_elem_of (axis_neighbors a) (Environment.rng s)) as Hin1.
  pose proof (fun y => shuffle_from_elem_of_2
                (length (axis_neighbors a) - 1) (axis_neighbors a)
                (Environment.rng s) y) as Hin2.
  fold (shuffle (axis_neighbors a) (Environment.rng s)) in Hin2.
  destruct (shuffle (axis_neighbors a) (Environment.rng s)) as [cells g].
  cbn [fst] in Hin1, Hin2. cbn [Environment.occupied].
  destruct (find (Environment.vacant (Environment.occupied s)) cells)
    as [c |] eqn:Hfind.
  - apply find_some in Hfind. destruct Hfind as [Hc Hvac].
    apply list_elem_of_In in Hc. apply Hin1 in Hc. apply list_elem_of_In in Hc.
    unfold Environment.spawn. cbn [Environment.heap Environment.rng].
    rewrite Ha. cbn [mbind option_bind].
    destruct (Agent.mutate_genes _ g) as [child_genes g1].
    match goal with
    | |- context [Agent.init ?x ?y ?gs ?e ?gen ?g0] =>
        pose proof (agent_init_fields x y gs e gen g0) as Hf;
        destruct (Agent.init x y gs e gen g0) as [child g2]
    end.
    cbv zeta in Hf. cbn [fst] in Hf.
    destruct Hf as (Hx & Hy & _).
    assert (Hpos : (Agent.x child, Agent.y child) = c)
      by (rewrite Hx, Hy; destruct c; reflexivity).
    eexists. split; [reflexivity |]. split.
    + intros _. exists child.
      cbn [Environment.heap Environment.occupied Environment.events].
      rewrite Hpos.
      split; [| split; [| split; [exact Hc | split; [exact Hvac |]]]].
      * rewrite lookup_app_r by (rewrite length_insert; lia).
        rewrite length_insert, Nat.sub_diag. reflexivity.
      * rewrite length_app, length_insert. cbn [length]. lia.
      * split; [reflexivity | rewrite Hx, Hy; reflexivity].
    + intros Hno. exfalso. apply Hno. split; [exact Hcmp |].
      exists c. split; [exact Hc | exact Hvac].
  - eexists. split; [reflexivity |]. split.
    + intros [_ (c & Hc & Hvac)]. exfalso.
      rewrite find_none_iff in Hfind.
      rewrite (Hfind c) in Hvac; [discriminate |].
      apply list_elem_of_In. apply Hin2. apply list_elem_of_In. exact Hc.
    + intros _. repeat split.
Qed.

Lemma reproduces_iff_room_witness :
  exists s',
    Environment.reproduction_phase 0
      (Environment.loop_start nursery steady_rng) = Some s'.
Proof.
  destruct (reproduces_iff_room 0 (Environment.loop_start nursery steady_rng)
              _ eq_refl) as (s' & E & _).
  exists s'. exact E.
Defined.

(* ===================================================================== *)
(** ** The clock and the sun *)
(* ===================================================================== *)

Lemma night_at_spec (t : Z) :
  Environment.night_at t = true <-> (300 < t mod 600)%Z.
Proof.
  unfold Environment.night_at. cbv zeta. rewrite Qltb_lt.
  change (t mod CYCLE_LENGTH)%Z with (t mod 600)%Z.
  set (c := (t mod 600)%Z).
  assert (H : inject_Z CYCLE_LENGTH * DAY_RATIO == inject_Z 300)
    by reflexivity.
  rewrite H. rewrite <- Zlt_Qlt. reflexivity.
Qed.

Lemma run_ticks_clock (n : nat) (words : nat -> Z -> Z -> Z)
    (self : Environment.t) (g : RNG) :
  Forall agent_in_grid (Environment.agents self) ->
  exists env' g',
    run_ticks n words self g = Some (env', g')
    /\ Forall agent_in_grid (Environment.agents env')
    /\ Environment.global_time env'
       = (Environment.global_time self + Z.of_nat n)%Z
    /\ (n <> 0%nat ->
        Environment.is_night env'
        = Environment.night_at (Environment.global_time env')).
Proof.
  intros Hgrid. induction n as [| k IH].
  - exists self, g. cbn [run_ticks].
    split; [reflexivity |]. split; [exact Hgrid |]. split; [lia | congruence].
  - destruct IH as (env1 & g1 & E1 & Hg1 & Ht1 & _).
    destruct (update_agents_ok
                (Environment.update_nutrients (words k) env1) g1 Hg1)
      as (s & env2 & ev & g2 & _ & E2 & Hok & Hpop & _).
    destruct (update_agents_time _ _ _ _ _ E2) as (Ht2 & Hn2 & _).
    exists env2, g2. cbn [run_ticks]. rewrite E1.
    cbn [mbind option_bind fst snd]. unfold logic_update. rewrite E2.
    cbn [mbind option_bind fst snd].
    split; [reflexivity |]. split.
    + rewrite Hpop. apply next_population_Forall. exact (heap_in_grid s Hok).
    + split; [| intros _; rewrite Hn2, Ht2; reflexivity].
      rewrite Ht2. cbn [Environment.update_nutrients Environment.global_time].
      unfold Environment.update_nutrients. cbn [Environment.global_time].
      lia.
Qed.

(** X17.  The night follows the clock: after one frame or more, started
    with all agents on the grid, the clock has advanced by the number of
    frames and [is_night] holds exactly when the clock, modulo
    [CYCLE_LENGTH] = 600, is beyond 300; so that a cycle has 301 frames of
    day (positions 0 to 300) and 299 frames of night. *)
Theorem night_follows_the_clock (n : nat) (words : nat -> Z -> Z -> Z)
    (self : Environment.t) (g : RNG) :
  Forall agent_in_grid (Environment.agents self) ->
  exists env' g',
    run_ticks (S n) words self g = Some (env', g')
    /\ Environment.global_time env'
       = (Environment.global_time self + Z.of_nat (S n))%Z
    /\ (Environment.is_night env' = true
        <-> (300 < Environment.global_time env' mod 600)%Z).
Proof.
  intros Hgrid.
  destruct (run_ticks_clock (S n) words self g Hgrid)
    as (env' & g' & E & _ & Ht & Hn).
  exists env', g'. split; [exact E |]. split; [exact Ht |].
  rewrite Hn by discriminate. apply night_at_spec.
Qed.

Lemma night_follows_the_clock_witness :
  exists env' g',
    run_ticks 1 (fun _ _ _ => 0%Z) nursery steady_rng = Some (env', g')
    /\ Environment.global_time env'
       = (Environment.global_time nursery + 1)%Z
    /\ (Environment.is_night env' = true
        <-> (300 < Environment.global_time env' mod 600)%Z).
Proof.
  exact (night_follows_the_clock 0 (fun _ _ _ => 0%Z) nursery steady_rng
           nursery_in_grid).
Defined.

Lemma init_sunlight_range (x y : Z) :
  (0 <= y < GRID_HEIGHT)%Z ->
  SUN_MAX_INTENSITY * SUN_PENETRATION_DEPTH < Environment.init_sunlight x y
  /\ Environment.init_sunlight x y <= SUN_MAX_INTENSITY.
Proof.
  intros [H0 H1]. unfold Environment.init_sunlight.
  rewrite Zle_Qle in H0. rewrite Zlt_Qlt in H1.
  change (inject_Z GRID_HEIGHT) with 100 in *.
  change (inject_Z 0) with 0 in H0.
  unfold SUN_MAX_INTENSITY, SUN_PENETRATION_DEPTH, Qdiv.
  change (/ 100) with (1 # 100).
  set (q := inject_Z y) in *. split; lra.
Qed.

(** X18.  Photosynthesis under the sunlight of the constructor: by night
    the agent gains nothing; by day an agent on the grid gains the
    sunlight of its row times its efficiency times [PHOTOSYNTHESIS_RATE],
    which lies between 3.5 and 5.0 times its efficiency, and a deeper row
    never gives more.  Nothing but the energy of that agent changes. *)
Theorem photosynthesis_gain (night : bool) (r : nat) (s : Environment.loop)
    (a : Agent.t) :
  Environment.heap s !! r = Some a -> agent_in_grid a ->
  0 <= photosynthesis_efficiency (Agent.genes a) ->
  let eff := photosynthesis_efficiency (Agent.genes a) in
  exists gain,
    Environment.photosynthesis_phase night Environment.init_sunlight r s
    = Some (Environment.set_heap
              (<[r := Agent.add_energy gain a]> (Environment.heap s)) s)
    /\ (night = true -> gain == 0)
    /\ (night = false ->
        gain == Environment.init_sunlight (Agent.x a) (Agent.y a) * eff
                * PHOTOSYNTHESIS_RATE
        /\ 3.5 * eff <= gain /\ gain <= 5.0 * eff)
    /\ (forall x y y', (y <= y')%Z ->
          Environment.init_sunlight x y' <= Environment.init_sunlight x y).
Proof.
  intros Ha Hin Heff eff. unfold Environment.photosynthesis_phase.
  rewrite Ha. cbn [mbind option_bind].
  assert (Hmono : forall x y y', (y <= y')%Z ->
            Environment.init_sunlight x y' <= Environment.init_sunlight x y).
  { intros x y y' Hy. unfold Environment.init_sunlight.
    rewrite Zle_Qle in Hy.
    change (inject_Z GRID_HEIGHT) with 100.
    unfold SUN_MAX_INTENSITY, SUN_PENETRATION_DEPTH, Qdiv.
    change (/ 100) with (1 # 100). lra. }
  destruct night; cbn [negb].
  - cbn [mbind option_bind]. eexists. split; [reflexivity |].
    split; [intros _; fold eff; unfold PHOTOSYNTHESIS_RATE; ring |].
    split; [discriminate | exact Hmono].
  - rewrite field_get_in by exact Hin. cbn [mbind option_bind].
    eexists. split; [reflexivity |]. split; [discriminate |].
    split; [| exact Hmono]. intros _. fold eff.
    split; [reflexivity |].
    destruct (init_sunlight_range (Agent.x a) (Agent.y a) (proj2 Hin))
      as [Hlo Hhi].
    set (sun := Environment.init_sunlight (Agent.x a) (Agent.y a)) in *.
    unfold SUN_MAX_INTENSITY, SUN_PENETRATION_DEPTH in Hlo, Hhi.
    unfold PHOTOSYNTHESIS_RATE. fold eff in Heff.
    assert (E : sun * eff * 0.5 == (sun * 0.5) * eff) by ring.
    rewrite E.
    split; (apply Qmult_le_compat_r; [lra | exact Heff]).
Qed.

Lemma photosynthesis_gain_witness :
  exists gain,
    Environment.photosynthesis_phase false Environment.init_sunlight 0
      (Environment.loop_start nursery steady_rng)
    = Some (Environment.set_heap
              (<[0%nat := Agent.add_energy gain (grazer 7 5)]>
                 (Environment.heap (Environment.loop_start nursery steady_rng)))
              (Environment.loop_start nursery steady_rng)).
Proof.
  destruct (photosynthesis_gain false 0
              (Environment.loop_start nursery steady_rng) (grazer 7 5) eq_refl)
    as (gain & E & _).
  - vm_compute. repeat split; discriminate.
  - vm_compute. discriminate.
  - exists gain. exact E.
Defined.

(* ===================================================================== *)
(** ** Who can be a predator *)
(* ===================================================================== *)

Lemma proven_breeder_fields (a a' : Agent.t) :
  Agent.is_predator a' = Agent.is_predator a ->
  (Agent.offspring_count a <= Agent.offspring_count a')%Z ->
  Agent.genes a' = Agent.genes a ->
  proven_breeder a -> proven_breeder a'.
Proof.
  intros Hp Ho Hg H Hpred. rewrite Hp in Hpred.
  destruct (H Hpred) as [H1 H2]. rewrite Hg. split; [lia | exact H2].
Qed.

Lemma quiet_breeder (a a' : Agent.t) :
  quiet a a' -> proven_breeder a -> proven_breeder a'.
Proof.
  intros Hq. apply quiet_fields in Hq.
  destruct Hq as (_ & _ & _ & _ & _ & P & O & G & _).
  apply proven_breeder_fields; [exact P | lia | exact G].
Qed.

Lemma heap_frame_breeders (r : nat) (h h' : list Agent.t) :
  heap_frame r h h' -> length h' = length h ->
  (forall a a', h !! r = Some a -> h' !! r = Some a' ->
                proven_breeder a -> proven_breeder a') ->
  Forall proven_breeder h -> Forall proven_breeder h'.
Proof.
  intros [_ F] L Hr H. apply Forall_lookup_2. intros k x' Hx'.
  pose proof (lookup_lt_Some _ _ _ Hx') as Hk. rewrite L in Hk.
  destruct (lookup_lt_is_Some_2 h k Hk) as [x Hx].
  pose proof (Forall_lookup_1 _ _ _ _ H Hx) as Hpb.
  destruct (decide (k = r)) as [-> | Hne].
  - exact (Hr x x' Hx Hx' Hpb).
  - destruct (F k x Hne Hx) as (x2 & Hx2 & Hq).
    rewrite Hx' in Hx2. injection Hx2 as <-.
    exact (quiet_breeder _ _ Hq Hpb).
Qed.

Lemma heap_quiet_breeders (h h' : list Agent.t) :
  heap_quiet h h' -> Forall proven_breeder h -> Forall proven_breeder h'.
Proof.
  intros [L Q] H. apply Forall_lookup_2. intros k x' Hx'.
  pose proof (lookup_lt_Some _ _ _ Hx') as Hk. rewrite L in Hk.
  destruct (lookup_lt_is_Some_2 h k Hk) as [x Hx].
  destruct (Q k x Hx) as (x2 & Hx2 & Hq).
  rewrite Hx' in Hx2. injection Hx2 as <-.
  exact (quiet_breeder _ _ Hq (Forall_lookup_1 _ _ _ _ H Hx)).
Qed.

Lemma check_evolution_breeder (a : Agent.t) :
  proven_breeder a -> proven_breeder (Agent.check_evolution a).
Proof.
  intros H. unfold Agent.check_evolution.
  destruct (negb (Agent.is_predator a)); [| exact H].
  destruct (Qltb PREDATOR_THRESHOLD_ENERGY (Agent.energy a)) eqn:E1;
    [| exact H].
  destruct (Qltb PREDATOR_THRESHOLD_SIZE (size (Agent.genes a))) eqn:E2;
    [| exact H].
  destruct (PREDATOR_THRESHOLD_OFFSPRING <=? Agent.offspring_count a)%Z
    eqn:E3; [| exact H].
  cbn [andb]. intros _. cbn.
  apply Qltb_lt in E2. apply Z.leb_le in E3. split; assumption.
Qed.

Lemma death_phase_breeders (r : nat) (s s' : Environment.loop) :
  Environment.death_phase r s = Some s' ->
  Forall proven_breeder (Environment.heap s) ->
  Forall proven_breeder (Environment.heap s').
Proof.
  unfold Environment.death_phase. intros H Hs.
  apply bind_Some in H. destruct H as (a & Ha & H).
  pose proof (check_evolution_breeder a (Forall_lookup_1 _ _ _ _ Hs Ha))
    as Hpb.
  set (b := Agent.check_evolution a) in *.
  destruct (Qle_bool _ 0); injection H as <-;
    cbn [Environment.heap Environment.set_heap];
    apply Forall_insert; try exact Hs; exact Hpb.
Qed.

Lemma reproduction_phase_breeders (r : nat) (s s' : Environment.loop) :
  Environment.reproduction_phase r s = Some s' ->
  Forall proven_breeder (Environment.heap s) ->
  Forall proven_breeder (Environment.heap s').
Proof.
  intros H Hs.
  assert (Hr : exists a, Environment.heap s !! r = Some a).
  { unfold Environment.reproduction_phase in H.
    apply bind_Some in H. destruct H as (a & Ha & _). exists a. exact Ha. }
  destruct Hr as [a Ha].
  destruct (reproduction_phase_frame _ _ _ _ H Ha)
    as ([-> | (child & -> & Hborn)] & _); [exact Hs |].
  pose proof (Forall_lookup_1 _ _ _ _ Hs Ha) as Hpb.
  apply Forall_app_2.
  - apply Forall_insert; [exact Hs |].
    revert Hpb. apply proven_breeder_fields; cbn; [reflexivity | lia |
                                                   reflexivity].
  - apply Forall_cons. split; [| apply Forall_nil_2].
    destruct Hborn as (_ & _ & _ & _ & _ & Hp & _).
    intros Hpred. congruence.
Qed.

Lemma collision_phase_breeders (r : nat) (target : Z * Z)
    (s s' : Environment.loop) :
  Environment.collision_phase r target s = Some s' ->
  (r < length (Environment.heap s))%nat ->
  Forall proven_breeder (Environment.heap s) ->
  Forall proven_breeder (Environment.heap s').
Proof.
  intros H Hr Hs.
  destruct (lookup_lt_is_Some_2 _ _ Hr) as [a Ha].
  destruct (collision_phase_frame _ _ _ _ _ H Ha)
    as (Fr & L & [e He] & _).
  eapply heap_frame_breeders; [exact Fr | exact L | | exact Hs].
  intros a0 a' Ha0 Ha'. rewrite Ha in Ha0. injection Ha0 as <-.
  destruct He as [He | He]; rewrite He in Ha'; injection Ha' as <-;
    apply proven_breeder_fields; cbn; first [reflexivity | lia].
Qed.

Lemma agent_turn_breeders (night : bool) (sun : Field) (r : nat)
    (s s' : Environment.loop) :
  Environment.agent_turn night sun r s = Some s' ->
  Forall proven_breeder (Environment.heap s) ->
  Forall proven_breeder (Environment.heap s').
Proof.
  unfold Environment.agent_turn. intros H Hs.
  apply bind_Some in H. destruct H as (s1 & E1 & H).
  apply bind_Some in H. destruct H as ([b s2] & E2 & H).
  apply bind_Some in H. destruct H as ([target s3] & E3 & H).
  apply bind_Some in H. destruct H as (s4 & E4 & H).
  apply bind_Some in H. destruct H as (s5 & E5 & H).
  apply bind_Some in H. destruct H as (s6 & E6 & E7).
  cbn [fst snd] in *.
  assert (Hr : (r < length (Environment.heap s))%nat).
  { unfold Environment.photosynthesis_phase in E1.
    apply bind_Some in E1. destruct E1 as (a & Ha & _).
    eapply lookup_lt_Some. exact Ha. }
  apply photosynthesis_phase_quiet in E1. destruct E1 as (Q1 & _).
  apply colony_phase_quiet in E2. destruct E2 as (Q2 & _).
  apply movement_phase_quiet in E3. destruct E3 as (Q3 & _).
  apply eating_phase_quiet in E5. destruct E5 as (Q5 & _).
  apply (death_phase_breeders _ _ _ E7).
  apply (reproduction_phase_breeders _ _ _ E6).
  apply (heap_quiet_breeders _ _ Q5).
  apply (collision_phase_breeders _ _ _ _ E4).
  { rewrite (proj1 Q3), (proj1 Q2), (proj1 Q1). exact Hr. }
  apply (heap_quiet_breeders _ _ Q3).
  apply (heap_quiet_breeders _ _ Q2).
  apply (heap_quiet_breeders _ _ Q1). exact Hs.
Qed.

Lemma agent_loop_breeders (night : bool) (sun : Field) (rs : list nat)
    (s s' : Environment.loop) :
  Environment.agent_loop night sun rs s = Some s' ->
  Forall proven_breeder (Environment.heap s) ->
  Forall proven_breeder (Environment.heap s').
Proof.
  revert s. induction rs as [| r rest IH]; intros s H Hs.
  - injection H as <-. exact Hs.
  - cbn [Environment.agent_loop] in H.
    apply bind_Some in H. destruct H as (s1 & E1 & H).
    apply (IH s1 H). exact (agent_turn_breeders _ _ _ _ _ E1 Hs).
Qed.

(** The offspring counts after the loop: at most one more for the agents
    of the population, none for the newborns. *)
Lemma run_loop_offspring (self : Environment.t) (g : RNG)
    (s : Environment.loop) (t : Z) :
  Environment.run_loop self g = Some s -> (0 <= t)%Z ->
  Forall (fun a => (Agent.offspring_count a <= t)%Z)
         (Environment.agents self) ->
  Forall (fun a => (Agent.offspring_count a <= t + 1)%Z)
         (Environment.heap s).
Proof.
  intros E Ht H. apply Forall_lookup_2. intros k x Hx.
  destruct (Nat.lt_ge_cases k (length (Environment.agents self)))
    as [Hk | Hk].
  - destruct (lookup_lt_is_Some_2 _ _ Hk) as [a Ha].
    destruct (run_loop_acts self g s E k a Ha) as (a' & Ha' & Hact).
    rewrite Hx in Ha'. injection Ha' as <-.
    destruct Hact as (_ & _ & _ & _ & Ho).
    pose proof (Forall_lookup_1 _ _ _ _ H Ha) as Hle. cbv beta in Hle. lia.
  - destruct (run_loop_children self g s E k x Hk Hx)
      as (j & p & _ & _ & Hb).
    destruct Hb as (_ & _ & _ & _ & _ & _ & Ho). rewrite Ho. lia.
Qed.

Lemma update_agents_breeders (self : Environment.t) (g : RNG) (t : Z) :
  Forall agent_in_grid (Environment.agents self) ->
  Forall proven_breeder (Environment.agents self) ->
  (0 <= t)%Z ->
  Forall (fun a => (Agent.offspring_count a <= t)%Z)
         (Environment.agents self) ->
  exists self' ev g',
    Environment.update_agents self g = Some (self', ev, g')
    /\ Forall agent_in_grid (Environment.agents self')
    /\ Forall proven_breeder (Environment.agents self')
    /\ Forall (fun a => (Agent.offspring_count a <= t + 1)%Z)
              (Environment.agents self').
Proof.
  intros Hgrid Hpb Ht Hoc.
  destruct (update_agents_ok self g Hgrid)
    as (s & self' & ev & g' & Es & E & Hok & Hpop & _).
  exists self', ev, g'. split; [exact E |]. rewrite Hpop.
  split; [apply next_population_Forall; exact (heap_in_grid s Hok) |].
  split; apply next_population_Forall.
  - unfold Environment.run_loop in Es.
    eapply agent_loop_breeders; [exact Es | exact Hpb].
  - exact (run_loop_offspring self g s t Es Ht Hoc).
Qed.

(** X19.  Predators are proven breeders: if, in a population on the grid,
    every predator has had at least [PREDATOR_THRESHOLD_OFFSPRING]
    offspring and has a size gene above [PREDATOR_THRESHOLD_SIZE], the
    same holds of the population after a tick. *)
Theorem predators_are_proven_breeders (self : Environment.t) (g : RNG) :
  Forall agent_in_grid (Environment.agents self) ->
  Forall proven_breeder (Environment.agents self) ->
  exists self' ev g',
    Environment.update_agents self g = Some (self', ev, g')
    /\ Forall proven_breeder (Environment.agents self').
Proof.
  intros Hgrid Hpb.
  destruct (update_agents_ok self g Hgrid)
    as (s & self' & ev & g' & Es & E & Hok & Hpop & _).
  exists self', ev, g'. split; [exact E |]. rewrite Hpop.
  apply next_population_Forall.
  unfold Environment.run_loop in Es.
  eapply agent_loop_breeders; [exact Es | exact Hpb].
Qed.

Lemma nursery_breeders : Forall proven_breeder (Environment.agents nursery).
Proof.
  apply Forall_cons. split; [intros H; discriminate H |].
  apply Forall_cons. split; [| apply Forall_nil_2].
  intros _. split; [unfold PREDATOR_THRESHOLD_OFFSPRING; cbn; lia |].
  reflexivity.
Defined.

Lemma predators_are_proven_breeders_witness :
  exists self' ev g',
    Environment.update_agents nursery steady_rng = Some (self', ev, g')
    /\ Forall proven_breeder (Environment.agents self').
Proof.
  exact (predators_are_proven_breeders nursery steady_rng nursery_in_grid
           nursery_breeders).
Defined.

Lemma run_ticks_breeders (n : nat) (words : nat -> Z -> Z -> Z)
    (self : Environment.t) (g : RNG) (t : Z) :
  Forall agent_in_grid (Environment.agents self) ->
  Forall proven_breeder (Environment.agents self) ->
  (0 <= t)%Z ->
  Forall (fun a => (Agent.offspring_count a <= t)%Z)
         (Environment.agents self) ->
  exists env' g',
    run_ticks n words self g = Some (env', g')
    /\ Forall agent_in_grid (Environment.agents env')
    /\ Forall proven_breeder (Environment.agents env')
    /\ Forall (fun a => (Agent.offspring_count a <= t + Z.of_nat n)%Z)
              (Environment.agents env').
Proof.
  intros Hgrid Hpb Ht Hoc. induction n as [| k IH].
  - exists self, g. cbn [run_ticks].
    split; [reflexivity |]. split; [exact Hgrid |]. split; [exact Hpb |].
    eapply Forall_impl; [exact Hoc |]. intros a Ha. cbv beta in *. lia.
  - destruct IH as (env1 & g1 & E1 & Hg1 & Hp1 & Ho1).
    destruct (update_agents_breeders
                (Environment.update_nutrients (words k) env1) g1
                (t + Z.of_nat k) Hg1 Hp1 ltac:(lia) Ho1)
      as (env2 & ev & g2 & E2 & Hg2 & Hp2 & Ho2).
    exists env2, g2. cbn [run_ticks]. rewrite E1.
    cbn [mbind option_bind fst snd]. unfold logic_update. rewrite E2.
    cbn [mbind option_bind fst snd].
    split; [reflexivity |]. split; [exact Hg2 |]. split; [exact Hp2 |].
    eapply Forall_impl; [exact Ho2 |]. intros a Ha. cbv beta in *. lia.
Qed.

(** X20.  No predator can arise in the first two frames of a simulation:
    after [n] frames from [Environment()] no agent has more than [n]
    offspring, every predator has at least
    [PREDATOR_THRESHOLD_OFFSPRING] = 3 of them, and so for [n < 3] the
    population has no predator. *)
Theorem no_predator_before_the_third_frame (g : RNG) (n : nat)
    (words : nat -> Z -> Z -> Z) :
  exists env g1 env' g',
    Environment.init g = Some (env, g1)
    /\ run_ticks n words env g1 = Some (env', g')
    /\ Forall (fun a => (Agent.offspring_count a <= Z.of_nat n)%Z
                        /\ proven_breeder a)
              (Environment.agents env')
    /\ ((n < 3)%nat ->
        Forall (fun a => Agent.is_predator a = false)
               (Environment.agents env')).
Proof.
  destruct (init_ok g) as (env & g1 & E & _ & Hall & _).
  destruct (run_ticks_breeders n words env g1 0)
    as (env' & g' & E' & _ & Hp & Ho).
  { eapply Forall_impl; [exact Hall |]. intros a Ha. apply Ha. }
  { eapply Forall_impl; [exact Hall |]. intros a (_ & _ & Hf) Hpred.
    destruct Hf as (_ & _ & _ & _ & Hnp & _). congruence. }
  { lia. }
  { eapply Forall_impl; [exact Hall |]. intros a (_ & _ & Hf).
    destruct Hf as (_ & _ & _ & _ & _ & Hoc). cbv beta. lia. }
  exists env, g1, env', g'. split; [exact E |]. split; [exact E' |].
  assert (Hboth : Forall (fun a => (Agent.offspring_count a <= Z.of_nat n)%Z
                                   /\ proven_breeder a)
                         (Environment.agents env')).
  { apply Forall_forall. intros a Ha. split.
    - rewrite Forall_forall in Ho. specialize (Ho a Ha). cbv beta in Ho. lia.
    - rewrite Forall_forall in Hp. exact (Hp a Ha). }
  split; [exact Hboth |]. intros Hn.
  eapply Forall_impl; [exact Hboth |]. intros a [Hoc Hb]. cbv beta.
  destruct (Agent.is_predator a) eqn:Hpred; [| reflexivity].
  destruct (Hb Hpred) as [H3 _]. unfold PREDATOR_THRESHOLD_OFFSPRING in H3.
  lia.
Qed.

(* ===================================================================== *)
(** ** The events of a tick *)
(* ===================================================================== *)

Lemma quiet_position (a a' : Agent.t) : quiet a a' -> position a' = position a.
Proof.
  intros Hq. apply quiet_fields in Hq.
  destruct Hq as (_ & X & Y & _). unfold position. rewrite X, Y. reflexivity.
Qed.

(** The positions of the objects from [n] on, when only objects before [n]
    may have moved. *)
Lemma heap_frame_positions (r n : nat) (h h' : list Agent.t) :
  heap_frame r h h' -> length h' = length h -> (r < n)%nat ->
  drop n (position <$> h') = drop n (position <$> h).
Proof.
  intros [_ F] L Hr. apply list_eq. intros i.
  rewrite !lookup_drop, !list_lookup_fmap.
  destruct (h !! (n + i)%nat) as [x |] eqn:Hx.
  - destruct (F (n + i)%nat x ltac:(lia) Hx) as (x' & Hx' & Hq).
    rewrite Hx'. cbn. rewrite (quiet_position _ _ Hq). reflexivity.
  - apply lookup_ge_None in Hx. rewrite <- L in Hx.
    apply lookup_ge_None in Hx. rewrite Hx. reflexivity.
Qed.

Lemma heap_quiet_positions (n : nat) (h h' : list Agent.t) :
  heap_quiet h h' ->
  drop n (position <$> h') = drop n (position <$> h).
Proof.
  intros [L Q]. apply list_eq. intros i.
  rewrite !lookup_drop, !list_lookup_fmap.
  destruct (h !! (n + i)%nat) as [x |] eqn:Hx.
  - destruct (Q (n + i)%nat x Hx) as (x' & Hx' & Hq).
    rewrite Hx'. cbn. rewrite (quiet_position _ _ Hq). reflexivity.
  - apply lookup_ge_None in Hx. rewrite <- L in Hx.
    apply lookup_ge_None in Hx. rewrite Hx. reflexivity.
Qed.

Lemma spawn_targets_app (ev ev' : list Environment.event) :
  spawn_targets (ev ++ ev') = spawn_targets ev ++ spawn_targets ev'.
Proof. unfold spawn_targets. apply omap_app. Qed.

Lemma collision_phase_events (r : nat) (target : Z * Z)
    (s s' : Environment.loop) :
  Environment.collision_phase r target s = Some s' ->
  spawn_targets (Environment.events s')
  = spawn_targets (Environment.events s).
Proof.
  unfold Environment.collision_phase, Environment.move_into. intros H.
  destruct (Environment.occupied s !! target) as [o |].
  - apply bind_Some in H. destruct H as (a & Ha & H).
    apply bind_Some in H. destruct H as (other & Ho & H).
    destruct (Environment.predation_fires a other).
    + cbn [Environment.heap] in H.
      apply bind_Some in H. destruct H as (a1 & _ & H).
      injection H as <-. cbn [Environment.events].
      rewrite spawn_targets_app. cbn. apply app_nil_r.
    + injection H as <-. reflexivity.
  - apply bind_Some in H. destruct H as (a & _ & H).
    injection H as <-. reflexivity.
Qed.

Lemma death_phase_events (r : nat) (s s' : Environment.loop) :
  Environment.death_phase r s = Some s' ->
  Environment.events s' = Environment.events s.
Proof.
  unfold Environment.death_phase. intros H.
  apply bind_Some in H. destruct H as (a & _ & H).
  destruct (Qle_bool _ 0); injection H as <-; reflexivity.
Qed.

(** The heap and the events after the reproduction phase. *)
Lemma reproduction_phase_events (r : nat) (s s' : Environment.loop)
    (a : Agent.t) :
  Environment.reproduction_phase r s = Some s' ->
  Environment.heap s !! r = Some a ->
  (Environment.heap s' = Environment.heap s
   /\ Environment.events s' = Environment.events s)
  \/ exists a' child,
       Environment.heap s' = <[r := a']> (Environment.heap s) ++ [child]
       /\ position a' = position a
       /\ Environment.events s'
          = Environment.events s
            ++ [Environment.Spawn (Agent.x a) (Agent.y a)
                                  (Agent.x child) (Agent.y child)].
Proof.
  unfold Environment.reproduction_phase. intros H Ha. rewrite Ha in H.
  cbn [mbind option_bind] in H.
  destruct (Qltb (repro_threshold (Agent.genes a)) (Agent.energy a));
    [| injection H as <-; left; split; reflexivity].
  cbv zeta in H.
  destruct (shuffle _ (Environment.rng s)) as [nb g1].
  cbn [Environment.occupied Environment.heap] in H.
  destruct (find (Environment.vacant (Environment.occupied s)) nb)
    as [c |]; [| injection H as <-; left; split; reflexivity].
  unfold Environment.spawn in H. cbn [Environment.heap Environment.rng] in H.
  rewrite Ha in H. cbn [mbind option_bind] in H.
  destruct (Agent.mutate_genes _ g1) as [child_genes g2].
  match type of H with
  | context [Agent.init ?x ?y ?gs ?e ?gen ?g0] =>
      pose proof (agent_init_fields x y gs e gen g0) as Hf;
      destruct (Agent.init x y gs e gen g0) as [child g3]
  end.
  cbv zeta in Hf. cbn [fst] in Hf. destruct Hf as (Hx & Hy & _).
  injection H as <-. right. eexists _, child.
  cbn [Environment.heap Environment.events].
  split; [reflexivity |]. split; [reflexivity |].
  rewrite Hx, Hy. reflexivity.
Qed.

(** A turn keeps the spawn events in step with the objects from [n] on. *)
Lemma agent_turn_events (night : bool) (sun : Field) (r n : nat)
    (s s' : Environment.loop) :
  Environment.agent_turn night sun r s = Some s' ->
  (r < n <= length (Environment.heap s))%nat ->
  spawn_targets (Environment.events s)
  = drop n (position <$> Environment.heap s) ->
  spawn_targets (Environment.events s')
  = drop n (position <$> Environment.heap s').
Proof.
  unfold Environment.agent_turn. intros H Hrn Hinv.
  apply bind_Some in H. destruct H as (s1 & E1 & H).
  apply bind_Some in H. destruct H as ([b s2] & E2 & H).
  apply bind_Some in H. destruct H as ([target s3] & E3 & H).
  apply bind_Some in H. destruct H as (s4 & E4 & H).
  apply bind_Some in H. destruct H as (s5 & E5 & H).
  apply bind_Some in H. destruct H as (s6 & E6 & E7).
  cbn [fst snd] in *.
  apply photosynthesis_phase_quiet in E1.
  destruct E1 as (Q1 & _ & _ & V1 & _).
  apply colony_phase_quiet in E2. destruct E2 as (Q2 & _ & _ & V2 & _).
  apply movement_phase_quiet in E3. destruct E3 as (Q3 & _ & _ & V3 & _).
  pose proof (collision_phase_events _ _ _ _ E4) as V4.
  assert (L3 : length (Environment.heap s3) = length (Environment.heap s))
    by (rewrite (proj1 Q3), (proj1 Q2), (proj1 Q1); reflexivity).
  destruct (lookup_lt_is_Some_2 (Environment.heap s3) r ltac:(lia))
    as [a3 Ha3].
  destruct (collision_phase_frame _ _ _ _ _ E4 Ha3) as (Fr4 & L4 & _).
  apply eating_phase_quiet in E5. destruct E5 as (Q5 & _ & V5 & _).
  assert (L5 : length (Environment.heap s5) = length (Environment.heap s))
    by (rewrite (proj1 Q5), L4; exact L3).
  assert (Hinv5 : spawn_targets (Environment.events s5)
                  = drop n (position <$> Environment.heap s5)).
  { rewrite V5, V4, V3, V2, V1, Hinv.
    rewrite (heap_quiet_positions n _ _ Q5).
    rewrite (heap_frame_positions r n _ _ Fr4 L4 ltac:(lia)).
    rewrite (heap_quiet_positions n _ _ Q3).
    rewrite (heap_quiet_positions n _ _ Q2).
    rewrite (heap_quiet_positions n _ _ Q1). reflexivity. }
  destruct (lookup_lt_is_Some_2 (Environment.heap s5) r ltac:(lia))
    as [a5 Ha5].
  assert (Hinv6 : spawn_targets (Environment.events s6)
                  = drop n (position <$> Environment.heap s6)
                  /\ (length (Environment.heap s5)
                      <= length (Environment.heap s6))%nat).
  { destruct (reproduction_phase_events _ _ _ _ E6 Ha5)
      as [[-> ->] | (a6 & child & -> & Hpos & ->)];
      [split; [exact Hinv5 | lia] |].
    split; [| rewrite length_app, length_insert; lia].
    rewrite spawn_targets_app, Hinv5. cbn [spawn_targets omap].
    rewrite fmap_app, drop_app_le
      by (rewrite length_fmap, length_insert; lia).
    f_equal. symmetry.
    apply (heap_frame_positions r n);
      [apply heap_frame_insert | apply length_insert | lia]. }
  destruct Hinv6 as [Hinv6 L6].
  destruct (lookup_lt_is_Some_2 (Environment.heap s6) r ltac:(lia))
    as [a6 Ha6].
  destruct (death_phase_frame _ _ _ _ E7 Ha6) as ((a7 & -> & _) & _).
  rewrite (death_phase_events _ _ _ E7), Hinv6.
  symmetry. apply (heap_frame_positions r n);
    [apply heap_frame_insert | apply length_insert | lia].
Qed.

Lemma agent_loop_events (night : bool) (sun : Field) (n : nat)
    (rs : list nat) (s s' : Environment.loop) :
  Environment.agent_loop night sun rs s = Some s' ->
  Forall (fun r => (r < n)%nat) rs ->
  (n <= length (Environment.heap s))%nat ->
  spawn_targets (Environment.events s)
  = drop n (position <$> Environment.heap s) ->
  spawn_targets (Environment.events s')
  = drop n (position <$> Environment.heap s').
Proof.
  revert s. induction rs as [| r rest IH]; intros s H Hrs Hn Hinv.
  - injection H as <-. exact Hinv.
  - apply Forall_cons in Hrs. destruct Hrs as [Hr Hrs].
    cbn [Environment.agent_loop] in H.
    apply bind_Some in H. destruct H as (s1 & E1 & H).
    apply (IH s1 H Hrs).
    + destruct (agent_turn_lookup _ _ _ _ _ E1) as [a Ha].
      destruct (agent_turn_frame _ _ _ _ _ _ E1 Ha) as ([L _] & _). lia.
    + apply (agent_turn_events _ _ _ _ _ _ E1); [lia | exact Hinv].
Qed.

(** X21.  What a tick returns.  When the loop ends, the first objects of
    the heap are the agents of the old population, each after its one turn,
    and the objects behind them are the newborns, in order of birth.  The
    next population is the survivors, that is those agents of the old
    population that are then alive, in order, followed by all the newborns;
    there are no more newborns than there were agents, so that the
    population at most doubles; and the returned events hold exactly one
    spawn event for each newborn, in the same order, whose target is the
    newborn's cell. *)
Theorem spawn_events_list_the_newborns (self : Environment.t) (g : RNG) :
  Forall agent_in_grid (Environment.agents self) ->
  exists s self' ev g' survivors newborns,
    Environment.run_loop self g = Some s
    /\ Environment.update_agents self g = Some (self', ev, g')
    /\ (forall k a, Environment.agents self !! k = Some a ->
          exists a',
            take (length (Environment.agents self)) (Environment.heap s) !! k
            = Some a'
            /\ acted a a')
    /\ length (take (length (Environment.agents self)) (Environment.heap s))
       = length (Environment.agents self)
    /\ survivors
       = filter (fun a => Agent.is_alive a = true)
                (take (length (Environment.agents self)) (Environment.heap s))
    /\ newborns = drop (length (Environment.agents self)) (Environment.heap s)
    /\ Environment.agents self' = survivors ++ newborns
    /\ Forall (fun a => Agent.is_alive a = true) survivors
    /\ spawn_targets ev = position <$> newborns
    /\ (length survivors <= length (Environment.agents self))%nat
    /\ (length newborns <= length (Environment.agents self))%nat.
Proof.
  intros Hgrid.
  destruct (update_agents_ok self g Hgrid)
    as (s & self' & ev & g' & Es & E & Hok & Hpop & _).
  destruct (run_loop_ok self g Hgrid) as (s0 & Es0 & _ & Hlen & _).
  rewrite Es in Es0. injection Es0 as <-.
  set (n := length (Environment.agents self)) in *.
  exists s, self', ev, g',
    (filter (fun a => Agent.is_alive a = true) (take n (Environment.heap s))),
    (drop n (Environment.heap s)).
  split; [exact Es |]. split; [exact E |].
  assert (Hev : ev = Environment.events s).
  { unfold Environment.update_agents in E. rewrite Es in E.
    cbn [mbind option_bind] in E.
    apply bind_Some in E. destruct E as (grid' & _ & E).
    injection E as _ <- _. reflexivity. }
  split.
  { intros k a Ha. destruct (run_loop_acts self g s Es k a Ha)
      as (a' & Ha' & Hact).
    exists a'. split; [| exact Hact].
    rewrite lookup_take_lt; [exact Ha' |].
    apply lookup_lt_Some in Ha. exact Ha. }
  split; [rewrite length_take; lia |].
  split; [reflexivity |]. split; [reflexivity |].
  split; [exact Hpop |].
  split.
  { apply Forall_forall. intros a Ha.
    apply list_elem_of_filter in Ha. apply Ha. }
  split; [| split].
  - rewrite Hev, fmap_drop. unfold Environment.run_loop in Es.
    apply (agent_loop_events _ _ n _ _ _ Es).
    + apply seq_valid. reflexivity.
    + reflexivity.
    + cbn [Environment.loop_start Environment.events Environment.heap].
      rewrite drop_ge by (rewrite length_fmap; reflexivity). reflexivity.
  - etransitivity; [apply length_filter |]. rewrite length_take. lia.
  - rewrite length_drop. lia.
Qed.

Lemma spawn_events_list_the_newborns_witness :
  exists s self' ev g' survivors newborns,
    Environment.run_loop nursery steady_rng = Some s
    /\ Environment.update_agents nursery steady_rng = Some (self', ev, g')
    /\ (forall k a, Environment.agents nursery !! k = Some a ->
          exists a',
            take (length (Environment.agents nursery)) (Environment.heap s)
              !! k
            = Some a'
            /\ acted a a')
    /\ length (take (length (Environment.agents nursery))
                    (Environment.heap s))
       = length (Environment.agents nursery)
    /\ survivors
       = filter (fun a => Agent.is_alive a = true)
                (take (length (Environment.agents nursery))
                      (Environment.heap s))
    /\ newborns
       = drop (length (Environment.agents nursery)) (Environment.heap s)
    /\ Environment.agents self' = survivors ++ newborns
    /\ Forall (fun a => Agent.is_alive a = true) survivors
    /\ spawn_targets ev = position <$> newborns
    /\ (length survivors <= length (Environment.agents nursery))%nat
    /\ (length newborns <= length (Environment.agents nursery))%nat.
Proof.
  exact (spawn_events_list_the_newborns nursery steady_rng nursery_in_grid).
Defined.

(* ===================================================================== *)
(** ** One live agent on a cell *)
(* ===================================================================== *)

Lemma build_occupied_other (l : list Agent.t) (i : nat)
    (m : gmap (Z * Z) nat) (c : Z * Z) :
  c ∉ position <$> l -> Environment.build_occupied i l m !! c = m !! c.
Proof.
  revert i m. induction l as [| a rest IH]; intros i m Hc;
    cbn [Environment.build_occupied]; [reflexivity |].
  rewrite fmap_cons in Hc. apply not_elem_of_cons in Hc.
  destruct Hc as [Hne Hc].
  rewrite IH by exact Hc. apply lookup_insert_ne.
  intros E. apply Hne. symmetry. exact E.
Qed.

Lemma build_occupied_lookup (l : list Agent.t) (i : nat)
    (m : gmap (Z * Z) nat) (k : nat) (a : Agent.t) :
  NoDup (position <$> l) -> l !! k = Some a ->
  Environment.build_occupied i l m !! position a = Some (i + k)%nat.
Proof.
  revert i m k. induction l as [| x rest IH]; intros i m k Hnd Hk;
    [discriminate Hk |].
  rewrite fmap_cons in Hnd. apply NoDup_cons in Hnd.
  destruct Hnd as [Hx Hnd]. cbn [Environment.build_occupied].
  destruct k as [| k].
  - injection Hk as <-. rewrite build_occupied_other by exact Hx.
    rewrite Nat.add_0_r. apply lookup_insert_eq.
  - cbn in Hk. rewrite (IH (S i) _ k Hnd Hk). f_equal. lia.
Qed.

Lemma loop_start_registered (self : Environment.t) (g : RNG) :
  NoDup (position <$> Environment.agents self) ->
  registered (Environment.loop_start self g).
Proof.
  intros Hnd r a Ha _.
  cbn [Environment.loop_start Environment.heap Environment.occupied] in *.
  exact (build_occupied_lookup _ 0 ∅ r a Hnd Ha).
Qed.

Lemma quiet_alive (a a' : Agent.t) :
  quiet a a' -> Agent.is_alive a' = true -> Agent.is_alive a = true.
Proof.
  intros [_ Hd] H. destruct (Agent.is_alive a); [reflexivity |].
  rewrite Hd in H by reflexivity. discriminate H.
Qed.

Lemma heap_quiet_registered (s s' : Environment.loop) :
  heap_quiet (Environment.heap s) (Environment.heap s') ->
  Environment.occupied s' = Environment.occupied s ->
  registered s -> registered s'.
Proof.
  intros [L Q] Hocc Hreg r a' Ha' Hal.
  pose proof (lookup_lt_Some _ _ _ Ha') as Hr. rewrite L in Hr.
  destruct (lookup_lt_is_Some_2 _ _ Hr) as [a Ha].
  destruct (Q r a Ha) as (a2 & Ha2 & Hq).
  rewrite Ha' in Ha2. injection Ha2 as <-.
  rewrite Hocc, (quiet_position _ _ Hq).
  apply (Hreg r a Ha). exact (quiet_alive _ _ Hq Hal).
Qed.

Lemma move_into_registered (r : nat) (target : Z * Z)
    (s s' : Environment.loop) :
  Environment.move_into r target s = Some s' ->
  registered s ->
  (forall k b, k <> r -> Environment.heap s !! k = Some b ->
               Agent.is_alive b = true -> position b <> target) ->
  registered s'.
Proof.
  unfold Environment.move_into. intros H Hreg Hfree.
  apply bind_Some in H. destruct H as (a & Ha & H).
  injection H as <-. intros k b Hb Hal.
  cbn [Environment.heap Environment.occupied] in *.
  destruct (decide (k = r)) as [-> | Hne].
  - rewrite list_lookup_insert_eq in Hb by (eapply lookup_lt_Some; exact Ha).
    injection Hb as <-. destruct target as [tx ty].
    apply lookup_insert_eq.
  - rewrite list_lookup_insert_ne in Hb by congruence.
    pose proof (Hreg k b Hb Hal) as Hk.
    rewrite lookup_insert_ne
      by (intros E; apply (Hfree k b Hne Hb Hal); symmetry; exact E).
    destruct (bool_decide _) eqn:Hd; [| exact Hk].
    apply bool_decide_eq_true in Hd.
    rewrite lookup_delete_ne; [exact Hk |].
    intros E. fold (position a) in Hd, E. rewrite E in Hd. congruence.
Qed.

Lemma collision_phase_registered (r : nat) (target : Z * Z)
    (s s' : Environment.loop) :
  Environment.collision_phase r target s = Some s' ->
  registered s -> registered s'.
Proof.
  unfold Environment.collision_phase. intros H Hreg.
  destruct (Environment.occupied s !! target) as [o |] eqn:Hocc.
  - apply bind_Some in H. destruct H as (a & Ha & H).
    apply bind_Some in H. destruct H as (other & Ho & H).
    destruct (Environment.predation_fires a other) eqn:Hf;
      [| injection H as <-; exact Hreg].
    pose proof (predation_fires_distinct r o _ _ _ Ha Ho Hf) as Hne.
    pose proof (lookup_lt_Some _ _ _ Ha) as Hrl.
    pose proof (lookup_lt_Some _ _ _ Ho) as Hol.
    (* the heap after the meal, seen from the heap before *)
    assert (Hback : forall k b,
              alter (Agent.set_is_alive false) o
                    (<[r := Agent.add_energy
                              (Agent.energy other * PREDATOR_EAT_EFFICIENCY
                               + DEAD_BODY_NUTRIENT) a]>
                       (Environment.heap s)) !! k = Some b ->
              Agent.is_alive b = true ->
              k <> o
              /\ exists b0, Environment.heap s !! k = Some b0
                            /\ Agent.is_alive b0 = true
                            /\ position b0 = position b).
    { intros k b Hb Hal. destruct (decide (k = o)) as [-> | Hko].
      - rewrite list_lookup_alter_eq, list_lookup_insert_ne, Ho in Hb
          by exact Hne.
        injection Hb as <-. discriminate Hal.
      - split; [exact Hko |].
        rewrite list_lookup_alter_ne in Hb by congruence.
        destruct (decide (k = r)) as [-> | Hkr].
        + rewrite list_lookup_insert_eq in Hb by exact Hrl.
          injection Hb as <-. exists a.
          split; [exact Ha |]. split; [exact Hal | reflexivity].
        + rewrite list_lookup_insert_ne in Hb by congruence.
          exists b. split; [exact Hb |]. split; [exact Hal | reflexivity]. }
    eapply move_into_registered; [exact H | |].
    + intros k b Hb Hal. cbn [Environment.heap Environment.occupied] in *.
      destruct (Hback k b Hb Hal) as (_ & b0 & Hb0 & Hal0 & <-).
      exact (Hreg k b0 Hb0 Hal0).
    + intros k b Hkr Hb Hal Hpos.
      cbn [Environment.heap] in Hb.
      destruct (Hback k b Hb Hal) as (Hko & b0 & Hb0 & Hal0 & Hp0).
      pose proof (Hreg k b0 Hb0 Hal0) as Hk.
      rewrite Hp0, Hpos, Hocc in Hk. congruence.
  - eapply move_into_registered; [exact H | exact Hreg |].
    intros k b _ Hb Hal Hpos.
    pose proof (Hreg k b Hb Hal) as Hk. rewrite Hpos, Hocc in Hk.
    discriminate Hk.
Qed.

Lemma reproduction_phase_registered (r : nat) (s s' : Environment.loop) :
  Environment.reproduction_phase r s = Some s' ->
  registered s -> registered s'.
Proof.
  unfold Environment.reproduction_phase. intros H Hreg.
  apply bind_Some in H. destruct H as (a & Ha & H).
  pose proof (lookup_lt_Some _ _ _ Ha) as Hrl.
  destruct (Qltb (repro_threshold (Agent.genes a)) (Agent.energy a));
    [| injection H as <-; exact Hreg].
  cbv zeta in H.
  destruct (shuffle _ (Environment.rng s)) as [nb g1].
  cbn [Environment.occupied Environment.heap] in H.
  destruct (find (Environment.vacant (Environment.occupied s)) nb)
    as [c |] eqn:Hfind; [| injection H as <-; exact Hreg].
  apply find_some in Hfind. destruct Hfind as [_ Hvac].
  apply vacant_in_grid in Hvac. destruct Hvac as [_ Hnone].
  unfold Environment.spawn in H. cbn [Environment.heap Environment.rng] in H.
  rewrite Ha in H. cbn [mbind option_bind] in H.
  destruct (Agent.mutate_genes _ g1) as [child_genes g2].
  match type of H with
  | context [Agent.init ?x ?y ?gs ?e ?gen ?g0] =>
      pose proof (agent_init_fields x y gs e gen g0) as Hf;
      destruct (Agent.init x y gs e gen g0) as [child g3]
  end.
  cbv zeta in Hf. cbn [fst] in Hf. destruct Hf as (Hx & Hy & _).
  injection H as <-. intros k b Hb Hal.
  cbn [Environment.heap Environment.occupied] in *.
  assert (Hchild : position child = c)
    by (unfold position; rewrite Hx, Hy; destruct c; reflexivity).
  destruct (Nat.lt_ge_cases k (length (Environment.heap s))) as [Hk | Hk].
  - rewrite lookup_app_l in Hb by (rewrite length_insert; exact Hk).
    assert (Hold : exists b0, Environment.heap s !! k = Some b0
                    /\ Agent.is_alive b0 = true
                    /\ position b0 = position b).
    { destruct (decide (k = r)) as [-> | Hkr].
      - rewrite list_lookup_insert_eq in Hb by exact Hrl.
        injection Hb as <-. exists a.
        split; [exact Ha |]. split; [exact Hal | reflexivity].
      - rewrite list_lookup_insert_ne in Hb by congruence.
        exists b. split; [exact Hb |]. split; [exact Hal | reflexivity]. }
    destruct Hold as (b0 & Hb0 & Hal0 & Hp0).
    pose proof (Hreg k b0 Hb0 Hal0) as Hreg0. rewrite Hp0 in Hreg0.
    rewrite lookup_insert_ne; [exact Hreg0 |].
    intros E. rewrite <- E, Hnone in Hreg0. discriminate Hreg0.
  - rewrite lookup_app_r in Hb by (rewrite length_insert; exact Hk).
    rewrite length_insert in Hb.
    destruct (k - length (Environment.heap s))%nat as [| d] eqn:Hd;
      [| destruct d; discriminate Hb].
    injection Hb as <-. rewrite Hchild.
    replace k with (length (Environment.heap s)) by lia.
    apply lookup_insert_eq.
Qed.

Lemma death_phase_registered (r : nat) (s s' : Environment.loop) :
  Environment.death_phase r s = Some s' ->
  registered s -> registered s'.
Proof.
  unfold Environment.death_phase. intros H Hreg.
  apply bind_Some in H. destruct H as (a & Ha & H).
  pose proof (lookup_lt_Some _ _ _ Ha) as Hrl.
  destruct (check_evolution_persists a) as (Hp & Hx & Hy & _).
  destruct Hp as (_ & _ & _ & _ & Hdead & _).
  set (b := Agent.check_evolution a) in *.
  assert (Hstep : forall a' : Agent.t,
            position a' = position a ->
            (Agent.is_alive a' = true -> Agent.is_alive a = true) ->
            registered
              (Environment.mkLoop (<[r := a']> (Environment.heap s))
                 (Environment.grid s) (Environment.occupied s)
                 (Environment.dead_agents s ++ [r]) (Environment.events s)
                 (Environment.rng s))
            /\ registered
                 (Environment.set_heap (<[r := a']> (Environment.heap s)) s)).
  { intros a' Hpos Hal. split; intros k x Hk Hx';
      cbn [Environment.heap Environment.occupied Environment.set_heap] in *;
      (destruct (decide (k = r)) as [-> | Hkr];
       [ rewrite list_lookup_insert_eq in Hk by exact Hrl;
         injection Hk as <-; rewrite Hpos; apply (Hreg r a Ha); auto
       | rewrite list_lookup_insert_ne in Hk by congruence;
         exact (Hreg k x Hk Hx') ]). }
  destruct (Qle_bool _ 0); injection H as <-.
  - apply Hstep; [unfold position; cbn; rewrite Hx, Hy; reflexivity |].
    cbn. discriminate.
  - apply Hstep; [unfold position; cbn; rewrite Hx, Hy; reflexivity |].
    cbn. intros Hb. destruct (Agent.is_alive a) eqn:E; [reflexivity |].
    rewrite Hdead in Hb by reflexivity. discriminate Hb.
Qed.

Lemma agent_turn_registered (night : bool) (sun : Field) (r : nat)
    (s s' : Environment.loop) :
  Environment.agent_turn night sun r s = Some s' ->
  registered s -> registered s'.
Proof.
  unfold Environment.agent_turn. intros H Hreg.
  apply bind_Some in H. destruct H as (s1 & E1 & H).
  apply bind_Some in H. destruct H as ([b s2] & E2 & H).
  apply bind_Some in H. destruct H as ([target s3] & E3 & H).
  apply bind_Some in H. destruct H as (s4 & E4 & H).
  apply bind_Some in H. destruct H as (s5 & E5 & H).
  apply bind_Some in H. destruct H as (s6 & E6 & E7).
  cbn [fst snd] in *.
  apply photosynthesis_phase_quiet in E1. destruct E1 as (Q1 & _ & O1 & _).
  apply colony_phase_quiet in E2. destruct E2 as (Q2 & _ & O2 & _).
  apply movement_phase_quiet in E3. destruct E3 as (Q3 & _ & O3 & _).
  apply eating_phase_quiet in E5. destruct E5 as (Q5 & O5 & _).
  apply (death_phase_registered _ _ _ E7).
  apply (reproduction_phase_registered _ _ _ E6).
  apply (heap_quiet_registered _ _ Q5 O5).
  apply (collision_phase_registered _ _ _ _ E4).
  apply (heap_quiet_registered _ _ Q3 O3).
  apply (heap_quiet_registered _ _ Q2 O2).
  apply (heap_quiet_registered _ _ Q1 O1). exact Hreg.
Qed.

Lemma agent_loop_registered (night : bool) (sun : Field) (rs : list nat)
    (s s' : Environment.loop) :
  Environment.agent_loop night sun rs s = Some s' ->
  registered s -> registered s'.
Proof.
  revert s. induction rs as [| r rest IH]; intros s H Hreg.
  - injection H as <-. exact Hreg.
  - cbn [Environment.agent_loop] in H.
    apply bind_Some in H. destruct H as (s1 & E1 & H).
    apply (IH s1 H). exact (agent_turn_registered _ _ _ _ _ E1 Hreg).
Qed.

Lemma apart_of_injective (h : list Agent.t) :
  (forall i j a b, h !! i = Some a -> h !! j = Some b ->
     Agent.is_alive a = true -> Agent.is_alive b = true ->
     position a = position b -> i = j) ->
  apart h.
Proof.
  unfold apart. induction h as [| x t IH]; intros Hinj;
    [apply NoDup_nil_2 |].
  assert (Ht : NoDup (position <$>
                        filter (fun a => Agent.is_alive a = true) t)).
  { apply IH. intros i j a b Ha Hb Hal Hbl Hp.
    pose proof (Hinj (S i) (S j) a b Ha Hb Hal Hbl Hp). lia. }
  rewrite filter_cons. destruct (decide (Agent.is_alive x = true)) as [Hx | Hx];
    [| exact Ht].
  rewrite fmap_cons. apply NoDup_cons. split; [| exact Ht].
  intros Hin. apply list_elem_of_fmap in Hin.
  destruct Hin as (b & Hp & Hb).
  apply list_elem_of_filter in Hb. destruct Hb as [Hbl Hb].
  apply list_elem_of_lookup in Hb. destruct Hb as [j Hj].
  pose proof (Hinj 0%nat (S j) x b eq_refl Hj Hx Hbl Hp). lia.
Qed.

Lemma registered_apart (s : Environment.loop) :
  registered s -> apart (Environment.heap s).
Proof.
  intros Hreg. apply apart_of_injective.
  intros i j a b Ha Hb Hal Hbl Hp.
  pose proof (Hreg i a Ha Hal) as Hi. pose proof (Hreg j b Hb Hbl) as Hj.
  rewrite Hp in Hi. congruence.
Qed.

Lemma next_population_alive (n : nat) (h : list Agent.t) :
  filter (fun a => Agent.is_alive a = true) (Environment.next_population n h)
  = filter (fun a => Agent.is_alive a = true) h.
Proof.
  unfold Environment.next_population.
  rewrite filter_app, list_filter_filter.
  rewrite <- (take_drop n h) at 3. rewrite filter_app. f_equal.
  apply list_filter_iff. intros a. tauto.
Qed.

(** X22.  One live agent on a cell: when the agents of a population on the
    grid stand on pairwise distinct cells, no two live agents of the next
    population, survivors or newborns, stand on the same cell. *)
Theorem live_agents_keep_apart (self : Environment.t) (g : RNG) :
  Forall agent_in_grid (Environment.agents self) ->
  NoDup (position <$> Environment.agents self) ->
  exists self' ev g',
    Environment.update_agents self g = Some (self', ev, g')
    /\ apart (Environment.agents self').
Proof.
  intros Hgrid Hnd.
  destruct (update_agents_ok self g Hgrid)
    as (s & self' & ev & g' & Es & E & Hok & Hpop & _).
  exists self', ev, g'. split; [exact E |].
  unfold apart. rewrite Hpop, next_population_alive.
  apply registered_apart. unfold Environment.run_loop in Es.
  eapply agent_loop_registered; [exact Es |].
  apply loop_start_registered. exact Hnd.
Qed.

Lemma live_agents_keep_apart_witness :
  exists self' ev g',
    Environment.update_agents nursery steady_rng = Some (self', ev, g')
    /\ apart (Environment.agents self').
Proof.
  apply (live_agents_keep_apart nursery steady_rng nursery_in_grid).
  apply NoDup_cons. split; [| apply NoDup_singleton].
  intros H. apply list_elem_of_singleton in H. discriminate H.
Defined.

(* ===================================================================== *)
(** ** The colour of an agent *)
(* ===================================================================== *)

Lemma insert_desc_In (t x : Q * (Z * Z * Z)) (l : list (Q * (Z * Z * Z))) :
  In x (Agent.insert_desc t l) <-> x = t \/ In x l.
Proof.
  induction l as [| h rest IH]; cbn [Agent.insert_desc].
  - cbn. intuition congruence.
  - destruct (Qltb (fst h) (fst t)); cbn [In]; [intuition congruence |].
    rewrite IH. intuition congruence.
Qed.

Lemma insert_desc_head_max (t : Q * (Z * Z * Z))
    (l : list (Q * (Z * Z * Z))) :
  head_max l -> head_max (Agent.insert_desc t l).
Proof.
  destruct l as [| h rest]; cbn [Agent.insert_desc head_max].
  - intros _ x [<- | []]. lra.
  - intros H. case_Qltb (fst h) (fst t); cbn [head_max].
    + intros x [<- | Hx]; [lra |]. specialize (H x Hx). lra.
    + intros x [<- | Hx]; [lra |].
      apply insert_desc_In in Hx. destruct Hx as [-> | Hx]; [lra |].
      apply H. right. exact Hx.
Qed.

Lemma sort_desc_fold (l acc : list (Q * (Z * Z * Z))) :
  head_max acc ->
  head_max (fold_left (fun acc t => Agent.insert_desc t acc) l acc)
  /\ forall x, In x (fold_left (fun acc t => Agent.insert_desc t acc) l acc)
               <-> In x l \/ In x acc.
Proof.
  revert acc. induction l as [| t l IH]; intros acc H; cbn [fold_left].
  - split; [exact H |]. intros x. cbn. tauto.
  - destruct (IH _ (insert_desc_head_max t acc H)) as [H1 H2].
    split; [exact H1 |]. intros x. rewrite H2, insert_desc_In. cbn [In].
    intuition congruence.
Qed.

(** The sort puts an entry of largest key first. *)
Lemma sort_desc_head (l : list (Q * (Z * Z * Z))) (d : Q * (Z * Z * Z)) :
  l <> [] ->
  In (nth 0 (Agent.sort_desc l) d) l
  /\ forall x, In x l -> fst x <= fst (nth 0 (Agent.sort_desc l) d).
Proof.
  intros Hne. unfold Agent.sort_desc.
  destruct (sort_desc_fold l [] I) as [H1 H2].
  destruct (fold_left _ l []) as [| h rest] eqn:E.
  - destruct l as [| t l]; [congruence |].
    exfalso. apply (proj2 (H2 t)). left. left. reflexivity.
  - cbn [nth]. split.
    + destruct (proj1 (H2 h) (or_introl eq_refl)) as [Hh | []]. exact Hh.
    + intros x Hx. apply H1. apply H2. left. exact Hx.
Qed.

Lemma py_int_floor (x : Q) :
  0 <= x -> inject_Z (py_int x) <= x /\ x < inject_Z (py_int x) + 1.
Proof.
  intros Hx. unfold py_int. destruct x as [n d].
  unfold Qle in Hx. cbn in Hx. cbn [Qnum Qden].
  rewrite Z.quot_div_nonneg by lia.
  pose proof (Z.div_mod n (Z.pos d) ltac:(lia)) as Hdm.
  pose proof (Z.mod_pos_bound n (Z.pos d) ltac:(lia)) as Hm.
  unfold Qle, Qlt, inject_Z, Qplus. cbn [Qnum Qden].
  split; nia.
Qed.

Lemma darken (c : Z) (f : Q) :
  (0 <= c)%Z -> 0.6 <= f -> f <= 1 ->
  darkened c (py_int (inject_Z c * f)).
Proof.
  intros Hc Hlo Hhi.
  rewrite Zle_Qle in Hc. change (inject_Z 0) with 0 in Hc.
  set (q := inject_Z c) in *.
  assert (H1 : q * 0.6 <= q * f).
  { rewrite !(Qmult_comm q). apply Qmult_le_compat_r; lra. }
  assert (H2 : q * f <= q).
  { assert (H : f * q <= 1 * q) by (apply Qmult_le_compat_r; lra).
    assert (E1 : q * f == f * q) by ring.
    assert (E2 : 1 * q == q) by ring. lra. }
  destruct (py_int_floor (q * f)) as [F1 F2]; [lra |].
  unfold darkened. fold q. split; [| lra].
  set (k := py_int (q * f)) in *.
  split.
  - destruct (Z_lt_le_dec k 0) as [Hneg | Hpos]; [| exact Hpos].
    assert (Hq : (k + 1 <= 0)%Z) by lia.
    rewrite Zle_Qle, inject_Z_plus in Hq.
    change (inject_Z 1) with 1 in Hq. change (inject_Z 0) with 0 in Hq. lra.
  - rewrite Zle_Qle. fold q. lra.
Qed.

(** X23.  The colour of an agent: a predator is purple; any other agent
    whose size gene lies within its bounds has the colour of one of its
    four traits of largest normalised value, darkened by its size by at
    most 40 percent, each channel being an integer between 0 and the
    channel of that colour. *)
Theorem color_shows_the_dominant_trait (self : Agent.t) :
  within (size GENE_BOUNDS) (size (Agent.genes self)) ->
  (Agent.is_predator self = true ->
   Agent.update_color self = (128, 0, 128)%Z)
  /\ (Agent.is_predator self = false ->
      exists v base,
        In (v, base) (color_traits self)
        /\ (forall v' base', In (v', base') (color_traits self) -> v' <= v)
        /\ shade_of base (Agent.update_color self)).
Proof.
  intros [Hlo Hhi]. unfold Agent.update_color.
  destruct (Agent.is_predator self);
    (split; [intros H; try discriminate H; reflexivity
            | intros H; try discriminate H]).
  cbv zeta.
  change [(repro_threshold (Agent.genes self)
           / snd (repro_threshold GENE_BOUNDS), (255, 50, 50)%Z);
          (inject_Z (sense_range (Agent.genes self))
           / inject_Z (snd (sense_range GENE_BOUNDS)), (50, 255, 50)%Z);
          (1.0 - metabolism (Agent.genes self) / snd (metabolism GENE_BOUNDS),
           (50, 50, 255)%Z);
          (photosynthesis_efficiency (Agent.genes self), (255, 255, 0)%Z)]
    with (color_traits self).
  destruct (sort_desc_head (color_traits self) (0, (0, 0, 0)%Z))
    as [Hin Hmax]; [discriminate |].
  set (top := nth 0 (Agent.sort_desc (color_traits self)) (0, (0, 0, 0)%Z))
    in *.
  exists (fst top), (snd top).
  split; [destruct top; exact Hin |].
  split; [intros v' base' Hv; exact (Hmax _ Hv) |].
  set (f := 1.0 - (size (Agent.genes self) - fst (size GENE_BOUNDS))
                  / (snd (size GENE_BOUNDS) - fst (size GENE_BOUNDS)) * 0.4).
  assert (Hf : 0.6 <= f /\ f <= 1).
  { subst f. cbn [size GENE_BOUNDS fst snd] in *.
    unfold Qdiv. assert (E : / (3.0 - 1.0) == 1 # 2) by reflexivity.
    split; rewrite E; lra. }
  destruct Hf as [Hf1 Hf2].
  assert (Hbase : (0 <= fst (fst (snd top)))%Z /\ (0 <= snd (fst (snd top)))%Z
                  /\ (0 <= snd (snd top))%Z).
  { destruct Hin as [<- | [<- | [<- | [<- | []]]]]; cbn; lia. }
  destruct Hbase as (B1 & B2 & B3).
  unfold shade_of. cbn [fst snd].
  split; [| split]; apply darken; assumption.
Qed.

Lemma color_shows_the_dominant_trait_witness :
  Agent.update_color (hunter 5 5) = (128, 0, 128)%Z.
Proof.
  refine (proj1 (color_shows_the_dominant_trait (hunter 5 5) _) eq_refl).
  split; vm_compute; discriminate.
Defined.

(* ===================================================================== *)
(** ** main.py: [map_value_to_color] *)
(* ===================================================================== *)

Lemma scale_channel (c : Z) (f : Q) :
  (0 <= c)%Z -> 0 <= f -> f <= 1 ->
  (0 <= py_int (inject_Z c * f) <= c)%Z.
Proof.
  intros Hc Hlo Hhi.
  rewrite Zle_Qle in Hc. change (inject_Z 0) with 0 in Hc.
  set (q := inject_Z c) in *.
  assert (H1 : 0 <= q * f) by (apply Qmult_le_0_compat; assumption).
  assert (H2 : q * f <= q).
  { assert (H : f * q <= 1 * q) by (apply Qmult_le_compat_r; lra).
    assert (E1 : q * f == f * q) by ring.
    assert (E2 : 1 * q == q) by ring. lra. }
  destruct (py_int_floor (q * f) H1) as [F1 F2].
  set (k := py_int (q * f)) in *.
  split.
  - destruct (Z_lt_le_dec k 0) as [Hneg | Hpos]; [| exact Hpos].
    assert (Hq : (k + 1 <= 0)%Z) by lia.
    rewrite Zle_Qle, inject_Z_plus in Hq.
    change (inject_Z 1) with 1 in Hq. change (inject_Z 0) with 0 in Hq. lra.
  - rewrite Zle_Qle. fold q. lra.
Qed.

Lemma py_int_whole (c : Z) : py_int (inject_Z c * 1.0) = c.
Proof.
  unfold py_int. cbn [inject_Z Qmult Qnum Qden].
  change (Z.pos (1 * 10)) with 10%Z. apply Z.quot_mul. discriminate.
Qed.

(** X24.  [map_value_to_color] with a positive [max_val], a value that is
    not negative and a tint of non-negative channels returns a colour
    whose channels are integers between 0 and those of the tint; from
    [value = max_val] on it returns the tint itself. *)
Theorem map_value_to_color_range (value max_val : Q) (tint : Z * Z * Z) :
  0 <= value -> 0 < max_val ->
  (0 <= fst (fst tint))%Z -> (0 <= snd (fst tint))%Z -> (0 <= snd tint)%Z ->
  exists color,
    map_value_to_color value max_val tint = Some color
    /\ (0 <= fst (fst color) <= fst (fst tint))%Z
    /\ (0 <= snd (fst color) <= snd (fst tint))%Z
    /\ (0 <= snd color <= snd tint)%Z
    /\ (max_val <= value -> color = tint).
Proof.
  intros Hv Hm H1 H2 H3. unfold map_value_to_color.
  destruct (Qeq_bool max_val 0) eqn:E.
  { apply Qeq_bool_iff in E. lra. }
  assert (Hq : 0 <= value / max_val).
  { apply Qle_shift_div_l; [exact Hm | lra]. }
  set (f := py_min 1.0 (value / max_val)).
  assert (Hf : 0 <= f /\ f <= 1).
  { subst f. unfold py_min. case_Qltb (value / max_val) 1.0; split; lra. }
  destruct Hf as [Hf0 Hf1].
  eexists. split; [reflexivity |]. cbn [fst snd].
  split; [apply scale_channel; assumption |].
  split; [apply scale_channel; assumption |].
  split; [apply scale_channel; assumption |].
  intros Hsat.
  assert (Hone : f = 1.0).
  { subst f. unfold py_min.
    assert (Hge : 1.0 <= value / max_val)
      by (apply Qle_shift_div_l; [exact Hm | lra]).
    apply Qltb_ge in Hge. rewrite Hge. reflexivity. }
  rewrite Hone, !py_int_whole. destruct tint as [[r g] b]. reflexivity.
Qed.

Lemma map_value_to_color_range_witness :
  exists color,
    map_value_to_color 5.0 10.0 (0, 255, 0)%Z = Some color
    /\ (0 <= fst (fst color) <= 0)%Z
    /\ (0 <= snd (fst color) <= 255)%Z
    /\ (0 <= snd color <= 0)%Z
    /\ (10.0 <= 5.0 -> color = (0, 255, 0)%Z).
Proof.
  apply (map_value_to_color_range 5.0 10.0 (0, 255, 0)%Z);
    first [reflexivity | vm_compute; discriminate].
Defined.
